(** * NBA_Draft_Futures: the pick-versus-free-agent arbitrage pipeline

    A shallow embedding of the name canonicaliser, the draft/salary/war
    joins of [build_data.py], the draft fetcher of [bbr_draft.py] and the
    bucket pricing engine of [process_arbitrage.py], with the properties
    the repository's specification states about them.

    Conventions.
    - A Python [str] is a list of Unicode code points ([list N]).
    - A Python/NumPy [float] is an IEEE-754 binary64 number: Rocq's
      primitive [float], whose operations are the hardware ones and whose
      meaning is given by [SpecFloat] through [FloatAxioms].
    - A Python [int] is a [Z].
    - Library code the repository calls but does not contain (the Unicode
      character database behind [unicodedata] and [re], pandas' [median]
      and [quantile]) is a parameter, packaged as a class. *)

From Stdlib Require Import ZArith NArith List Lia Bool Floats String Ascii.
From stdpp Require Import gmap list.

Set Warnings "-inexact-float".

Local Open Scope Z_scope.

(* ===================================================================== *)
(** * Part I. Definitions                                                 *)
(* ===================================================================== *)

(** ** Python strings *)

Abbreviation pystr := (list N).

(** An ASCII literal, as the list of its code points. *)
Definition str (s : string) : pystr :=
  List.map N_of_ascii (list_ascii_of_string s).

(** ** Python values

    What a cell read from a frame may hold: [_canonicalize] tests its
    argument with [isinstance(name, str)]. *)

Inductive pyval : Type :=
  | PyStr (s : pystr)
  | PyFloat (x : float)
  | PyInt (z : Z)
  | PyNone.

(** ** The Unicode character database

    The data behind [unicodedata] and [re] for code points outside ASCII;
    on ASCII everything below is written out.
    - [decomposition c]: the full compatibility decomposition of [c].
    - [combining c]: the canonical combining class of [c]
      ([unicodedata.combining]).
    - [isalnum c]: whether [c] is alphanumeric ([str.isalnum]), which
      with ['_'] is what [\w] and [\b] go by.
    - [unicode_lower s]: [str.lower] on a string that is not all ASCII. *)

Class UnicodeData : Type := {
  decomposition : N -> list N;
  combining : N -> N;
  isalnum : N -> bool;
  unicode_lower : pystr -> pystr
}.

Local Open Scope N_scope.

Definition is_ascii (c : N) : bool := c <? 128.
Definition is_upper (c : N) : bool := (65 <=? c) && (c <=? 90).
Definition is_lower (c : N) : bool := (97 <=? c) && (c <=? 122).
Definition is_digit (c : N) : bool := (48 <=? c) && (c <=? 57).
Definition is_ascii_alnum (c : N) : bool := is_upper c || is_lower c || is_digit c.

Definition SPACE : N := 32.

(** [str.isspace] on one character, which is also [\s] of [re]. *)
Definition is_space (c : N) : bool :=
  ((9 <=? c) && (c <=? 13)) || ((28 <=? c) && (c <=? 32)) ||
  (c =? 133) || (c =? 160) || (c =? 5760) ||
  ((8192 <=? c) && (c <=? 8202)) || (c =? 8232) || (c =? 8233) ||
  (c =? 8239) || (c =? 8287) || (c =? 12288).

Definition ascii_to_lower (c : N) : N := if is_upper c then c + 32 else c.

Section Canonicalize.
Context `{UnicodeData}.

Definition decompose (c : N) : list N :=
  if is_ascii c then [c] else decomposition c.

Definition ccc (c : N) : N :=
  if is_ascii c then 0 else combining c.

(** Canonical ordering: a character moves right past the marks of a
    smaller non-zero combining class that follow it. *)
Fixpoint reorder_insert (c : N) (l : list N) : list N :=
  match l with
  | [] => [c]
  | d :: l' =>
    if (0 <? ccc d) && (ccc d <? ccc c) then d :: reorder_insert c l'
    else c :: l
  end.

Definition canonical_order (l : list N) : list N :=
  List.fold_right reorder_insert [] l.

(** [unicodedata.normalize("NFKD", name)]. *)
Definition nfkd (s : pystr) : pystr :=
  canonical_order (List.flat_map decompose s).

(** ["".join(ch for ch in name if not unicodedata.combining(ch))]. *)
Definition strip_combining (s : pystr) : pystr :=
  List.filter (fun c => ccc c =? 0) s.

(** [name.replace(old, "")] for a one-character [old]. *)
Definition remove_char (old : N) (s : pystr) : pystr :=
  List.filter (fun c => negb (c =? old)) s.

(** [name.replace(old, new)] for one-character [old] and [new]. *)
Definition replace_char (old new : N) (s : pystr) : pystr :=
  List.map (fun c => if c =? old then new else c) s.

(** [\w] of a [str] pattern. *)
Definition is_word (c : N) : bool :=
  if is_ascii c then is_ascii_alnum c || (c =? 95) else isalnum c.

Definition is_word_at (c : option N) : bool :=
  match c with Some c => is_word c | None => false end.

(** [\b] between two neighbouring positions; [None] is an end of the
    string. *)
Definition boundary (before after : option N) : bool :=
  xorb (is_word_at before) (is_word_at after).

(** A pattern letter against a subject character under [re.IGNORECASE]:
    the letter, its capital, and the characters [re] adds to them (U+0130
    and U+0131 for [i], U+017F for [s]). The pattern has the letters
    j, r, s, i, v. *)
Definition ci_match (p c : N) : bool :=
  (c =? p) || (c =? p - 32) ||
  ((p =? 105) && ((c =? 304) || (c =? 305))) ||
  ((p =? 115) && (c =? 383)).

(** One alternative at the head of [s], followed by [\b]: the length of
    the match. [before] is the last character matched so far. *)
Fixpoint match_alt (alt : pystr) (before : option N) (s : pystr) : bool :=
  match alt with
  | [] => boundary before (List.head s)
  | p :: alt' =>
    match s with
    | c :: s' => ci_match p c && match_alt alt' (Some c) s'
    | [] => false
    end
  end.

Definition SUFFIXES : list pystr :=
  [str "jr"; str "sr"; str "ii"; str "iii"; str "iv"; str "v"].

(** [\b(jr|sr|ii|iii|iv|v)\b] at the head of [s]: the alternatives are
    tried in order and the first that matches, its closing [\b] included,
    is taken. *)
Definition match_suffix (before : option N) (s : pystr) : option nat :=
  if boundary before (List.head s) then
    match List.find (fun alt => match_alt alt before s) SUFFIXES with
    | Some alt => Some (List.length alt)
    | None => None
    end
  else None.

(** [re.sub(r"\b(jr|sr|ii|iii|iv|v)\b", "", name, flags=re.IGNORECASE)]:
    a scan from the left; [before] is the character before the position
    and [skip] counts the characters of a match still to be dropped. *)
Fixpoint sub_suffixes_from (before : option N) (skip : nat) (s : pystr)
  : pystr :=
  match s with
  | [] => []
  | c :: s' =>
    match skip with
    | S k => sub_suffixes_from (Some c) k s'
    | O =>
      match match_suffix before s with
      | Some (S k) => sub_suffixes_from (Some c) k s'
      | _ => c :: sub_suffixes_from (Some c) O s'
      end
    end
  end.

Definition sub_suffixes (s : pystr) : pystr := sub_suffixes_from None O s.

(** [re.sub(r"[^a-zA-Z0-9 ]", "", name)]. *)
Definition keep_alnum_space (s : pystr) : pystr :=
  List.filter (fun c => is_ascii_alnum c || (c =? SPACE)) s.

(** [re.sub(r"\s+", " ", name)]; [in_run] says the character before was
    whitespace. *)
Fixpoint collapse_from (in_run : bool) (s : pystr) : pystr :=
  match s with
  | [] => []
  | c :: s' =>
    if is_space c then
      if in_run then collapse_from true s' else SPACE :: collapse_from true s'
    else c :: collapse_from false s'
  end.

Definition collapse_whitespace (s : pystr) : pystr := collapse_from false s.

Fixpoint lstrip (s : pystr) : pystr :=
  match s with
  | [] => []
  | c :: s' => if is_space c then lstrip s' else s
  end.

Fixpoint rstrip (s : pystr) : pystr :=
  match s with
  | [] => []
  | c :: s' =>
    match rstrip s' with
    | [] => if is_space c then [] else [c]
    | r => c :: r
    end
  end.

(** [name.strip()]. *)
Definition strip (s : pystr) : pystr := rstrip (lstrip s).

(** [name.lower()]. *)
Definition lower (s : pystr) : pystr :=
  if List.forallb is_ascii s then List.map ascii_to_lower s
  else unicode_lower s.

(** The body of [_canonicalize] on a [str]; [build_data.py] and
    [ingest_salaries_from_kaggle.py] define the function with the same
    text. *)
Definition canonicalize_str (name : pystr) : pystr :=
  let name := nfkd name in
  let name := strip_combining name in
  let name := remove_char 39 (remove_char 44 (remove_char 46 name)) in
  let name := replace_char 45 SPACE name in
  let name := sub_suffixes name in
  let name := keep_alnum_space name in
  lower (strip (collapse_whitespace name)).

Definition _canonicalize (name : pyval) : pystr :=
  match name with
  | PyStr s => canonicalize_str s
  | _ => []
  end.

End Canonicalize.

(** *** Words of a name

    The vocabulary in which the canonical form is described: the words of
    a string of ASCII letters, digits and spaces, and the test that a word
    is one of the generational suffixes up to case. *)

Definition simple_char (c : N) : bool := is_ascii_alnum c || (c =? SPACE).

(** The characters of an ordinary name once its diacritics are stripped:
    letters, digits, spaces, and the punctuation the canonicaliser handles
    before it looks for suffixes (period, comma, apostrophe, hyphen). *)
Definition name_char (c : N) : bool :=
  is_ascii_alnum c || (c =? SPACE) ||
  (c =? 46) || (c =? 44) || (c =? 39) || (c =? 45).

Fixpoint words_from (acc : pystr) (s : pystr) : list pystr :=
  match s with
  | [] => match acc with [] => [] | _ => [acc] end
  | c :: s' =>
    if c =? SPACE then
      match acc with
      | [] => words_from [] s'
      | _ => acc :: words_from [] s'
      end
    else words_from (acc ++ [c]) s'
  end.

Definition words (s : pystr) : list pystr := words_from [] s.

Fixpoint join_words (ws : list pystr) : pystr :=
  match ws with
  | [] => []
  | [w] => w
  | w :: ws' => w ++ SPACE :: join_words ws'
  end.

(** What follows a word: the end of the string or a space. *)
Definition word_end (r : pystr) : Prop := r = [] \/ exists r', r = SPACE :: r'.

(** The alternatives of the pattern are made of lower-case letters. *)
Definition letters_only (alt : pystr) : Prop :=
  Forall (fun p => is_lower p = true) alt.

(** The punctuation steps of [_canonicalize]: periods, commas and
    apostrophes removed, hyphens turned into spaces. *)
Definition punctuation_steps (s : pystr) : pystr :=
  replace_char 45 SPACE (remove_char 39 (remove_char 44 (remove_char 46 s))).

Definition lower_word (w : pystr) : pystr := List.map ascii_to_lower w.

Section SuffixWords.
Context `{UnicodeData}.

Fixpoint ci_eq (alt w : pystr) : bool :=
  match alt, w with
  | [], [] => true
  | p :: alt', c :: w' => ci_match p c && ci_eq alt' w'
  | _, _ => false
  end.

Definition is_suffix_word (w : pystr) : bool :=
  List.existsb (fun alt => ci_eq alt w) SUFFIXES.

(** The character before the position once [l] has been read. *)
Definition last_seen (before : option N) (l : pystr) : option N :=
  List.fold_left (fun _ c => Some c) l before.

End SuffixWords.

(** A fragment of the character database, to run the canonicaliser on
    examples: the decomposition of the Latin-1 letters with an acute,
    grave, circumflex, tilde or diaeresis accent or a cedilla, the
    combining marks U+0300..U+036F, and the Latin-1 letters. *)
Definition latin_base (c : N) : option (N * N) :=
  let tbl : list (N * (N * N)) :=
    [ (192, (65, 768)); (193, (65, 769)); (194, (65, 770)); (195, (65, 771));
      (196, (65, 776)); (199, (67, 807)); (200, (69, 768)); (201, (69, 769));
      (202, (69, 770)); (203, (69, 776)); (204, (73, 768)); (205, (73, 769));
      (206, (73, 770)); (207, (73, 776)); (209, (78, 771)); (210, (79, 768));
      (211, (79, 769)); (212, (79, 770)); (213, (79, 771)); (214, (79, 776));
      (217, (85, 768)); (218, (85, 769)); (219, (85, 770)); (220, (85, 776));
      (221, (89, 769)); (224, (97, 768)); (225, (97, 769)); (226, (97, 770));
      (227, (97, 771)); (228, (97, 776)); (231, (99, 807)); (232, (101, 768));
      (233, (101, 769)); (234, (101, 770)); (235, (101, 776));
      (236, (105, 768)); (237, (105, 769)); (238, (105, 770));
      (239, (105, 776)); (241, (110, 771)); (242, (111, 768));
      (243, (111, 769)); (244, (111, 770)); (245, (111, 771));
      (246, (111, 776)); (249, (117, 768)); (250, (117, 769));
      (251, (117, 770)); (252, (117, 776)); (253, (121, 769));
      (255, (121, 776)) ] in
  match List.find (fun e => fst e =? c) tbl with
  | Some e => Some (snd e)
  | None => None
  end.

Definition latin_unicode : UnicodeData :=
  {| decomposition := fun c =>
       match latin_base c with
       | Some (b, m) => [b; m]
       | None => [c]
       end;
     combining := fun c =>
       if (768 <=? c) && (c <=? 879) then
         (if c =? 807 then 202 else 230)
       else 0;
     isalnum := fun c =>
       (192 <=? c) && (c <=? 255) && negb (c =? 215) && negb (c =? 247);
     unicode_lower := fun s =>
       List.map (fun c =>
         if is_ascii c then ascii_to_lower c
         else if (192 <=? c) && (c <=? 222) && negb (c =? 215) then c + 32
         else c) s |}.

Local Close Scope N_scope.

(** ** Outcomes of code that may raise *)

Inductive exn : Type :=
  | RuntimeError
  | KeyError
  | AttributeError
  | ValueError
  | RequestException.

Inductive outcome (A : Type) : Type :=
  | Return (a : A)
  | Raise (e : exn).
Arguments Return {A} a.
Arguments Raise {A} e.

(** ** pandas statistics

    [Series.median] and [Series.quantile] belong to pandas, not to this
    repository: they are parameters of the pricing engine. *)

Class Pandas : Type := {
  median : list float -> float;
  quantile : list float -> float -> float
}.

(* --------------------------------------------------------------------- *)
(** ** process_arbitrage.py                                               *)
(* --------------------------------------------------------------------- *)

Inductive PickBucket : Type :=
  | B01_05 | B06_10 | B11_20 | B21_30 | B31_45 | B46_60.

#[global] Instance PickBucket_eq_dec : EqDecision PickBucket.
Proof. solve_decision. Defined.

Definition bucket_label (b : PickBucket) : string :=
  match b with
  | B01_05 => "01-05" | B06_10 => "06-10" | B11_20 => "11-20"
  | B21_30 => "21-30" | B31_45 => "31-45" | B46_60 => "46-60"
  end.

Definition ORDER : list PickBucket :=
  [B01_05; B06_10; B11_20; B21_30; B31_45; B46_60].

(** The pick slots a bucket's label names: first and last slot. *)
Definition bucket_range (b : PickBucket) : Z * Z :=
  match b with
  | B01_05 => (1, 5) | B06_10 => (6, 10) | B11_20 => (11, 20)
  | B21_30 => (21, 30) | B31_45 => (31, 45) | B46_60 => (46, 60)
  end.

Definition in_bucket (b : PickBucket) (slot : Z) : bool :=
  (fst (bucket_range b) <=? slot) && (slot <=? snd (bucket_range b)).

Definition assign_bucket (slot : Z) : PickBucket :=
  if (1 <=? slot) && (slot <=? 5) then B01_05
  else if (6 <=? slot) && (slot <=? 10) then B06_10
  else if (11 <=? slot) && (slot <=? 20) then B11_20
  else if (21 <=? slot) && (slot <=? 30) then B21_30
  else if (31 <=? slot) && (slot <=? 45) then B31_45
  else B46_60.

(** A row of [salary_market_raw.csv], and the same row once priced. *)
Record MarketRow : Type := {
  mk_canonical_name : pystr;
  mk_season_end : Z;
  mk_salary : float;
  mk_war : float
}.

Record PricedRow : Type := {
  pr_canonical_name : pystr;
  pr_season_end : Z;
  pr_salary : float;
  pr_war : float;
  dollars_per_war : float
}.

Record Band : Type := { q25 : float; q50 : float; q75 : float }.

(** [x > 0] on a float column: false on NaN. *)
Definition fpos (x : float) : bool := (0 <? x)%float.

Definition price (r : MarketRow) : PricedRow :=
  {| pr_canonical_name := mk_canonical_name r;
     pr_season_end := mk_season_end r;
     pr_salary := mk_salary r;
     pr_war := mk_war r;
     dollars_per_war := (mk_salary r / mk_war r)%float |}.

(** [DataFrame.replace([inf, -inf], nan)] on one float cell. *)
Definition inf_to_nan (x : float) : float :=
  if is_infinity x then nan else x.

Definition replace_inf (r : PricedRow) : PricedRow :=
  {| pr_canonical_name := pr_canonical_name r;
     pr_season_end := pr_season_end r;
     pr_salary := inf_to_nan (pr_salary r);
     pr_war := inf_to_nan (pr_war r);
     dollars_per_war := inf_to_nan (dollars_per_war r) |}.

(** [dropna(subset=["dollars_per_war"])]. *)
Definition dropna_dollars (rows : list PricedRow) : list PricedRow :=
  List.filter (fun r => negb (is_nan (dollars_per_war r))) rows.

Section Pricing.
Context `{Pandas}.

Definition compute_band (market : list PricedRow) : Band :=
  let col := List.map dollars_per_war market in
  {| q25 := quantile col 0.25;
     q50 := quantile col 0.5;
     q75 := quantile col 0.75 |}.

(** [prepare_salary_pricing]: the prepared market it returns, and the
    band it writes to [salary_price_band_overall.csv]. *)
Definition prepare_salary_pricing (raw : list MarketRow)
  : list PricedRow * Band :=
  let market :=
    List.filter (fun r => fpos (mk_salary r) && fpos (mk_war r)) raw in
  let market := List.map price market in
  let market := dropna_dollars (List.map replace_inf market) in
  (market, compute_band market).
End Pricing.

(** A row of [pick_outcomes_first4.csv]. *)
Record PickOutcome : Type := {
  draft_year : Z;
  pick : Z;
  po_player_slug : pystr;
  po_player_name : pystr;
  po_canonical_name : pystr;
  war_first4 : float;
  cost_first4 : float
}.

(** A row of [pick_costs_prepared.csv]: the outcome and three new columns. *)
Record PickCost : Type := {
  outcome_of : PickOutcome;
  bucket : PickBucket;
  cost_per_war_per_season : float;
  war_per_season : float
}.

Definition pick_cost (p : PickOutcome) : PickCost :=
  {| outcome_of := p;
     bucket := assign_bucket (pick p);
     cost_per_war_per_season := ((cost_first4 p / war_first4 p) / 4.0)%float;
     war_per_season := (war_first4 p / 4.0)%float |}.

Definition prepare_pick_costs (picks : list PickOutcome) : list PickCost :=
  List.map pick_cost (List.filter (fun p => fpos (war_first4 p)) picks).

Inductive Zone : Type := BUY | NEUTRAL | SELL.

Definition delta : float := 0.07.

(** The inner function [zone] of [build_bucket_table], on the row's
    [median] cell. *)
Definition zone (band : Band) (row_median : float) : Zone :=
  if (row_median <? q25 band * (1 - delta))%float then BUY
  else if (q75 band * (1 + delta) <? row_median)%float then SELL
  else NEUTRAL.

Record BucketRow : Type := {
  br_bucket : PickBucket;
  br_median : float;
  br_q25 : float;
  br_q75 : float;
  war_med : float;
  cost_med : float;
  market_q25 : float;
  market_q50 : float;
  market_q75 : float;
  arbitrage_zone : Zone;
  market_equiv_cost_4yr : float;
  surplus_4yr : float
}.

Section BucketTable.
Context `{Pandas}.

Definition group_of (picks : list PickCost) (b : PickBucket) : list PickCost :=
  List.filter (fun p => bool_decide (bucket p = b)) picks.

Definition bucket_row (band : Band) (b : PickBucket) (g : list PickCost)
  : BucketRow :=
  let med := median (List.map cost_per_war_per_season g) in
  let wmed := median (List.map (fun p => war_first4 (outcome_of p)) g) in
  let cmed := median (List.map (fun p => cost_first4 (outcome_of p)) g) in
  let mec := (wmed * q50 band)%float in
  {| br_bucket := b;
     br_median := med;
     br_q25 := quantile (List.map cost_per_war_per_season g) 0.25;
     br_q75 := quantile (List.map cost_per_war_per_season g) 0.75;
     war_med := wmed;
     cost_med := cmed;
     market_q25 := q25 band;
     market_q50 := q50 band;
     market_q75 := q75 band;
     arbitrage_zone := zone band med;
     market_equiv_cost_4yr := mec;
     surplus_4yr := (mec - cmed)%float |}.

(** [groupby("bucket")] yields one row per bucket that occurs, in the
    sorted order of the labels, which is [ORDER]. *)
Definition build_bucket_table (picks : list PickCost) (band : Band)
  : list BucketRow :=
  List.map (fun b => bucket_row band b (group_of picks b))
    (List.filter (fun b => negb (bool_decide (group_of picks b = []))) ORDER).
End BucketTable.

Definition zone_rank (z : Zone) : Z :=
  match z with BUY => 0 | NEUTRAL => 1 | SELL => 2 end.


(* --------------------------------------------------------------------- *)
(** ** build_data.py: the rookie-window join                              *)
(* --------------------------------------------------------------------- *)

(** A row of the war table ([load_war_data]). *)
Record WarRecord : Type := {
  w_player_slug : pystr;
  w_player_name : pystr;
  w_canonical_name : pystr;
  w_season_end : Z;
  w_war : float
}.

(** A row of the cleaned salary table ([load_salary_data]). *)
Record SalaryRecord : Type := {
  s_canonical_name : pystr;
  s_season_end : Z;
  s_salary : float
}.

(** A row of the draft table ([build_draft_data]). *)
Record DraftRow : Type := {
  d_season_end : Z;
  d_pick : Z;
  d_team : pystr;
  d_player_name : pystr;
  d_player_slug : pystr;
  d_canonical_name : pystr
}.

(** [Series.to_dict()]: rows are entered in order, so of two rows with the
    same key the later one stays. *)
Definition to_dict {K V : Type} `{Countable K} (items : list (K * V))
  : gmap K V :=
  List.fold_left (fun d kv => <[kv.1 := kv.2]> d) items ∅.

(** [d.get(k, default)]. *)
Definition dict_get {K V : Type} `{Countable K}
    (d : gmap K V) (k : K) (default : V) : V :=
  match d !! k with
  | Some v => v
  | None => default
  end.

(** [range(a, b)]. *)
Definition py_range (a b : Z) : list Z :=
  List.map (fun i => a + Z.of_nat i) (List.seq 0 (Z.to_nat (b - a))).

Definition war_lookup (war : list WarRecord) : gmap (pystr * Z) float :=
  to_dict (List.map (fun w => ((w_player_slug w, w_season_end w), w_war w)) war).

Definition salary_lookup (salary : list SalaryRecord)
  : gmap (pystr * Z) float :=
  to_dict (List.map (fun r => ((s_canonical_name r, s_season_end r), s_salary r))
             salary).

(** The body of the loop over the rookie seasons, on the pair
    [(war_sum, cost_sum)]. *)
Definition add_season (wl sl : gmap (pystr * Z) float) (slug canonical : pystr)
    (sums : float * float) (season_end : Z) : float * float :=
  ((sums.1 + dict_get wl (slug, season_end) 0.0)%float,
   (sums.2 + dict_get sl (canonical, season_end) 0.0)%float).

Definition pick_outcome (wl sl : gmap (pystr * Z) float) (rookie_years : Z)
    (pk : DraftRow) : PickOutcome :=
  let slug := d_player_slug pk in
  let canonical := d_canonical_name pk in
  let draft_year := d_season_end pk in
  let sums :=
    List.fold_left (add_season wl sl slug canonical)
      (py_range (draft_year + 1) (draft_year + 1 + rookie_years))
      (0.0%float, 0.0%float) in
  {| draft_year := draft_year;
     pick := d_pick pk;
     po_player_slug := slug;
     po_player_name := d_player_name pk;
     po_canonical_name := canonical;
     war_first4 := sums.1;
     cost_first4 := sums.2 |}.

Definition build_pick_outcomes (draft : list DraftRow) (war : list WarRecord)
    (salary : list SalaryRecord) (rookie_years : Z) : list PickOutcome :=
  let wl := war_lookup war in
  let sl := salary_lookup salary in
  List.map (pick_outcome wl sl rookie_years) draft.

(** The seasons of the rookie window, [Y + 1] to [Y + N], and a float sum
    taken from the left, starting at [0.0]. *)
Definition rookie_window (Y N : Z) : list Z :=
  List.map (fun i => Y + Z.of_nat i) (List.seq 1 (Z.to_nat N)).

Definition fsum (l : list float) : float :=
  List.fold_left (fun acc x => (acc + x)%float) l 0.0%float.

Definition example_draft : list DraftRow :=
  [ {| d_season_end := 2016; d_pick := 1; d_team := str "PHI";
       d_player_name := str "Ben Simmons"; d_player_slug := str "simmobe01";
       d_canonical_name := str "ben simmons" |} ].

Definition example_war : list WarRecord :=
  [ {| w_player_slug := str "simmobe01"; w_player_name := str "Ben Simmons";
       w_canonical_name := str "ben simmons"; w_season_end := 2018;
       w_war := 8.5 |};
    {| w_player_slug := str "simmobe01"; w_player_name := str "Ben Simmons";
       w_canonical_name := str "ben simmons"; w_season_end := 2019;
       w_war := 7.25 |} ].

Definition example_salary : list SalaryRecord :=
  [ {| s_canonical_name := str "ben simmons"; s_season_end := 2017;
       s_salary := 5903160 |};
    {| s_canonical_name := str "ben simmons"; s_season_end := 2018;
       s_salary := 6168840 |} ].

(* --------------------------------------------------------------------- *)
(** ** bbr_draft.py and [build_draft_data]                                *)
(* --------------------------------------------------------------------- *)

Definition bind {A B : Type} (x : outcome A) (f : A -> outcome B) : outcome B :=
  match x with
  | Return a => f a
  | Raise e => Raise e
  end.

Notation "'let*' x ':=' c 'in' k" := (bind c (fun x => k))
  (at level 10, x name, c at level 100, k at level 200).

(** What the parser shows of a draft page. The text of the pick cell is
    kept as what the code asks of it: [isdigit()] false, or true with the
    value [int()] gives, or true on digits [int()] refuses. *)
Inductive PickText : Type :=
  | NotDigits
  | Digits (n : Z)
  | UnparsedDigits.

(** [player_href] is [None] without an [<a>], [Some None] for an [<a>]
    without [href]. *)
Record PlayerCell : Type := {
  player_text : pystr;
  player_href : option (option pystr)
}.

Record Tr : Type := {
  tr_thead : bool;
  tr_pick : option PickText;
  tr_player : option PlayerCell;
  tr_team : option pystr
}.

Record Table : Type := { tbody : option (list Tr) }.

(** [stats_table] is [soup.find("table", id="stats")]. *)
Record Page : Type := { stats_table : option Table }.

(** One [requests.get]: it raises, or it answers with a status and a
    page. *)
Inductive http_outcome : Type :=
  | ConnectionFailed
  | Responded (status : Z) (page : Page).

(** [response.ok]. *)
Definition status_ok (status : Z) : bool :=
  negb ((400 <=? status) && (status <? 600)).

(** [min(a, b)] of Python on floats. *)
Definition py_min (a b : float) : float := if (b <? a)%float then b else a.

(** The loop of [_request_with_retry]: [fuel] attempts are left, [attempt]
    numbers the next [get]; the result comes with the delays slept. *)
Fixpoint request_attempts (fuel attempt : nat) (delay backoff : float)
    (get : nat -> http_outcome) : list float * outcome (option Page) :=
  match fuel with
  | O => ([], Return None)
  | S fuel' =>
    match get attempt with
    | ConnectionFailed => ([delay], Raise RequestException)
    | Responded status page =>
      if status =? 429 then
        let rest := request_attempts fuel' (S attempt)
                      (py_min (delay * backoff) 8.0) backoff get in
        (delay :: fst rest, snd rest)
      else if status_ok status then ([delay], Return (Some page))
      else
        let rest := request_attempts fuel' (S attempt)
                      (py_min (delay * backoff) 8.0) backoff get in
        (delay :: fst rest, snd rest)
    end
  end.

Definition _request_with_retry (get : nat -> http_outcome)
  : list float * outcome (option Page) :=
  request_attempts 6 0 1.5 1.5 get.

(** A row of a draft class, and a frame of them with its column labels. *)
Record DraftPick : Type := {
  dp_season_end : Z;
  dp_pick : Z;
  dp_team : pystr;
  dp_player_name : pystr;
  dp_player_slug : pystr
}.

Record DraftFrame : Type := {
  df_columns : list string;
  df_rows : list DraftPick
}.

Definition DRAFT_COLUMNS : list string :=
  ["season_end"; "pick"; "team"; "player_name"; "player_slug"]%string.

(** [pd.DataFrame(columns=[...])]: no row, the five columns. *)
Definition empty_draft_frame : DraftFrame :=
  {| df_columns := DRAFT_COLUMNS; df_rows := [] |}.

(** [pd.DataFrame(rows)] on a list of dicts: the columns are the keys of
    the dicts, so there is none when the list is empty. *)
Definition frame_of_rows (rows : list DraftPick) : DraftFrame :=
  {| df_columns := match rows with [] => [] | _ => DRAFT_COLUMNS end;
     df_rows := rows |}.

(** [s.split(sep)[-1]] for a one-character [sep]. *)
Definition last_segment (sep : N) (s : pystr) : pystr :=
  List.fold_left (fun acc c => if N.eqb c sep then [] else acc ++ [c]) s [].

Fixpoint starts_with (pat s : pystr) : bool :=
  match pat, s with
  | [], _ => true
  | p :: pat', c :: s' => N.eqb p c && starts_with pat' s'
  | _ :: _, [] => false
  end.

(** [s.replace(pat, "")] for a non-empty [pat]; [skip] counts the
    characters of an occurrence still to be dropped. *)
Fixpoint remove_substring (pat : pystr) (skip : nat) (s : pystr) : pystr :=
  match s with
  | [] => []
  | c :: s' =>
    match skip with
    | S k => remove_substring pat k s'
    | O =>
      if starts_with pat s then remove_substring pat (List.length pat - 1) s'
      else c :: remove_substring pat O s'
    end
  end.

Definition slug_of_href (href : pystr) : pystr :=
  remove_substring (str ".html") O (last_segment 47%N href).

(** One [<tr>] of the table body: skipped ([None]), a row, or an
    exception. *)
Definition parse_tr (season_end : Z) (tr : Tr) : outcome (option DraftPick) :=
  if tr_thead tr then Return None
  else
    match tr_pick tr, tr_player tr with
    | None, _ | _, None => Return None
    | Some NotDigits, Some _ => Return None
    | Some pick_text, Some player_cell =>
      match player_href player_cell with
      | None => Return None
      | Some None => Raise KeyError
      | Some (Some href) =>
        let slug := slug_of_href href in
        match pick_text with
        | Digits n =>
          Return (Some {| dp_season_end := season_end;
                          dp_pick := n;
                          dp_team := match tr_team tr with
                                     | Some t => t
                                     | None => []
                                     end;
                          dp_player_name := player_text player_cell;
                          dp_player_slug := slug |})
        | _ => Raise ValueError
        end
      end
    end.

Fixpoint parse_rows (season_end : Z) (trs : list Tr)
  : outcome (list DraftPick) :=
  match trs with
  | [] => Return []
  | tr :: trs' =>
    let* row := parse_tr season_end tr in
    let* rows := parse_rows season_end trs' in
    Return (match row with Some r => r :: rows | None => rows end)
  end.

(** [fetch_draft_class(season_end)], against the answers [get] gives to
    the successive requests for that season's page. *)
Definition fetch_draft_class (season_end : Z) (get : nat -> http_outcome)
  : outcome DraftFrame :=
  let* response := snd (_request_with_retry get) in
  match response with
  | None => Return empty_draft_frame
  | Some page =>
    match stats_table page with
    | None => Return empty_draft_frame
    | Some table =>
      match tbody table with
      | None => Raise AttributeError
      | Some trs =>
        let* rows := parse_rows season_end trs in
        Return (frame_of_rows rows)
      end
    end
  end.

(** [pd.concat(frames, ignore_index=True)]: the rows in order, under the
    union of the columns. *)
Definition union_columns (a b : list string) : list string :=
  a ++ List.filter (fun c => negb (List.existsb (String.eqb c) a)) b.

Definition concat_frames (frames : list DraftFrame) : DraftFrame :=
  {| df_columns := List.fold_left union_columns (List.map df_columns frames) [];
     df_rows := List.concat (List.map df_rows frames) |}.

Definition has_column (c : string) (df : DraftFrame) : bool :=
  List.existsb (String.eqb c) (df_columns df).

(** The loop of [build_draft_data] over the seasons: the frames appended
    and the seasons warned about. *)
Fixpoint fetch_seasons (seasons : list Z) (net : Z -> nat -> http_outcome)
  : list DraftFrame * list Z :=
  match seasons with
  | [] => ([], [])
  | season_end :: rest =>
    let r := fetch_seasons rest net in
    match fetch_draft_class season_end (net season_end) with
    | Return df => (df :: fst r, snd r)
    | Raise _ => (fst r, season_end :: snd r)
    end
  end.

Section BuildDraft.
Context `{UnicodeData}.

Definition draft_row (p : DraftPick) : DraftRow :=
  {| d_season_end := dp_season_end p;
     d_pick := dp_pick p;
     d_team := dp_team p;
     d_player_name := dp_player_name p;
     d_player_slug := dp_player_slug p;
     d_canonical_name := _canonicalize (PyStr (dp_player_name p)) |}.

(** [build_draft_data(start_draft_year, end_draft_year)]: the seasons
    warned about, and the draft table or the exception. *)
Definition build_draft_data (start_draft_year end_draft_year : Z)
    (net : Z -> nat -> http_outcome) : list Z * outcome (list DraftRow) :=
  let '(frames, warned) :=
    fetch_seasons (py_range start_draft_year (end_draft_year + 1)) net in
  (warned,
   match frames with
   | [] => Raise RuntimeError
   | _ =>
     let draft := concat_frames frames in
     if has_column "player_name" draft
     then Return (List.map draft_row (df_rows draft))
     else Raise KeyError
   end).

End BuildDraft.

(** Example pages and networks. *)
Definition example_tr (n : Z) (name href : string) : Tr :=
  {| tr_thead := false;
     tr_pick := Some (Digits n);
     tr_player := Some {| player_text := str name;
                          player_href := Some (Some (str href)) |};
     tr_team := Some (str "PHI") |}.

Definition page_2016 : Page :=
  {| stats_table := Some {| tbody := Some
       [ example_tr 1 "Ben Simmons" "/players/s/simmobe01.html";
         {| tr_thead := true; tr_pick := None; tr_player := None;
            tr_team := None |};
         example_tr 2 "Brandon Ingram" "/players/i/ingrabr01.html" ] |} |}.

(** A page whose stats table has a body and no pick row. *)
Definition page_without_picks : Page :=
  {| stats_table := Some {| tbody := Some
       [ {| tr_thead := true; tr_pick := None; tr_player := None;
            tr_team := None |} ] |} |}.

(** 2016 answers at once, 2017 is rate limited for ever, 2018 fails to
    connect, every other season serves a table without picks. *)
Definition example_net (season_end : Z) (attempt : nat) : http_outcome :=
  if season_end =? 2016 then Responded 200 page_2016
  else if season_end =? 2017 then Responded 429 {| stats_table := None |}
  else if season_end =? 2018 then ConnectionFailed
  else Responded 200 page_without_picks.

(* --------------------------------------------------------------------- *)
(** ** Vocabulary for the retry loop                                      *)
(* --------------------------------------------------------------------- *)

(** An answer after which [_request_with_retry] tries again: a 429, or
    any other status that is not [ok]. *)
Definition retried (o : http_outcome) : bool :=
  match o with
  | Responded status _ => (status =? 429) || negb (status_ok status)
  | ConnectionFailed => false
  end.

(** The delays the loop sleeps when it runs [fuel] times from [delay]. *)
Fixpoint backoff_schedule (fuel : nat) (delay backoff : float) : list float :=
  match fuel with
  | O => []
  | S fuel' =>
    delay :: backoff_schedule fuel' (py_min (delay * backoff) 8.0) backoff
  end.

(* --------------------------------------------------------------------- *)
(** ** Salary reconciliation: [groupby(...)["salary"].max()]              *)
(* --------------------------------------------------------------------- *)

(** The running maximum of a group, NaN cells skipped: a NaN stays only
    while no number has been seen. *)
Definition max_skipna (cur val : float) : float :=
  if is_nan cur then val
  else if is_nan val then cur
  else if (cur <? val)%float then val else cur.

Definition merge_max (cur : option float) (val : float) : float :=
  match cur with
  | None => val
  | Some c => max_skipna c val
  end.

(** One row entering its group. *)
Definition groupby_step {K : Type} `{Countable K}
    (m : gmap K float) (kv : K * float) : gmap K float :=
  <[kv.1 := merge_max (m !! kv.1) kv.2]> m.

(** [frame.groupby(keys, as_index=False)[col].max()], as the finite map
    from the key of a group to its maximum. The frame pandas returns has
    one row per key of this map, in the sorted order of the keys. *)
Definition groupby_max {K : Type} `{Countable K} (rows : list (K * float))
  : gmap K float :=
  List.fold_left groupby_step rows ∅.

(** Equality of two float cells as [DataFrame.equals] has it: [==], with
    NaN equal to NaN. *)
Definition feq (x y : float) : bool :=
  (x =? y)%float || (is_nan x && is_nan y).

Definition table_equiv {K : Type} `{Countable K} (m m' : gmap K float) : Prop :=
  forall k,
    match m !! k, m' !! k with
    | Some x, Some y => feq x y = true
    | None, None => True
    | _, _ => False
    end.

(** The cells of one group, in row order. *)
Definition group_values {K : Type} `{EqDecision K} (k : K)
    (rows : list (K * float)) : list float :=
  List.map snd (List.filter (fun kv => bool_decide (kv.1 = k)) rows).

(** [v] is a maximum of the cells [vs] with NaN skipped. *)
Definition is_max_of (v : float) (vs : list float) : Prop :=
  (is_nan v = true /\ forall x, In x vs -> is_nan x = true) \/
  (is_nan v = false /\ In v vs /\
   forall x, In x vs -> is_nan x = false -> (x <=? v)%float = true).

Definition is_neg_zero (x : float) : bool :=
  match Prim2SF x with S754_zero true => true | _ => false end.

(** A row of [player_salary.csv]; [c_canonical_name] is read only when the
    file has that column, and a cell of it may be empty (NaN). *)
Record SalaryCsvRow : Type := {
  c_player : pyval;
  c_canonical_name : pyval;
  c_season_end : Z;
  c_salary : float
}.

Record SalaryCsv : Type := {
  has_canonical_name : bool;
  csv_rows : list SalaryCsvRow
}.

(** [groupby] drops the rows whose key cell is NaN. *)
Definition key_cell (name : pyval) (season_end : Z) (salary : float)
  : option ((pystr * Z) * float) :=
  match name with
  | PyStr s => Some ((s, season_end), salary)
  | _ => None
  end.

Section LoadSalary.
Context `{UnicodeData}.

Definition salary_keyed_rows (csv : SalaryCsv) (start_season end_season : Z)
  : list ((pystr * Z) * float) :=
  let named r :=
    if has_canonical_name csv then c_canonical_name r
    else PyStr (_canonicalize (c_player r)) in
  let in_range r :=
    (start_season <=? c_season_end r) && (c_season_end r <=? end_season) in
  List.flat_map
    (fun r => match key_cell (named r) (c_season_end r) (c_salary r) with
              | Some kv => [kv]
              | None => []
              end)
    (List.filter in_range (csv_rows csv)).

Definition load_salary_data (csv : SalaryCsv) (start_season end_season : Z)
  : gmap (pystr * Z) float :=
  groupby_max (salary_keyed_rows csv start_season end_season).

End LoadSalary.

(** The frame [load_salary_data] returns, with its columns
    [canonical_name], [season_end] and [salary], read as an input frame. *)
Definition salary_frame (m : gmap (pystr * Z) float) : SalaryCsv :=
  {| has_canonical_name := true;
     csv_rows :=
       List.map (fun kv => {| c_player := PyNone;
                              c_canonical_name := PyStr kv.1.1;
                              c_season_end := kv.1.2;
                              c_salary := kv.2 |})
                (map_to_list m) |}.

(** The same frame as the table [main] hands to [build_salary_market] and
    [build_pick_outcomes]. *)
Definition salary_records (m : gmap (pystr * Z) float) : list SalaryRecord :=
  List.map (fun kv => {| s_canonical_name := kv.1.1;
                         s_season_end := kv.1.2;
                         s_salary := kv.2 |})
           (map_to_list m).

(* --------------------------------------------------------------------- *)
(** ** build_data.py: the salary market                                    *)
(* --------------------------------------------------------------------- *)

(** A row of the market: the columns of the war table, then [salary]. *)
Record JoinedRow : Type := {
  j_player_slug : pystr;
  j_player_name : pystr;
  j_canonical_name : pystr;
  j_season_end : Z;
  j_war : float;
  j_salary : float
}.

Definition joined (w : WarRecord) (s : SalaryRecord) : JoinedRow :=
  {| j_player_slug := w_player_slug w;
     j_player_name := w_player_name w;
     j_canonical_name := w_canonical_name w;
     j_season_end := w_season_end w;
     j_war := w_war w;
     j_salary := s_salary s |}.

(** The salary rows a war row is merged with: those with its
    [canonical_name] and its [season_end]. *)
Definition same_key (w : WarRecord) (s : SalaryRecord) : bool :=
  bool_decide (s_canonical_name s = w_canonical_name w) &&
  (s_season_end s =? w_season_end w).

(** [war.merge(salary, on=["canonical_name", "season_end"], how="inner")]:
    the rows of [war] in their order, each with every row of [salary] that
    has its key. *)
Definition merge_inner (war : list WarRecord) (salary : list SalaryRecord)
  : list JoinedRow :=
  List.flat_map (fun w => List.map (joined w) (List.filter (same_key w) salary))
    war.

Definition build_salary_market (war : list WarRecord)
    (salary : list SalaryRecord) : list JoinedRow :=
  List.filter (fun r => fpos (j_war r)) (merge_inner war salary).

(** A row of a RealGM team table. *)
Record TeamSalaryRow : Type := {
  t_player : pystr;
  t_season_end : Z;
  t_salary : float
}.

(** [fetch_league_salaries], on the frames of the teams whose fetch
    succeeded, in the order [as_completed] delivered them. *)
Definition fetch_league_salaries (frames : list (list TeamSalaryRow))
  : gmap (pystr * Z) float :=
  let league := List.concat frames in
  groupby_max (List.map (fun r => ((t_player r, t_season_end r), t_salary r))
                 league).

(* --------------------------------------------------------------------- *)
(** ** Salary cells: [_clean_money] and [_clean_salary]                    *)
(* --------------------------------------------------------------------- *)

(** What [float(...)] gives: a float, or one of the two exceptions it
    raises. *)
Inductive float_result : Type :=
  | FloatValue (x : float)
  | FloatValueError
  | FloatOverflowError.

(** [float_of_numeral s]: the value [float(s)] returns for a numeral [s],
    digits with at most one period among them. *)
Class FloatParser : Type := {
  float_of_numeral : pystr -> float
}.

(** [MONEY_RE.sub("", value)] with [MONEY_RE = re.compile(r"[^0-9.]")]. *)
Definition MONEY_RE_sub (value : pystr) : pystr :=
  List.filter (fun c => is_digit c || (c =? 46)%N) value.

(** The periods of a text. *)
Definition periods (s : pystr) : nat :=
  List.length (List.filter (fun c => (c =? 46)%N) s).

(** A text of digits and periods [float] accepts: one with a digit and at
    most one period. *)
Definition is_numeral (s : pystr) : bool :=
  List.existsb is_digit s && (periods s <=? 1)%nat.

(** [float(z)] on an [int]: the nearest float, ties to even, and
    [OverflowError] beyond the largest. *)
Definition float_of_int (z : Z) : float_result :=
  match binary_normalize prec emax z 0 false with
  | S754_infinity _ => FloatOverflowError
  | x => FloatValue (SF2Prim x)
  end.

Section CleanMoney.
Context `{FloatParser}.

(** [float(cleaned)] on what [MONEY_RE.sub] leaves. *)
Definition float_of_cleaned (cleaned : pystr) : float_result :=
  if is_numeral cleaned then FloatValue (float_of_numeral cleaned)
  else FloatValueError.

(** [_clean_money] of [build_salaries_realgm.py]. *)
Definition _clean_money (value : pyval) : float_result :=
  match value with
  | PyStr s =>
    match MONEY_RE_sub s with
    | [] => FloatValue 0.0
    | cleaned => float_of_cleaned cleaned
    end
  | PyFloat x => FloatValue (if (x =? 0)%float then 0.0%float else x)
  | PyInt z => if z =? 0 then FloatValue 0.0 else float_of_int z
  | PyNone => FloatValue 0.0
  end.

(** [_clean_salary] of [ingest_salaries_from_kaggle.py] has the same
    text. *)
Definition _clean_salary (value : pyval) : float_result := _clean_money value.

End CleanMoney.

(** A parser to run the examples: the digits of the numeral as an integer,
    divided by the power of ten of the digits after the period, rounded
    once. *)
Definition numeral_digits (s : pystr) : Z :=
  List.fold_left
    (fun acc c => if is_digit c then 10 * acc + (Z.of_N c - 48) else acc) s 0.

Fixpoint after_period (s : pystr) : pystr :=
  match s with
  | [] => []
  | c :: s' => if (c =? 46)%N then s' else after_period s'
  end.

Definition decimal_float : FloatParser :=
  {| float_of_numeral s :=
       match numeral_digits s with
       | Zpos n =>
           SF2Prim (SFdiv prec emax (S754_finite false n 0)
                      (S754_finite false
                         (Z.to_pos (10 ^ Z.of_nat (List.length (after_period s))))
                         0))
       | _ => 0.0%float
       end |}.

(* --------------------------------------------------------------------- *)
(** ** bbr_player_salaries.py: the season of a salary row                  *)
(* --------------------------------------------------------------------- *)

(** [int_of_str s]: the value of [int(s)], [None] when it raises
    [ValueError]. *)
Class IntParser : Type := {
  int_of_str : pystr -> option Z
}.

(** The number a string of ASCII digits denotes. *)
Definition decimal_value (s : pystr) : Z :=
  List.fold_left (fun acc c => 10 * acc + (Z.of_N c - 48)) s 0.

(** [s.split(sep)] for a one-character [sep]; [acc] is the part being
    read. *)
Fixpoint split_on (sep : N) (acc : pystr) (s : pystr) : list pystr :=
  match s with
  | [] => [acc]
  | c :: s' =>
    if (c =? sep)%N then acc :: split_on sep [] s'
    else split_on sep (acc ++ [c]) s'
  end.

Section SeasonToEnd.
Context `{IntParser}.

Definition py_int (s : pystr) : outcome Z :=
  match int_of_str s with
  | Some z => Return z
  | None => Raise ValueError
  end.

(** [season_to_end], the function [fetch_player_salaries] applies to the
    [Season] column; unpacking anything but two parts raises [ValueError]. *)
Definition season_to_end (season : pystr) : outcome Z :=
  match split_on 45 [] season with
  | [start; end_] =>
    let* start_year := py_int start in
    if (List.length end_ =? 4)%nat then py_int end_
    else py_int (List.firstn 2 start ++ end_)
  | _ => Raise ValueError
  end.

End SeasonToEnd.

(** A parser to run the examples: it reads strings of ASCII digits and
    refuses the others. *)
Definition ascii_int : IntParser :=
  {| int_of_str s :=
       match s with
       | [] => None
       | _ => if List.forallb is_digit s then Some (decimal_value s) else None
       end |}.

(** [_request_with_retry] of [bbr_player_salaries.py]: the loop of
    [bbr_draft.py] with its own first delay and factor. *)
Module PlayerSalaries.
Definition _request_with_retry (get : nat -> http_outcome)
  : list float * outcome (option Page) :=
  request_attempts 6 0 1.0 1.4 get.
End PlayerSalaries.

Definition example_salary_rows : list ((pystr * Z) * float) :=
  [ ((str "ben simmons", 2018), 6168840%float);
    ((str "joel embiid", 2018), 6100266%float);
    ((str "ben simmons", 2018), 6434520%float);
    ((str "joel embiid", 2018), nan) ].

(** ** Sign and class of a binary64 value, on its specification *)

(** A zero of either sign, a positive finite number or plus infinity. *)
Definition SFnonneg (x : spec_float) : bool :=
  match x with
  | S754_zero _ | S754_finite false _ _ | S754_infinity false => true
  | _ => false
  end.

Definition SFpositive (x : spec_float) : bool :=
  match x with
  | S754_finite false _ _ | S754_infinity false => true
  | _ => false
  end.

Definition SFis_inf (x : spec_float) : bool :=
  match x with S754_infinity _ => true | _ => false end.

Definition SFis_nan (x : spec_float) : bool :=
  match x with S754_nan => true | _ => false end.

Definition SFsigned (s : bool) (x : spec_float) : Prop :=
  match x with
  | S754_zero s' | S754_infinity s' | S754_finite s' _ _ => s' = s
  | S754_nan => False
  end.

(** ** A concrete pandas

    Order statistics with linear interpolation, NaN cells skipped. It is
    an instance to run the engine on examples; the properties below hold
    for every instance of [Pandas]. *)

Fixpoint insert_sorted (x : float) (l : list float) : list float :=
  match l with
  | [] => [x]
  | y :: l' => if (x <=? y)%float then x :: l else y :: insert_sorted x l'
  end.

Definition fsort (l : list float) : list float :=
  List.fold_right insert_sorted [] l.

Definition float_of_nat (n : nat) : float :=
  of_uint63 (Uint63.of_Z (Z.of_nat n)).

(** The position [h = (n - 1) * q] of the [q]-quantile among [n] sorted
    cells, as the index below it and the fraction above that index. *)
Definition quantile_position (n : nat) (q : float) : nat * float :=
  let h := (float_of_nat (n - 1) * q)%float in
  let lo := List.length
              (List.filter (fun i => (float_of_nat i <=? h)%float)
                           (List.seq 1 (n - 1))) in
  (lo, (h - float_of_nat lo)%float).

Definition interpolated_quantile (l : list float) (q : float) : float :=
  let s := fsort (List.filter (fun x => negb (is_nan x)) l) in
  match s with
  | [] => nan
  | _ =>
    let '(lo, frac) := quantile_position (List.length s) q in
    let a := List.nth lo s nan in
    match List.nth_error s (S lo) with
    | Some b => (a + (b - a) * frac)%float
    | None => a
    end
  end.

Definition textbook_pandas : Pandas :=
  {| median := fun l => interpolated_quantile l 0.5;
     quantile := interpolated_quantile |}.

(** ** Example data *)

Definition example_outcome (slot : Z) (war cost : float) : PickOutcome :=
  {| draft_year := 2016; pick := slot;
     po_player_slug := str "examp01"; po_player_name := str "Example Player";
     po_canonical_name := str "example player";
     war_first4 := war; cost_first4 := cost |}.

Definition example_outcomes : list PickOutcome :=
  [ example_outcome 1 4.0 16000000;
    example_outcome 3 2.0 16000000;
    example_outcome 5 8.0 96000000;
    example_outcome 40 1.0 0;
    example_outcome 12 (-1.5) 9000000 ].

Definition example_band : Band :=
  {| q25 := 3000000; q50 := 4000000; q75 := 5000000 |}.

Definition example_market : list MarketRow :=
  [ {| mk_canonical_name := str "a"; mk_season_end := 2018;
       mk_salary := 9000000; mk_war := 3.0 |};
    {| mk_canonical_name := str "b"; mk_season_end := 2018;
       mk_salary := 1e308; mk_war := 1e-10 |};
    {| mk_canonical_name := str "c"; mk_season_end := 2019;
       mk_salary := 5000000; mk_war := 0 |};
    {| mk_canonical_name := str "d"; mk_season_end := 2019;
       mk_salary := 0; mk_war := 2.0 |};
    {| mk_canonical_name := str "e"; mk_season_end := 2019;
       mk_salary := 8000000; mk_war := 2.0 |} ].

(* ===================================================================== *)
(** * Part II. Properties                                                 *)
(* ===================================================================== *)

(** ** Order facts about binary64 comparisons *)

Ltac sf_cases :=
  repeat match goal with
  | |- context [Z.compare ?a ?b] => destruct (Z.compare_spec a b)
  | |- context [Pos.compare_cont Eq ?a ?b] =>
      change (Pos.compare_cont Eq a b) with (Pos.compare a b);
      destruct (Pos.compare_spec a b)
  | H : context [Z.compare ?a ?b] |- _ => destruct (Z.compare_spec a b)
  | H : context [Pos.compare_cont Eq ?a ?b] |- _ =>
      change (Pos.compare_cont Eq a b) with (Pos.compare a b) in H;
      destruct (Pos.compare_spec a b)
  end.

Ltac sf_order :=
  unfold SFleb, SFltb, SFeqb, SFcompare;
  repeat match goal with
  | x : spec_float |- _ => destruct x as [[]|[]| |[] ? ?]
  end;
  try congruence; try reflexivity;
  intros; sf_cases; subst; simpl in *; try congruence; try lia.

Lemma SFleb_ltb_trans a b c :
  SFleb a b = true -> SFltb b c = true -> SFltb a c = true.
Proof. sf_order. Qed.

Lemma SFltb_leb_trans a b c :
  SFltb a b = true -> SFleb b c = true -> SFltb a c = true.
Proof. sf_order. Qed.

Lemma leb_ltb_trans (a b c : float) :
  (a <=? b)%float = true -> (b <? c)%float = true -> (a <? c)%float = true.
Proof. rewrite leb_spec, !ltb_spec. apply SFleb_ltb_trans. Qed.

Lemma ltb_leb_trans (a b c : float) :
  (a <? b)%float = true -> (b <=? c)%float = true -> (a <? c)%float = true.
Proof. rewrite leb_spec, !ltb_spec. apply SFltb_leb_trans. Qed.

(** ** Bucket assignment *)

Lemma in_bucket_spec b slot :
  in_bucket b slot = true <->
  fst (bucket_range b) <= slot <= snd (bucket_range b).
Proof. unfold in_bucket. rewrite andb_true_iff, !Z.leb_le. tauto. Qed.

Lemma assign_bucket_in_range slot :
  1 <= slot <= 60 -> in_bucket (assign_bucket slot) slot = true.
Proof.
  intros Hs. unfold assign_bucket.
  repeat match goal with
  | |- context [if ?c then _ else _] => destruct c eqn:?
  end; apply in_bucket_spec; simpl; lia.
Qed.

Lemma in_bucket_unique b1 b2 slot :
  in_bucket b1 slot = true -> in_bucket b2 slot = true -> b1 = b2.
Proof.
  rewrite !in_bucket_spec. destruct b1, b2; simpl; intros; (reflexivity || lia).
Qed.

(** C3. [assign_bucket] is total; on 1..60 it returns the one bucket whose
    range holds the slot; the six ranges are pairwise disjoint and cover
    exactly 1..60; every slot outside 1..60 goes to the last bucket. *)
Theorem assign_bucket_partition :
  (forall slot, 1 <= slot <= 60 ->
     In (assign_bucket slot) ORDER /\
     forall b, in_bucket b slot = true <-> assign_bucket slot = b) /\
  (forall b1 b2 slot,
     in_bucket b1 slot = true -> in_bucket b2 slot = true -> b1 = b2) /\
  (forall slot, (exists b, in_bucket b slot = true) <-> 1 <= slot <= 60) /\
  (forall slot, ~ (1 <= slot <= 60) -> assign_bucket slot = B46_60).
Proof.
  split; [|split; [|split]].
  - intros slot Hs. split.
    + unfold ORDER. destruct (assign_bucket slot); simpl; tauto.
    + intros b. split.
      * intros Hb. eapply in_bucket_unique; [apply assign_bucket_in_range|]; eauto.
      * intros <-. now apply assign_bucket_in_range.
  - apply in_bucket_unique.
  - intros slot. split.
    + intros [b Hb]. apply in_bucket_spec in Hb. destruct b; simpl in Hb; lia.
    + intros Hs. exists (assign_bucket slot). now apply assign_bucket_in_range.
  - intros slot Hs. unfold assign_bucket.
    repeat match goal with
    | |- context [if ?c then _ else _] => destruct c eqn:?
    end; try reflexivity; exfalso; apply Hs; lia.
Qed.

Lemma assign_bucket_partition_witness :
  In (assign_bucket 17) ORDER /\ assign_bucket 17 = B11_20 /\
  assign_bucket 61 = B46_60 /\ assign_bucket 0 = B46_60.
Proof.
  destruct assign_bucket_partition as (H1 & _ & _ & H4).
  destruct (H1 17 ltac:(lia)) as [Hin Hiff].
  split; [exact Hin|]. split; [reflexivity|].
  split; apply H4; lia.
Defined.

(** ** Sign and class of binary64 values *)

Lemma Prim2SF_zero : Prim2SF 0 = S754_zero false.
Proof. reflexivity. Qed.

Lemma leb_zero_spec x : (0 <=? x)%float = SFnonneg (Prim2SF x).
Proof.
  rewrite FloatAxioms.leb_spec, Prim2SF_zero.
  destruct (Prim2SF x) as [[]|[]| |[] ? ?]; reflexivity.
Qed.

Lemma ltb_zero_spec x : (0 <? x)%float = SFpositive (Prim2SF x).
Proof.
  rewrite FloatAxioms.ltb_spec, Prim2SF_zero.
  destruct (Prim2SF x) as [[]|[]| |[] ? ?]; reflexivity.
Qed.

Lemma SFeqb_refl x : SFeqb x x = negb (SFis_nan x).
Proof.
  destruct x as [[]|[]| |[] m e]; try reflexivity;
  unfold SFeqb, SFcompare; rewrite Z.compare_refl;
  rewrite Pos.compare_cont_refl; reflexivity.
Qed.

Lemma is_nan_spec x : is_nan x = SFis_nan (Prim2SF x).
Proof.
  unfold is_nan. rewrite FloatAxioms.eqb_spec, SFeqb_refl.
  apply negb_involutive.
Qed.

Lemma is_infinity_spec x : is_infinity x = SFis_inf (Prim2SF x).
Proof.
  unfold is_infinity. rewrite FloatAxioms.eqb_spec, abs_spec.
  change (Prim2SF infinity) with (S754_infinity false).
  destruct (Prim2SF x) as [[]|[]| |[] ? ?]; reflexivity.
Qed.

(** Rounding a non-negative mantissa keeps the sign and never gives NaN. *)
Lemma shr_1_nonneg mrs : 0 <= shr_m mrs -> 0 <= shr_m (shr_1 mrs).
Proof. destruct mrs as [[|[p|p|]|[p|p|]] r s]; simpl; lia. Qed.

Lemma iter_shr_1_nonneg p : forall mrs,
  0 <= shr_m mrs -> 0 <= shr_m (SpecFloat.iter_pos shr_1 p mrs).
Proof.
  induction p as [p IH|p IH|]; intros mrs Hm; simpl.
  - apply IH, IH, shr_1_nonneg, Hm.
  - apply IH, IH, Hm.
  - apply shr_1_nonneg, Hm.
Qed.

Lemma shr_fexp_nonneg m e l :
  0 <= m -> 0 <= shr_m (fst (shr_fexp prec emax m e l)).
Proof.
  intros Hm. unfold shr_fexp, shr.
  assert (H0 : 0 <= shr_m (shr_record_of_loc m l))
    by (destruct l as [|[]]; exact Hm).
  destruct (_ - e); simpl; auto using iter_shr_1_nonneg.
Qed.

Lemma round_nearest_even_nonneg m l : 0 <= m -> 0 <= round_nearest_even m l.
Proof.
  intros Hm. destruct l as [|[]]; simpl; try lia.
  destruct (Z.even m); lia.
Qed.

Lemma binary_round_aux_signed s m e l :
  0 <= m -> SFsigned s (binary_round_aux prec emax s m e l).
Proof.
  intros Hm. unfold binary_round_aux.
  pose proof (shr_fexp_nonneg m e l Hm) as H1.
  destruct (shr_fexp prec emax m e l) as [mrs' e'] eqn:E1. simpl in H1.
  pose proof (shr_fexp_nonneg _ e' loc_Exact
                (round_nearest_even_nonneg _ (loc_of_shr_record mrs') H1)) as H2.
  destruct (shr_fexp prec emax _ e' loc_Exact) as [mrs'' e''] eqn:E2.
  simpl in H2.
  destruct (shr_m mrs'') as [|p|p]; simpl; try reflexivity; try lia.
  destruct (e'' <=? emax - prec); reflexivity.
Qed.

Lemma SFdiv_core_nonneg m1 e1 m2 e2 :
  0 <= fst (fst (SFdiv_core_binary prec emax (Zpos m1) e1 (Zpos m2) e2)).
Proof.
  unfold SFdiv_core_binary.
  set (s := _ - _ - _).
  set (m' := match s with Z0 => _ | Zpos _ => _ | Zneg _ => _ end).
  assert (Hm' : 0 <= m').
  { subst m'. destruct s; try lia. apply Z.shiftl_nonneg. lia. }
  pose proof (Z.div_pos m' (Zpos m2) Hm' ltac:(lia)) as Hq.
  unfold Z.div in Hq.
  destruct (Z.div_eucl m' (Zpos m2)) as [q r]. simpl in *. exact Hq.
Qed.

(** A non-negative float divided by a positive one is non-negative, unless
    both are infinite (the quotient is then NaN). *)
Lemma SFdiv_nonneg x y :
  SFnonneg x = true -> SFpositive y = true ->
  SFis_inf x && SFis_inf y = false ->
  SFnonneg (SF64div x y) = true.
Proof.
  destruct x as [[]|[]| |[] mx ex], y as [[]|[]| |[] my ey];
    simpl; try congruence; try reflexivity.
  intros _ _ _. unfold SF64div, SFdiv.
  pose proof (SFdiv_core_nonneg mx ex my ey) as Hq.
  destruct (SFdiv_core_binary _ _ _ _ _ _) as [[mz ez] lz]. simpl in Hq.
  pose proof (binary_round_aux_signed (xorb false false) mz ez lz Hq) as Hs.
  simpl in Hs.
  destruct (binary_round_aux _ _ _ _ _ _) as [[]|[]| |[] ? ?];
    simpl in *; congruence || contradiction.
Qed.

Lemma div_nonneg (x y : float) :
  (0 <=? x)%float = true -> (0 <? y)%float = true ->
  is_infinity x && is_infinity y = false ->
  (0 <=? x / y)%float = true.
Proof.
  rewrite !leb_zero_spec, ltb_zero_spec, !is_infinity_spec, div_spec.
  apply SFdiv_nonneg.
Qed.


(** ** The bucket table: zone and surplus *)

Lemma in_build_bucket_table `{Pandas} picks band row :
  In row (build_bucket_table picks band) ->
  group_of picks (br_bucket row) <> [] /\
  row = bucket_row band (br_bucket row) (group_of picks (br_bucket row)).
Proof.
  unfold build_bucket_table. rewrite in_map_iff.
  intros (b & <- & Hb). apply filter_In in Hb as [_ Hb]. simpl.
  apply negb_true_iff, bool_decide_eq_false in Hb. split; [exact Hb|reflexivity].
Qed.

Lemma row_zone `{Pandas} picks band row :
  In row (build_bucket_table picks band) ->
  arbitrage_zone row = zone band (br_median row).
Proof.
  intros Hin. apply in_build_bucket_table in Hin as [_ Hrow].
  rewrite Hrow. reflexivity.
Qed.

Lemma zone_BUY band m :
  zone band m = BUY <-> (m <? q25 band * (1 - delta))%float = true.
Proof.
  unfold zone. destruct (m <? _)%float; [tauto|].
  destruct (_ <? m)%float; split; congruence.
Qed.

Lemma zone_SELL band m :
  zone band m = SELL <->
  (m <? q25 band * (1 - delta))%float = false /\
  (q75 band * (1 + delta) <? m)%float = true.
Proof.
  unfold zone. destruct (m <? _)%float; [split; [congruence|intros []; congruence]|].
  destruct (_ <? m)%float; split; try tauto; try congruence. intros []; congruence.
Qed.

Lemma zone_NEUTRAL band m :
  zone band m = NEUTRAL <->
  (m <? q25 band * (1 - delta))%float = false /\
  (q75 band * (1 + delta) <? m)%float = false.
Proof.
  unfold zone. destruct (m <? _)%float; [split; [congruence|intros []; congruence]|].
  destruct (_ <? m)%float; split; try tauto; try congruence. intros []; congruence.
Qed.

(** C2. Every row of the bucket table is BUY when its median
    cost-per-war-per-season is below [band.q25 * (1 - 0.07)], otherwise
    SELL when it is above [band.q75 * (1 + 0.07)], otherwise NEUTRAL; its
    market-equivalent cost is the median war times [band.q50] and its
    surplus is that cost minus the median cost. A bucket whose median is
    2.0M under the band 3.0M / 4.0M / 5.0M is BUY, with surplus
    [war_med * 4.0M - cost_med]. *)
Theorem bucket_zone_and_surplus `{Pandas}
    (picks : list PickCost) (band : Band) (row : BucketRow) :
  In row (build_bucket_table picks band) ->
  let g := group_of picks (br_bucket row) in
  (br_median row = median (List.map cost_per_war_per_season g) /\
   war_med row = median (List.map (fun p => war_first4 (outcome_of p)) g) /\
   cost_med row = median (List.map (fun p => cost_first4 (outcome_of p)) g)) /\
  (arbitrage_zone row = BUY <->
     (br_median row <? q25 band * (1 - 0.07))%float = true) /\
  (arbitrage_zone row = SELL <->
     (br_median row <? q25 band * (1 - 0.07))%float = false /\
     (q75 band * (1 + 0.07) <? br_median row)%float = true) /\
  (arbitrage_zone row = NEUTRAL <->
     (br_median row <? q25 band * (1 - 0.07))%float = false /\
     (q75 band * (1 + 0.07) <? br_median row)%float = false) /\
  market_equiv_cost_4yr row = (war_med row * q50 band)%float /\
  surplus_4yr row = (market_equiv_cost_4yr row - cost_med row)%float /\
  (band = {| q25 := 3000000; q50 := 4000000; q75 := 5000000 |} ->
   br_median row = 2000000%float ->
   arbitrage_zone row = BUY /\
   surplus_4yr row = (war_med row * 4000000 - cost_med row)%float).
Proof.
  intros Hin g. apply in_build_bucket_table in Hin as [_ Hrow].
  fold g in Hrow.
  assert (Hz : arbitrage_zone row = zone band (br_median row))
    by (rewrite Hrow; reflexivity).
  split; [repeat split; rewrite Hrow; reflexivity|].
  split; [rewrite Hz; apply zone_BUY|].
  split; [rewrite Hz; apply zone_SELL|].
  split; [rewrite Hz; apply zone_NEUTRAL|].
  split; [rewrite Hrow; reflexivity|].
  split; [rewrite Hrow; reflexivity|].
  intros -> Hmed. split.
  - rewrite Hz, Hmed. reflexivity.
  - rewrite Hrow. reflexivity.
Qed.

Lemma bucket_zone_and_surplus_witness :
  let picks := prepare_pick_costs example_outcomes in
  let row := @bucket_row textbook_pandas example_band B01_05
               (@group_of picks B01_05) in
  br_median row = 2000000%float /\
  arbitrage_zone row = BUY /\
  surplus_4yr row = (war_med row * 4000000 - cost_med row)%float.
Proof.
  intros picks row.
  assert (Hin : In row (@build_bucket_table textbook_pandas picks example_band))
    by (vm_compute; left; reflexivity).
  destruct (@bucket_zone_and_surplus textbook_pandas picks example_band row Hin)
    as (_ & _ & _ & _ & _ & _ & Hscenario).
  split; [vm_compute; reflexivity|].
  apply Hscenario; vm_compute; reflexivity.
Defined.

(** ** Monotonicity of the zone *)

Lemma ltb_asym (a b : float) :
  (a <? b)%float = true -> (b <? a)%float = false.
Proof.
  rewrite !FloatAxioms.ltb_spec.
  generalize (Prim2SF a) (Prim2SF b). intros x y. sf_order.
Qed.

(** C7. With the band fixed the zone is a non-decreasing function of the
    median (BUY < NEUTRAL < SELL): BUY below [q25 * (1 - delta)], SELL above
    [q75 * (1 + delta)], NEUTRAL between the two breakpoints; and whenever
    [m1 <= m2] the zone of [m1] is at most the zone of [m2], also between
    rows of bucket tables built with that band. *)
Theorem zone_monotone (band : Band) :
  let lo := (q25 band * (1 - delta))%float in
  let hi := (q75 band * (1 + delta))%float in
  (forall m1 m2, (m1 <=? m2)%float = true ->
     zone_rank (zone band m1) <= zone_rank (zone band m2)) /\
  (forall m, zone band m = BUY <-> (m <? lo)%float = true) /\
  (forall m, zone band m = NEUTRAL <->
     (m <? lo)%float = false /\ (hi <? m)%float = false) /\
  (forall m, (m <? lo)%float = false ->
     (zone band m = SELL <-> (hi <? m)%float = true)) /\
  ((lo <=? hi)%float = true ->
     forall m, zone band m = SELL <-> (hi <? m)%float = true) /\
  (forall (P : Pandas) picks1 picks2 r1 r2,
     In r1 (build_bucket_table picks1 band) ->
     In r2 (build_bucket_table picks2 band) ->
     (br_median r1 <=? br_median r2)%float = true ->
     zone_rank (arbitrage_zone r1) <= zone_rank (arbitrage_zone r2)).
Proof.
  intros lo hi.
  assert (Hmono : forall m1 m2, (m1 <=? m2)%float = true ->
            zone_rank (zone band m1) <= zone_rank (zone band m2)).
  { intros m1 m2 Hle. unfold zone. fold lo hi.
    destruct (m1 <? lo)%float eqn:E1, (m2 <? lo)%float eqn:E2,
             (hi <? m1)%float eqn:E3, (hi <? m2)%float eqn:E4;
      simpl; try lia; exfalso.
    all: try (pose proof (leb_ltb_trans _ _ _ Hle E2); congruence).
    all: try (pose proof (ltb_leb_trans _ _ _ E3 Hle); congruence). }
  split; [exact Hmono|].
  split; [intros m; apply zone_BUY|].
  split; [intros m; apply zone_NEUTRAL|].
  split; [|split].
  - intros m Hm. rewrite zone_SELL. fold lo hi. tauto.
  - intros Hlh m. rewrite zone_SELL. fold lo hi. split; [tauto|].
    intros Hhm. split; [|exact Hhm].
    destruct (m <? lo)%float eqn:E; [|reflexivity].
    pose proof (ltb_leb_trans _ _ _ E Hlh) as Hmh.
    apply ltb_asym in Hmh. congruence.
  - intros P picks1 picks2 r1 r2 H1 H2 Hle.
    rewrite (row_zone _ _ _ H1), (row_zone _ _ _ H2).
    apply Hmono. exact Hle.
Qed.

Lemma zone_monotone_witness :
  zone_rank (zone example_band 2000000) <= zone_rank (zone example_band 4000000)
  /\ zone example_band 6000000 = SELL.
Proof.
  destruct (zone_monotone example_band) as (Hmono & _ & _ & _ & Hsell & _).
  split.
  - apply Hmono. vm_compute. reflexivity.
  - apply Hsell; vm_compute; reflexivity.
Defined.

(** ** The market price band *)

Lemma dropna_after_replace x :
  negb (is_nan (inf_to_nan x)) = is_finite x.
Proof.
  unfold inf_to_nan, is_finite.
  destruct (is_infinity x).
  - rewrite orb_true_r. reflexivity.
  - rewrite orb_false_r. reflexivity.
Qed.

Lemma inf_to_nan_finite x : is_finite x = true -> inf_to_nan x = x.
Proof.
  unfold inf_to_nan, is_finite. destruct (is_infinity x); [|reflexivity].
  rewrite orb_true_r. discriminate.
Qed.

Lemma prepared_ratios (rows : list MarketRow) :
  List.map dollars_per_war
    (dropna_dollars (List.map replace_inf (List.map price rows))) =
  List.filter is_finite
    (List.map (fun r => (mk_salary r / mk_war r)%float) rows).
Proof.
  unfold dropna_dollars.
  induction rows as [|r rows IH]; [reflexivity|]. cbn [List.map List.filter].
  change (dollars_per_war (replace_inf (price r)))
    with (inf_to_nan (mk_salary r / mk_war r)%float).
  rewrite dropna_after_replace.
  destruct (is_finite (mk_salary r / mk_war r)%float) eqn:E; [|exact IH].
  cbn [List.map]. rewrite IH.
  change (dollars_per_war (replace_inf (price r)))
    with (inf_to_nan (mk_salary r / mk_war r)%float).
  rewrite (inf_to_nan_finite _ E). reflexivity.
Qed.

(** C5. The prepared market holds exactly the ratios salary / war of the
    records whose salary and war are both strictly positive, less every
    ratio that is infinite or NaN (dropped, neither clamped nor kept as
    NaN); the band is the 25th, 50th and 75th percentile of the ratios
    that remain. *)
Theorem prepare_salary_pricing_band `{Pandas} (raw : list MarketRow) :
  let market := fst (prepare_salary_pricing raw) in
  let band := snd (prepare_salary_pricing raw) in
  let ratios := List.map dollars_per_war market in
  ratios =
    List.filter is_finite
      (List.map (fun r => (mk_salary r / mk_war r)%float)
         (List.filter (fun r => (0 <? mk_salary r)%float && (0 <? mk_war r)%float)
            raw)) /\
  (forall x, In x ratios ->
     is_nan x = false /\ is_infinity x = false /\
     exists r, In r raw /\ (0 <? mk_salary r)%float = true /\
               (0 <? mk_war r)%float = true /\
               x = (mk_salary r / mk_war r)%float) /\
  (forall r, In r raw ->
     (0 <? mk_salary r)%float = true -> (0 <? mk_war r)%float = true ->
     is_finite (mk_salary r / mk_war r)%float = true ->
     In (mk_salary r / mk_war r)%float ratios) /\
  band = {| q25 := quantile ratios 0.25;
            q50 := quantile ratios 0.5;
            q75 := quantile ratios 0.75 |}.
Proof.
  intros market band ratios.
  assert (Hr : ratios =
    List.filter is_finite
      (List.map (fun r => (mk_salary r / mk_war r)%float)
         (List.filter (fun r => (0 <? mk_salary r)%float && (0 <? mk_war r)%float)
            raw))).
  { subst ratios market. unfold prepare_salary_pricing. cbn [fst].
    apply prepared_ratios. }
  split; [exact Hr|]. split; [|split].
  - intros x Hx. rewrite Hr in Hx. apply filter_In in Hx as [Hx Hfin].
    apply in_map_iff in Hx as (r & <- & Hr0).
    apply filter_In in Hr0 as [Hin Hpos]. apply andb_true_iff in Hpos as [Hs Hw].
    unfold is_finite in Hfin. apply negb_true_iff, orb_false_iff in Hfin as [Hn Hi].
    repeat split; try assumption. exists r. auto.
  - intros r Hin Hs Hw Hfin. rewrite Hr. apply filter_In. split; [|exact Hfin].
    apply in_map_iff. exists r. split; [reflexivity|].
    apply filter_In. split; [exact Hin|]. rewrite Hs, Hw. reflexivity.
  - reflexivity.
Qed.

Lemma prepare_salary_pricing_band_witness :
  List.map dollars_per_war (fst (@prepare_salary_pricing textbook_pandas example_market))
    = [3000000; 4000000]%float /\
  In 4000000%float
     (List.map dollars_per_war
        (fst (@prepare_salary_pricing textbook_pandas example_market))).
Proof.
  destruct (@prepare_salary_pricing_band textbook_pandas example_market)
    as (Heq & _ & Hin & _).
  split.
  - rewrite Heq. vm_compute. reflexivity.
  - apply (Hin {| mk_canonical_name := str "e"; mk_season_end := 2019;
                  mk_salary := 8000000; mk_war := 2.0 |});
      vm_compute; auto 10.
Defined.

(** ** Pick costs *)

Lemma leb_zero_not_nan x : (0 <=? x)%float = true -> is_nan x = false.
Proof.
  rewrite leb_zero_spec, is_nan_spec.
  destruct (Prim2SF x) as [[]|[]| |[] ? ?]; simpl; congruence.
Qed.

Lemma eqb_zero_spec x :
  (x =? 0)%float = match Prim2SF x with S754_zero _ => true | _ => false end.
Proof.
  rewrite FloatAxioms.eqb_spec, Prim2SF_zero.
  destruct (Prim2SF x) as [[]|[]| |[] ? ?]; reflexivity.
Qed.

Lemma numeric_zero_div_pos (x y : float) :
  (x =? 0)%float = true -> (0 <? y)%float = true ->
  (x / y =? 0)%float = true.
Proof.
  rewrite !eqb_zero_spec, ltb_zero_spec, div_spec.
  destruct (Prim2SF x) as [[]|[]| |[] ? ?], (Prim2SF y) as [[]|[]| |[] ? ?];
    simpl; congruence.
Qed.

Lemma four_positive : (0 <? 4.0)%float = true.
Proof. reflexivity. Qed.

Lemma in_prepare_pick_costs picks row :
  In row (prepare_pick_costs picks) <->
  exists p, In p picks /\ (0 <? war_first4 p)%float = true /\ row = pick_cost p.
Proof.
  unfold prepare_pick_costs. rewrite in_map_iff. split.
  - intros (p & <- & Hp). apply filter_In in Hp as [Hin Hw]. eauto.
  - intros (p & Hin & Hw & ->). exists p. split; [reflexivity|].
    apply filter_In. auto.
Qed.

(** Counterexample to C10 as stated: with a positive war and a
    non-negative cost the quotient can overflow binary64, and the
    cost per war per season is then infinite. *)
Lemma cost_per_war_not_always_finite :
  ~ (forall p : PickOutcome,
       (0 <? war_first4 p)%float = true ->
       (0 <=? cost_first4 p)%float = true ->
       is_finite (cost_per_war_per_season (pick_cost p)) = true).
Proof.
  intros Hall.
  specialize (Hall (example_outcome 1 0.5 1e308) eq_refl eq_refl).
  vm_compute in Hall. discriminate.
Qed.

(** C10, amended. Pick-cost preparation filters on positive war only: every
    prepared row has [war_first4 > 0]; a pick with positive war is kept
    whatever its cost, and when its summed cost is zero it is kept with
    [cost_per_war_per_season = 0] and [war_per_season = war_first4 / 4];
    [cost_per_war_per_season] is [(cost_first4 / war_first4) / 4.0], and it
    is non-negative, hence not NaN, whenever [cost_first4] is non-negative
    and not infinite. *)
Theorem prepare_pick_costs_rows (picks : list PickOutcome) :
  (forall row, In row (prepare_pick_costs picks) ->
     (0 <? war_first4 (outcome_of row))%float = true /\
     In (outcome_of row) picks /\
     bucket row = assign_bucket (pick (outcome_of row)) /\
     cost_per_war_per_season row =
       ((cost_first4 (outcome_of row) / war_first4 (outcome_of row)) / 4.0)%float /\
     war_per_season row = (war_first4 (outcome_of row) / 4.0)%float) /\
  (forall p, In p picks -> (0 <? war_first4 p)%float = true ->
     In (pick_cost p) (prepare_pick_costs picks)) /\
  (forall p, In p picks -> (0 <? war_first4 p)%float = true ->
     (cost_first4 p =? 0)%float = true ->
     In (pick_cost p) (prepare_pick_costs picks) /\
     (cost_per_war_per_season (pick_cost p) =? 0)%float = true /\
     war_per_season (pick_cost p) = (war_first4 p / 4.0)%float) /\
  (forall row, In row (prepare_pick_costs picks) ->
     (0 <=? cost_first4 (outcome_of row))%float = true ->
     is_infinity (cost_first4 (outcome_of row)) = false ->
     (0 <=? cost_per_war_per_season row)%float = true /\
     is_nan (cost_per_war_per_season row) = false).
Proof.
  split; [|split; [|split]].
  - intros row Hrow. apply in_prepare_pick_costs in Hrow as (p & Hin & Hw & ->).
    simpl. auto.
  - intros p Hin Hw. apply in_prepare_pick_costs. eauto.
  - intros p Hin Hw Hc. split; [apply in_prepare_pick_costs; eauto|].
    split; [|reflexivity]. simpl.
    apply numeric_zero_div_pos; [|exact four_positive].
    apply numeric_zero_div_pos; assumption.
  - intros row Hrow Hc Hfin.
    apply in_prepare_pick_costs in Hrow as (p & Hin & Hw & ->). simpl in *.
    assert (Hq : (0 <=? cost_first4 p / war_first4 p)%float = true).
    { apply div_nonneg; try assumption. rewrite Hfin. reflexivity. }
    assert (Hr : (0 <=? cost_first4 p / war_first4 p / 4.0)%float = true).
    { apply div_nonneg; [exact Hq|exact four_positive|].
      apply andb_false_r. }
    split; [exact Hr|]. apply leb_zero_not_nan, Hr.
Qed.

Lemma prepare_pick_costs_rows_witness :
  let p := example_outcome 40 1.0 0 in
  In (pick_cost p) (prepare_pick_costs example_outcomes) /\
  (cost_per_war_per_season (pick_cost p) =? 0)%float = true /\
  (0 <=? cost_per_war_per_season (pick_cost p))%float = true.
Proof.
  intros p.
  destruct (prepare_pick_costs_rows example_outcomes) as (_ & _ & Hzero & Hnn).
  assert (Hin : In p example_outcomes) by (vm_compute; auto 10).
  destruct (Hzero p Hin eq_refl eq_refl) as (Hkept & Hz & _).
  split; [exact Hkept|]. split; [exact Hz|].
  apply (Hnn (pick_cost p) Hkept); reflexivity.
Defined.

(** ** The rookie-window join *)

Lemma py_range_window Y N : py_range (Y + 1) (Y + 1 + N) = rookie_window Y N.
Proof.
  unfold py_range, rookie_window.
  replace (Y + 1 + N - (Y + 1)) with N by lia.
  rewrite <- seq_shift, List.map_map.
  apply List.map_ext. intros i. lia.
Qed.

Lemma in_rookie_window Y N s : In s (rookie_window Y N) <-> Y + 1 <= s <= Y + N.
Proof.
  unfold rookie_window. rewrite in_map_iff. split.
  - intros (i & <- & Hi). apply in_seq in Hi. lia.
  - intros Hs. exists (Z.to_nat (s - Y)). split; [lia|]. apply in_seq. lia.
Qed.

Lemma fold_add_season wl sl slug canonical seasons : forall ws cs,
  List.fold_left (add_season wl sl slug canonical) seasons (ws, cs) =
  (List.fold_left (fun acc x => (acc + x)%float)
     (List.map (fun s => dict_get wl (slug, s) 0.0%float) seasons) ws,
   List.fold_left (fun acc x => (acc + x)%float)
     (List.map (fun s => dict_get sl (canonical, s) 0.0%float) seasons) cs).
Proof.
  induction seasons as [|s seasons IH]; intros ws cs; [reflexivity|].
  cbn [List.fold_left List.map]. unfold add_season at 2. cbn [fst snd].
  apply IH.
Qed.

Lemma dict_get_absent {K V : Type} `{Countable K} (d : gmap K V) k v :
  d !! k = None -> dict_get d k v = v.
Proof. unfold dict_get. intros ->. reflexivity. Qed.

Lemma dict_get_present {K V : Type} `{Countable K} (d : gmap K V) k v x :
  d !! k = Some x -> dict_get d k v = x.
Proof. unfold dict_get. intros ->. reflexivity. Qed.

Lemma fsum_zeros (l : list float) :
  Forall (fun x => x = 0.0%float) l -> fsum l = 0.0%float.
Proof.
  unfold fsum. induction 1 as [|x l -> _ IH]; [reflexivity|].
  cbn [List.fold_left]. exact IH.
Qed.

(** C4. For each draft pick of year [Y], [build_pick_outcomes] with window
    [N] gives one row whose [war_first4] is the sum over the seasons
    [Y+1..Y+N] of the war under [(player_slug, season_end)] and whose
    [cost_first4] is the sum over the same seasons of the salary under
    [(canonical_name, season_end)]; a pair absent from its lookup adds
    [0.0], and the function returns a row for every pick whatever the
    lookups hold. *)
Theorem build_pick_outcomes_sums
    (draft : list DraftRow) (war : list WarRecord)
    (salary : list SalaryRecord) (N : Z) :
  let wl := war_lookup war in
  let sl := salary_lookup salary in
  let war_of pk s := dict_get wl (d_player_slug pk, s) 0.0%float in
  let cost_of pk s := dict_get sl (d_canonical_name pk, s) 0.0%float in
  build_pick_outcomes draft war salary N =
    List.map (fun pk =>
      {| draft_year := d_season_end pk;
         pick := d_pick pk;
         po_player_slug := d_player_slug pk;
         po_player_name := d_player_name pk;
         po_canonical_name := d_canonical_name pk;
         war_first4 :=
           fsum (List.map (war_of pk) (rookie_window (d_season_end pk) N));
         cost_first4 :=
           fsum (List.map (cost_of pk) (rookie_window (d_season_end pk) N)) |})
      draft /\
  (forall Y s, In s (rookie_window Y N) <-> Y + 1 <= s <= Y + N) /\
  (forall pk s, wl !! (d_player_slug pk, s) = None -> war_of pk s = 0.0%float) /\
  (forall pk s, sl !! (d_canonical_name pk, s) = None -> cost_of pk s = 0.0%float) /\
  (forall pk s x, wl !! (d_player_slug pk, s) = Some x -> war_of pk s = x) /\
  (forall pk s x, sl !! (d_canonical_name pk, s) = Some x -> cost_of pk s = x) /\
  (forall pk,
     (forall s, In s (rookie_window (d_season_end pk) N) ->
        wl !! (d_player_slug pk, s) = None) ->
     fsum (List.map (war_of pk) (rookie_window (d_season_end pk) N)) = 0.0%float) /\
  (forall pk,
     (forall s, In s (rookie_window (d_season_end pk) N) ->
        sl !! (d_canonical_name pk, s) = None) ->
     fsum (List.map (cost_of pk) (rookie_window (d_season_end pk) N)) = 0.0%float) /\
  (N = 4 -> forall pk, In pk draft ->
     let Y := d_season_end pk in
     In {| draft_year := Y;
           pick := d_pick pk;
           po_player_slug := d_player_slug pk;
           po_player_name := d_player_name pk;
           po_canonical_name := d_canonical_name pk;
           war_first4 :=
             (0.0 + war_of pk (Y + 1)%Z + war_of pk (Y + 2)%Z
                  + war_of pk (Y + 3)%Z + war_of pk (Y + 4)%Z)%float;
           cost_first4 :=
             (0.0 + cost_of pk (Y + 1)%Z + cost_of pk (Y + 2)%Z
                  + cost_of pk (Y + 3)%Z + cost_of pk (Y + 4)%Z)%float |}
        (build_pick_outcomes draft war salary N)).
Proof.
  intros wl sl war_of cost_of.
  assert (Hrows : forall pk,
    pick_outcome wl sl N pk =
      {| draft_year := d_season_end pk;
         pick := d_pick pk;
         po_player_slug := d_player_slug pk;
         po_player_name := d_player_name pk;
         po_canonical_name := d_canonical_name pk;
         war_first4 :=
           fsum (List.map (war_of pk) (rookie_window (d_season_end pk) N));
         cost_first4 :=
           fsum (List.map (cost_of pk) (rookie_window (d_season_end pk) N)) |}).
  { intros pk. unfold pick_outcome.
    rewrite py_range_window, fold_add_season. reflexivity. }
  split; [|split; [|split; [|split; [|split; [|split; [|split; [|split]]]]]]].
  - unfold build_pick_outcomes. fold wl sl. apply List.map_ext, Hrows.
  - intros Y s. apply in_rookie_window.
  - intros pk s. apply dict_get_absent.
  - intros pk s. apply dict_get_absent.
  - intros pk s x. apply dict_get_present.
  - intros pk s x. apply dict_get_present.
  - intros pk Habs. apply fsum_zeros, List.Forall_forall.
    intros x Hx. apply in_map_iff in Hx as (s & <- & Hs).
    apply dict_get_absent, Habs, Hs.
  - intros pk Habs. apply fsum_zeros, List.Forall_forall.
    intros x Hx. apply in_map_iff in Hx as (s & <- & Hs).
    apply dict_get_absent, Habs, Hs.
  - intros -> pk Hin Y. unfold build_pick_outcomes. fold wl sl.
    apply in_map_iff. exists pk. split; [|exact Hin].
    rewrite Hrows. reflexivity.
Qed.

Lemma build_pick_outcomes_sums_witness :
  build_pick_outcomes example_draft example_war example_salary 4 =
    [ {| draft_year := 2016; pick := 1;
         po_player_slug := str "simmobe01";
         po_player_name := str "Ben Simmons";
         po_canonical_name := str "ben simmons";
         war_first4 := 15.75; cost_first4 := 12072000 |} ].
Proof.
  destruct (build_pick_outcomes_sums example_draft example_war example_salary 4)
    as (Hrows & _).
  rewrite Hrows. vm_compute. reflexivity.
Defined.

(** ** The name canonicaliser *)

Local Open Scope N_scope.

Ltac b2p :=
  repeat progress
    rewrite ?orb_true_iff, ?andb_true_iff, ?orb_false_iff, ?andb_false_iff,
      ?negb_true_iff, ?negb_false_iff, ?N.eqb_eq, ?N.eqb_neq, ?N.leb_le,
      ?N.leb_gt, ?N.ltb_lt, ?N.ltb_ge in *.

Ltac charb :=
  unfold simple_char, name_char, is_word, is_ascii_alnum, is_upper, is_lower,
    is_digit, is_ascii, is_space, ascii_to_lower, ci_match, SPACE in *;
  repeat match goal with
  | |- context [N.eqb ?a ?b] => destruct (N.eqb_spec a b)
  | |- context [N.leb ?a ?b] => destruct (N.leb_spec a b)
  | |- context [N.ltb ?a ?b] => destruct (N.ltb_spec a b)
  | H : context [N.eqb ?a ?b] |- _ => destruct (N.eqb_spec a b)
  | H : context [N.leb ?a ?b] |- _ => destruct (N.leb_spec a b)
  | H : context [N.ltb ?a ?b] |- _ => destruct (N.ltb_spec a b)
  end;
  simpl in *; try congruence; try lia.

Ltac lower_cases c :=
  unfold ascii_to_lower; destruct (is_upper c) eqn:?;
  unfold simple_char, is_ascii_alnum, is_upper, is_lower, is_digit, SPACE in *;
  b2p.

Local Close Scope N_scope.

Section CanonicalizeFacts.
Context `{UnicodeData}.
Local Open Scope N_scope.

Local Arguments is_ascii : simpl never.
Local Arguments is_ascii_alnum : simpl never.
Local Arguments is_space : simpl never.
Local Arguments is_word : simpl never.
Local Arguments ccc : simpl never.
Local Arguments decompose : simpl never.
Local Arguments ci_match : simpl never.
Local Arguments ascii_to_lower : simpl never.
Local Arguments simple_char : simpl never.
Local Arguments N.eqb : simpl never.

Lemma alnum_ascii c : is_ascii_alnum c = true -> is_ascii c = true.
Proof. charb. Qed.

Lemma alnum_word c : is_ascii_alnum c = true -> is_word c = true.
Proof. charb. Qed.

Lemma alnum_not_space c : is_ascii_alnum c = true -> (c =? SPACE) = false.
Proof. charb. Qed.

Lemma alnum_not_is_space c : is_ascii_alnum c = true -> is_space c = false.
Proof.
  intros Hc. destruct (is_space c) eqn:E; [exfalso|reflexivity].
  unfold is_ascii_alnum, is_upper, is_lower, is_digit, is_space in *. b2p. lia.
Qed.

Lemma simple_ascii c : simple_char c = true -> is_ascii c = true.
Proof. charb. Qed.

Lemma simple_cases c :
  simple_char c = true -> c = SPACE \/ is_ascii_alnum c = true.
Proof.
  unfold simple_char. intros Hc. apply orb_true_iff in Hc as [Hc|Hc]; [auto|].
  left. now apply N.eqb_eq.
Qed.

Lemma lower_alnum c :
  is_ascii_alnum c = true -> is_ascii_alnum (ascii_to_lower c) = true.
Proof. lower_cases c; lia. Qed.

Lemma lower_lower c : ascii_to_lower (ascii_to_lower c) = ascii_to_lower c.
Proof.
  unfold ascii_to_lower. destruct (is_upper c) eqn:E; [|now rewrite E].
  destruct (is_upper (c + 32)) eqn:E'; [exfalso|reflexivity].
  unfold is_upper in *. b2p. lia.
Qed.

(** On ASCII the first two steps change nothing. *)
Lemma canonical_order_ascii s :
  List.forallb is_ascii s = true -> canonical_order s = s.
Proof.
  induction s as [|c s IH]; [reflexivity|]. simpl.
  intros Hs. apply andb_true_iff in Hs as [Hc Hs].
  unfold canonical_order in *. simpl. rewrite (IH Hs).
  destruct s as [|d s]; [reflexivity|]. simpl.
  replace (ccc c) with 0 by (unfold ccc; now rewrite Hc).
  rewrite N.ltb_irrefl || (replace (ccc d <? 0) with false by (symmetry; apply N.ltb_ge; lia)).
  rewrite andb_false_r. reflexivity.
Qed.

Lemma flat_map_decompose_ascii s :
  List.forallb is_ascii s = true -> List.flat_map decompose s = s.
Proof.
  induction s as [|c s IH]; [reflexivity|]. simpl.
  intros Hs. apply andb_true_iff in Hs as [Hc Hs].
  unfold decompose at 1. rewrite Hc. simpl. now rewrite IH.
Qed.

Lemma nfkd_ascii s : List.forallb is_ascii s = true -> nfkd s = s.
Proof.
  intros Hs. unfold nfkd. rewrite (flat_map_decompose_ascii _ Hs).
  now apply canonical_order_ascii.
Qed.

Lemma strip_combining_ascii s :
  List.forallb is_ascii s = true -> strip_combining s = s.
Proof.
  induction s as [|c s IH]; [reflexivity|]. simpl.
  intros Hs. apply andb_true_iff in Hs as [Hc Hs].
  unfold ccc. rewrite Hc. simpl. now rewrite IH.
Qed.

(** Canonical ordering only moves combining marks, so it is invisible
    once they are removed. *)
Lemma strip_reorder_insert c l :
  strip_combining (reorder_insert c l) = strip_combining (c :: l).
Proof.
  unfold strip_combining.
  induction l as [|d l IH]; [reflexivity|]. cbn [reorder_insert].
  destruct ((0 <? ccc d) && (ccc d <? ccc c)) eqn:E; [|reflexivity].
  apply andb_true_iff in E as [Hd Hc]. apply N.ltb_lt in Hd, Hc.
  cbn [List.filter] in *. rewrite IH.
  destruct (N.eqb_spec (ccc d) 0); [lia|].
  destruct (N.eqb_spec (ccc c) 0); [lia|]. reflexivity.
Qed.

Lemma strip_canonical_order l :
  strip_combining (canonical_order l) = strip_combining l.
Proof.
  induction l as [|c l IH]; [reflexivity|].
  unfold canonical_order in *. cbn [List.fold_right].
  rewrite strip_reorder_insert. unfold strip_combining in *.
  cbn [List.filter]. now rewrite IH.
Qed.

Lemma strip_nfkd s :
  strip_combining (nfkd s) =
  List.flat_map (fun c => strip_combining (decompose c)) s.
Proof.
  unfold nfkd. rewrite strip_canonical_order.
  induction s as [|c s IH]; [reflexivity|]. cbn [List.flat_map].
  unfold strip_combining in *. now rewrite List.filter_app, IH.
Qed.

Lemma strip_decompose_ascii c :
  is_ascii c = true -> strip_combining (decompose c) = [c].
Proof.
  intros Hc. unfold decompose, strip_combining, ccc. rewrite Hc.
  cbn [List.filter]. now rewrite Hc.
Qed.

End CanonicalizeFacts.

(** C8. [_canonicalize] is a function defined on every value: a value that
    is not a string, and the empty string, give the empty string; it is
    the composition of the stated steps; and it identifies "Nené" with
    "Nene" (given that U+00E9 decomposes into e and the combining acute
    U+0301), "D'Angelo Russell" with "dangelo russell" and
    "Gary Payton II" with "Gary Payton". *)
Theorem canonicalize_total_and_collapses `{UnicodeData} :
  (forall v, (forall s, v <> PyStr s) -> _canonicalize v = []) /\
  _canonicalize (PyStr []) = [] /\
  (forall s, _canonicalize (PyStr s) =
     lower (strip (collapse_whitespace (keep_alnum_space (sub_suffixes
       (replace_char 45 SPACE (remove_char 39 (remove_char 44 (remove_char 46
         (strip_combining (nfkd s))))))))))) /\
  (decomposition 233%N = [101%N; 769%N] -> combining 769%N <> 0%N ->
   _canonicalize (PyStr (str "Nen" ++ [233%N])) = _canonicalize (PyStr (str "Nene")) /\
   _canonicalize (PyStr (str "Nene")) = str "nene") /\
  (_canonicalize (PyStr (str "D'Angelo Russell")) =
     _canonicalize (PyStr (str "dangelo russell")) /\
   _canonicalize (PyStr (str "dangelo russell")) = str "dangelo russell") /\
  (_canonicalize (PyStr (str "Gary Payton II")) =
     _canonicalize (PyStr (str "Gary Payton")) /\
   _canonicalize (PyStr (str "Gary Payton")) = str "gary payton").
Proof.
  split; [|split; [|split; [|split; [|split]]]].
  - intros v Hv. destruct v as [s| | |]; try reflexivity.
    exfalso. now apply (Hv s).
  - reflexivity.
  - reflexivity.
  - intros Hdec Hcomb.
    assert (Hnfkd : strip_combining (nfkd (str "Nen" ++ [233%N])) =
                    strip_combining (nfkd (str "Nene"))).
    { rewrite !strip_nfkd.
      change (str "Nen" ++ [233%N]) with [78%N; 101%N; 110%N; 233%N].
      change (str "Nene") with [78%N; 101%N; 110%N; 101%N].
      cbn [List.flat_map].
      rewrite (strip_decompose_ascii 78 eq_refl),
        (strip_decompose_ascii 101 eq_refl), (strip_decompose_ascii 110 eq_refl).
      replace (strip_combining (decompose 233)) with [101%N]; [reflexivity|].
      unfold decompose. cbn [is_ascii N.ltb N.compare Pos.compare Pos.compare_cont].
      rewrite Hdec. unfold strip_combining. cbn [List.filter].
      change (ccc 101) with 0%N. change (ccc 769) with (combining 769).
      destruct (N.eqb_spec (combining 769) 0); [contradiction|]. reflexivity. }
    split; [|vm_compute; reflexivity].
    unfold _canonicalize, canonicalize_str. rewrite Hnfkd. reflexivity.
  - split; vm_compute; reflexivity.
  - split; vm_compute; reflexivity.
Qed.

Lemma canonicalize_total_and_collapses_witness :
  @_canonicalize latin_unicode (PyStr (str "Nen" ++ [233%N])) = str "nene" /\
  @_canonicalize latin_unicode PyNone = [] /\
  @_canonicalize latin_unicode (PyFloat nan) = [].
Proof.
  destruct (@canonicalize_total_and_collapses latin_unicode)
    as (Hnon & _ & _ & Hnene & _).
  destruct (Hnene eq_refl ltac:(vm_compute; discriminate)) as [H1 H2].
  split; [rewrite H1; exact H2|].
  split; apply Hnon; intros s; discriminate.
Defined.

(** *** The suffix pattern on letters, digits and spaces *)

Section SuffixPattern.
Context `{UnicodeData}.
Local Open Scope N_scope.

Local Arguments is_ascii : simpl never.
Local Arguments is_ascii_alnum : simpl never.
Local Arguments is_space : simpl never.
Local Arguments is_word : simpl never.
Local Arguments ci_match : simpl never.
Local Arguments ascii_to_lower : simpl never.
Local Arguments simple_char : simpl never.
Local Arguments N.eqb : simpl never.

Lemma word_end_head r : word_end r -> is_word_at (List.head r) = false.
Proof. intros [->|[r' ->]]; reflexivity. Qed.

Lemma last_seen_word before w :
  Forall (fun c => is_ascii_alnum c = true) w ->
  is_word_at before = true \/ w <> [] ->
  is_word_at (last_seen before w) = true.
Proof.
  unfold last_seen. intros Hw. revert before.
  induction Hw as [|c w Hc Hw IH]; intros before Hb; cbn [List.fold_left].
  - destruct Hb as [Hb|Hb]; [exact Hb|congruence].
  - apply IH. left. cbn. now apply alnum_word.
Qed.

Lemma ci_match_space p : is_lower p = true -> ci_match p SPACE = false.
Proof.
  intros Hp. destruct (ci_match p SPACE) eqn:E; [exfalso|reflexivity].
  unfold ci_match, is_lower, SPACE in *. b2p. lia.
Qed.

Lemma match_alt_in_word alt : forall c w r,
  letters_only alt -> is_word c = true ->
  Forall (fun c => is_ascii_alnum c = true) w -> word_end r ->
  match_alt alt (Some c) (w ++ r) = ci_eq alt w.
Proof.
  induction alt as [|p alt IH]; intros c w r Halt Hc Hw Hr.
  - cbn [match_alt ci_eq]. unfold boundary. cbn [is_word_at]. rewrite Hc.
    destruct w as [|d w]; cbn [List.app].
    + now rewrite (word_end_head _ Hr).
    + cbn [List.head is_word_at]. inversion Hw; subst.
      now rewrite alnum_word.
  - inversion Halt as [|? ? Hp Halt']; subst.
    destruct w as [|d w]; cbn [List.app match_alt ci_eq].
    + destruct Hr as [->|[r' ->]]; [reflexivity|].
      now rewrite ci_match_space.
    + inversion Hw; subst. rewrite IH; auto using alnum_word.
Qed.

Lemma match_alt_word alt before c w r :
  letters_only alt -> alt <> [] ->
  Forall (fun c => is_ascii_alnum c = true) (c :: w) -> word_end r ->
  match_alt alt before ((c :: w) ++ r) = ci_eq alt (c :: w).
Proof.
  intros Halt Hne Hw Hr. destruct alt as [|p alt]; [congruence|].
  inversion Halt; subst. inversion Hw; subst.
  cbn [List.app match_alt ci_eq]. rewrite match_alt_in_word; auto using alnum_word.
Qed.

Lemma ci_eq_length alt w : ci_eq alt w = true -> List.length alt = List.length w.
Proof.
  revert w. induction alt as [|p alt IH]; intros [|c w]; cbn; try congruence.
  intros Hm. apply andb_true_iff in Hm as [_ Hm]. now rewrite (IH _ Hm).
Qed.

Lemma SUFFIXES_letters : Forall (fun alt => letters_only alt /\ alt <> []) SUFFIXES.
Proof. repeat constructor; discriminate. Qed.

Lemma find_ext_in {A} (f g : A -> bool) l :
  Forall (fun x => f x = g x) l -> List.find f l = List.find g l.
Proof.
  induction 1 as [|x l Hx _ IH]; [reflexivity|]. cbn. now rewrite Hx, IH.
Qed.

Lemma find_existsb {A} (f : A -> bool) l :
  List.existsb f l = match List.find f l with Some _ => true | None => false end.
Proof.
  induction l as [|x l IH]; [reflexivity|]. cbn. destruct (f x); [reflexivity|exact IH].
Qed.

(** At the start of a word the pattern matches exactly when the whole word
    is a suffix, and then it takes the whole word. *)
Lemma match_suffix_word before c w r :
  is_word_at before = false ->
  Forall (fun c => is_ascii_alnum c = true) (c :: w) -> word_end r ->
  match_suffix before ((c :: w) ++ r) =
    if is_suffix_word (c :: w) then Some (S (List.length w)) else None.
Proof.
  intros Hb Hw Hr. unfold match_suffix, is_suffix_word.
  assert (Hbd : boundary before (List.head ((c :: w) ++ r)) = true).
  { unfold boundary. rewrite Hb. cbn. inversion Hw; subst. now apply alnum_word. }
  rewrite Hbd.
  rewrite (find_ext_in _ (fun alt => ci_eq alt (c :: w))).
  2:{ eapply List.Forall_impl; [|exact SUFFIXES_letters].
      intros alt [Hl Hne]. cbn beta. now apply match_alt_word. }
  rewrite find_existsb.
  destruct (List.find _ SUFFIXES) as [alt|] eqn:E; [|reflexivity].
  apply List.find_some in E as [_ E]. apply ci_eq_length in E.
  now rewrite E.
Qed.

Lemma match_suffix_inside p c s :
  is_word p = true -> is_word c = true ->
  match_suffix (Some p) (c :: s) = None.
Proof.
  intros Hp Hc. unfold match_suffix, boundary. cbn [List.head is_word_at].
  now rewrite Hp, Hc.
Qed.

Lemma match_suffix_space before r : match_suffix before (SPACE :: r) = None.
Proof.
  unfold match_suffix. destruct (boundary _ _); [|reflexivity].
  assert (Hnone : Forall (fun alt => match_alt alt before (SPACE :: r) = false) SUFFIXES).
  { eapply List.Forall_impl; [|exact SUFFIXES_letters].
    intros [|p alt] [Hl Hne]; [congruence|]. inversion Hl; subst.
    cbn [match_alt]. now rewrite ci_match_space. }
  rewrite (find_ext_in _ (fun _ => false) _ Hnone).
  reflexivity.
Qed.

(** The scan over a word. *)
Lemma sub_skip l : forall before r,
  sub_suffixes_from before (List.length l) (l ++ r) =
  sub_suffixes_from (last_seen before l) O r.
Proof.
  induction l as [|c l IH]; intros before r; [reflexivity|].
  cbn [List.length List.app sub_suffixes_from]. rewrite IH. reflexivity.
Qed.

Lemma sub_inside w : forall p r,
  is_word_at p = true ->
  Forall (fun c => is_ascii_alnum c = true) w ->
  sub_suffixes_from p O (w ++ r) =
  w ++ sub_suffixes_from (last_seen p w) O r.
Proof.
  induction w as [|c w IH]; intros p r Hp Hw; [reflexivity|].
  inversion Hw; subst. destruct p as [p|]; [|discriminate].
  cbn [List.app sub_suffixes_from].
  rewrite match_suffix_inside; auto using alnum_word.
  rewrite IH; auto. cbn. now apply alnum_word.
Qed.

Lemma sub_word before c w r :
  is_word_at before = false ->
  Forall (fun c => is_ascii_alnum c = true) (c :: w) -> word_end r ->
  sub_suffixes_from before O ((c :: w) ++ r) =
  (if is_suffix_word (c :: w) then [] else c :: w) ++
  sub_suffixes_from (last_seen before (c :: w)) O r.
Proof.
  intros Hb Hw Hr.
  pose proof (match_suffix_word before c w r Hb Hw Hr) as Hm.
  cbn [List.app] in *. cbn [sub_suffixes_from]. rewrite Hm.
  inversion Hw; subst.
  destruct (is_suffix_word (c :: w)).
  - rewrite sub_skip. reflexivity.
  - rewrite sub_inside; auto. cbn. now apply alnum_word.
Qed.

Lemma sub_space before r :
  sub_suffixes_from before O (SPACE :: r) =
  SPACE :: sub_suffixes_from (Some SPACE) O r.
Proof. cbn [sub_suffixes_from]. now rewrite match_suffix_space. Qed.

End SuffixPattern.

(** *** Words, and the canonical form as a list of words *)

Section CanonicalWords.
Context `{UnicodeData}.
Local Open Scope N_scope.

Local Arguments is_ascii : simpl never.
Local Arguments is_ascii_alnum : simpl never.
Local Arguments is_space : simpl never.
Local Arguments is_word : simpl never.
Local Arguments ci_match : simpl never.
Local Arguments ascii_to_lower : simpl never.
Local Arguments simple_char : simpl never.
Local Arguments N.eqb : simpl never.

Local Abbreviation alnums := (Forall (fun c => is_ascii_alnum c = true)).
Local Abbreviation simples := (Forall (fun c => simple_char c = true)).
Local Abbreviation good_words :=
  (Forall (fun w : pystr => w <> [] /\ alnums w)).

Lemma alnums_simples w : alnums w -> simples w.
Proof.
  apply List.Forall_impl. intros c Hc. unfold simple_char. now rewrite Hc.
Qed.

Lemma words_from_word w : forall acc r,
  alnums w -> words_from acc (w ++ r) = words_from (acc ++ w) r.
Proof.
  induction w as [|c w IH]; intros acc r Hw.
  - now rewrite List.app_nil_r.
  - inversion Hw; subst. cbn [List.app words_from].
    rewrite alnum_not_space by assumption.
    rewrite IH by assumption. now rewrite <- List.app_assoc.
Qed.

Lemma words_space r : words (SPACE :: r) = words r.
Proof. reflexivity. Qed.

Lemma words_word w : w <> [] -> alnums w -> words w = [w].
Proof.
  intros Hne Hw. unfold words.
  rewrite <- (List.app_nil_r w) at 1. rewrite words_from_word by assumption.
  cbn. destruct w; [congruence|reflexivity].
Qed.

Lemma words_word_space w r :
  w <> [] -> alnums w -> words (w ++ SPACE :: r) = w :: words r.
Proof.
  intros Hne Hw. unfold words. rewrite words_from_word by assumption.
  cbn. destruct w; [congruence|reflexivity].
Qed.

(** A string of letters, digits and spaces is a run of spaces and words. *)
Lemma simple_seg_ind (P : pystr -> Prop) :
  P [] ->
  (forall r, simples r -> P r -> P (SPACE :: r)) ->
  (forall w, w <> [] -> alnums w -> P w) ->
  (forall w r, w <> [] -> alnums w -> simples r -> P r -> P (w ++ SPACE :: r)) ->
  forall s, simples s -> P s.
Proof.
  intros Hnil Hsp Hw Hws s Hs.
  enough (Hboth : P s /\ forall w, w <> [] -> alnums w -> P (w ++ s)) by apply Hboth.
  induction Hs as [|c s Hc Hs [IH1 IH2]].
  - split; [exact Hnil|]. intros w Hne Hal. rewrite List.app_nil_r. now apply Hw.
  - destruct (simple_cases _ Hc) as [->|Hal].
    + split; [now apply Hsp|]. intros w Hne Hw'. now apply Hws.
    + split.
      * apply (IH2 [c]); [discriminate|]. now constructor.
      * intros w Hne Hw'.
        replace (w ++ c :: s) with ((w ++ [c]) ++ s)
          by (now rewrite <- List.app_assoc).
        apply IH2.
        -- destruct w; discriminate.
        -- apply Forall_app. split; [assumption|now constructor].
Qed.

Lemma words_good s : forall acc,
  simples s -> alnums acc -> good_words (words_from acc s).
Proof.
  induction s as [|c s IH]; intros acc Hs Hacc; cbn [words_from].
  - destruct acc; constructor; [|constructor]. split; [discriminate|assumption].
  - inversion Hs as [|? ? Hc Hs']; subst.
    destruct (simple_cases _ Hc) as [->|Hal].
    + cbn. destruct acc.
      * now apply IH.
      * constructor; [split; [discriminate|assumption]|now apply IH].
    + rewrite alnum_not_space by assumption. apply IH; [assumption|].
      apply Forall_app. split; [assumption|now constructor].
Qed.

Lemma join_words_nil ws : good_words ws -> join_words ws = [] -> ws = [].
Proof.
  intros Hg. destruct Hg as [|w ws [Hne _] _]; [reflexivity|].
  cbn. destruct ws; [congruence|]. destruct w; [congruence|discriminate].
Qed.

Lemma join_words_cons w ws :
  good_words ws ->
  join_words (w :: ws) =
    match join_words ws with [] => w | j => w ++ SPACE :: j end.
Proof.
  intros Hg. destruct ws as [|w2 ws]; [reflexivity|].
  change (join_words (w :: w2 :: ws))
    with (w ++ SPACE :: join_words (w2 :: ws)).
  destruct (join_words (w2 :: ws)) eqn:E; [|reflexivity].
  apply join_words_nil in E; [discriminate|assumption].
Qed.

Lemma join_words_simple ws : good_words ws -> simples (join_words ws).
Proof.
  induction 1 as [|w ws [_ Hw] Hg IH]; [constructor|].
  cbn [join_words]. destruct ws as [|w2 ws]; [now apply alnums_simples|].
  apply Forall_app. split; [now apply alnums_simples|].
  constructor; [reflexivity|exact IH].
Qed.

Lemma words_join ws : good_words ws -> words (join_words ws) = ws.
Proof.
  induction 1 as [|w ws [Hne Hw] Hg IH]; [reflexivity|].
  cbn [join_words]. destruct ws as [|w2 ws]; [now apply words_word|].
  rewrite words_word_space by assumption. now rewrite IH.
Qed.

(** The suffix pattern removes the words that are suffixes. *)
Lemma words_sub s :
  simples s -> forall before, is_word_at before = false ->
  simples (sub_suffixes_from before O s) /\
  words (sub_suffixes_from before O s) =
    List.filter (fun w => negb (is_suffix_word w)) (words s).
Proof.
  revert s. apply (simple_seg_ind (fun s => forall before,
    is_word_at before = false ->
    simples (sub_suffixes_from before O s) /\
    words (sub_suffixes_from before O s) =
      List.filter (fun w => negb (is_suffix_word w)) (words s))).
  - intros before Hb. split; [constructor|reflexivity].
  - intros r Hr IH before Hb. rewrite sub_space.
    destruct (IH (Some SPACE) eq_refl) as [IH1 IH2].
    split; [constructor; [reflexivity|exact IH1]|].
    now rewrite !words_space.
  - intros w Hne Hw before Hb. destruct w as [|c w]; [congruence|].
    pose proof (sub_word before c w [] Hb Hw (or_introl eq_refl)) as Hsub.
    rewrite List.app_nil_r in Hsub. rewrite Hsub. cbn [sub_suffixes_from].
    rewrite List.app_nil_r, (words_word (c :: w)) by assumption.
    cbn [List.filter].
    destruct (is_suffix_word (c :: w)); cbn [negb].
    + split; [constructor|reflexivity].
    + split; [now apply alnums_simples|now apply words_word].
  - intros w r Hne Hw Hr IH before Hb. destruct w as [|c w]; [congruence|].
    rewrite (sub_word before c w (SPACE :: r) Hb Hw)
      by (right; now exists r).
    rewrite sub_space. destruct (IH (Some SPACE) eq_refl) as [IH1 IH2].
    rewrite (words_word_space (c :: w) r) by assumption. cbn [List.filter].
    destruct (is_suffix_word (c :: w)); cbn [negb].
    + split; [constructor; [reflexivity|exact IH1]|].
      cbn [List.app]. now rewrite words_space.
    + split.
      * apply Forall_app. split; [now apply alnums_simples|].
        constructor; [reflexivity|exact IH1].
      * rewrite words_word_space by assumption. now rewrite IH2.
Qed.

Lemma keep_simple u : simples u -> keep_alnum_space u = u.
Proof.
  induction 1 as [|c u Hc _ IH]; [reflexivity|].
  unfold keep_alnum_space in *. cbn [List.filter].
  change (is_ascii_alnum c || (c =? SPACE)) with (simple_char c).
  now rewrite Hc, IH.
Qed.

Lemma keep_is_simple s : simples (keep_alnum_space s).
Proof.
  unfold keep_alnum_space. apply List.Forall_forall. intros c Hc.
  apply List.filter_In in Hc as [_ Hc]. exact Hc.
Qed.

(** Whitespace. *)
Lemma lstrip_collapse_true u :
  lstrip (collapse_from true u) = collapse_from true u.
Proof.
  induction u as [|c u IH]; [reflexivity|]. cbn [collapse_from].
  destruct (is_space c) eqn:E; [exact IH|]. cbn [lstrip]. now rewrite E.
Qed.

Lemma lstrip_collapse u :
  lstrip (collapse_whitespace u) = collapse_from true u.
Proof.
  unfold collapse_whitespace. destruct u as [|c u]; [reflexivity|].
  cbn [collapse_from]. destruct (is_space c) eqn:E.
  - cbn [lstrip]. change (is_space SPACE) with true. cbn iota.
    apply lstrip_collapse_true.
  - cbn [lstrip]. rewrite E.
    clear. revert c. induction u as [|d u IH]; intros c; [reflexivity|].
    cbn [collapse_from]. destruct (is_space d); reflexivity.
Qed.

Lemma collapse_word w : forall b r,
  w <> [] -> alnums w -> collapse_from b (w ++ r) = w ++ collapse_from false r.
Proof.
  induction w as [|c w IH]; intros b r Hne Hw; [congruence|].
  inversion Hw; subst. cbn [List.app collapse_from].
  rewrite alnum_not_is_space by assumption.
  destruct w as [|d w]; [reflexivity|]. rewrite IH; [reflexivity|discriminate|assumption].
Qed.

Lemma rstrip_word w z : alnums w -> rstrip (w ++ z) = w ++ rstrip z.
Proof.
  induction 1 as [|c w Hc _ IH]; [reflexivity|].
  cbn [List.app rstrip]. rewrite IH, alnum_not_is_space by assumption.
  destruct (w ++ rstrip z); reflexivity.
Qed.

Lemma strip_collapse_words u :
  simples u -> strip (collapse_whitespace u) = join_words (words u).
Proof.
  intros Hu. unfold strip. rewrite lstrip_collapse. revert u Hu.
  apply (simple_seg_ind (fun u =>
    rstrip (collapse_from true u) = join_words (words u))).
  - reflexivity.
  - intros r Hr IH. rewrite words_space. exact IH.
  - intros w Hne Hw. rewrite <- (List.app_nil_r w) at 1.
    rewrite collapse_word, rstrip_word by assumption.
    cbn [collapse_from rstrip]. rewrite List.app_nil_r.
    now rewrite words_word.
  - intros w r Hne Hw Hr IH.
    rewrite collapse_word, rstrip_word by assumption.
    cbn [collapse_from]. change (is_space SPACE) with true. cbn iota.
    cbn [rstrip]. change (is_space SPACE) with true. cbn iota.
    rewrite IH, words_word_space by assumption.
    rewrite join_words_cons
      by (apply words_good; [assumption|constructor]).
    destruct (join_words (words r)); [now rewrite List.app_nil_r|reflexivity].
Qed.

End CanonicalWords.

(** *** The canonical form, and when canonicalising twice changes nothing *)

Section CanonicalForm.
Context `{UnicodeData}.
Local Open Scope N_scope.

Local Arguments is_ascii : simpl never.
Local Arguments is_ascii_alnum : simpl never.
Local Arguments is_space : simpl never.
Local Arguments is_word : simpl never.
Local Arguments ci_match : simpl never.
Local Arguments ascii_to_lower : simpl never.
Local Arguments simple_char : simpl never.
Local Arguments name_char : simpl never.
Local Arguments N.eqb : simpl never.

Local Abbreviation alnums := (Forall (fun c => is_ascii_alnum c = true)).
Local Abbreviation simples := (Forall (fun c => simple_char c = true)).
Local Abbreviation good_words :=
  (Forall (fun w : pystr => w <> [] /\ alnums w)).
Local Abbreviation not_suffix := (fun w => negb (is_suffix_word w)).

Lemma simples_ascii u : simples u -> List.forallb is_ascii u = true.
Proof.
  intros Hu. apply List.forallb_forall. intros c Hc.
  apply simple_ascii. revert c Hc. now apply List.Forall_forall.
Qed.

Lemma lower_simple_str u : simples u -> lower u = lower_word u.
Proof. intros Hu. unfold lower. now rewrite simples_ascii. Qed.

Lemma lower_word_join ws :
  lower_word (join_words ws) = join_words (List.map lower_word ws).
Proof.
  unfold lower_word. induction ws as [|w ws IH]; [reflexivity|].
  destruct ws as [|w2 ws]; [reflexivity|].
  change (join_words (w :: w2 :: ws)) with (w ++ SPACE :: join_words (w2 :: ws)).
  rewrite List.map_app. cbn [List.map] in *. rewrite IH. reflexivity.
Qed.

Lemma lower_word_alnums w : alnums w -> alnums (lower_word w).
Proof.
  unfold lower_word. induction 1; cbn [List.map]; constructor; auto using lower_alnum.
Qed.

Lemma lower_word_idem w : lower_word (lower_word w) = lower_word w.
Proof.
  unfold lower_word. rewrite List.map_map. apply List.map_ext, lower_lower.
Qed.

Lemma good_words_lower ws : good_words ws -> good_words (List.map lower_word ws).
Proof.
  induction 1 as [|w ws [Hne Hw] _ IH]; cbn [List.map]; constructor; [|exact IH].
  split; [destruct w; [congruence|discriminate]|now apply lower_word_alnums].
Qed.

Lemma ci_match_lower p c :
  is_lower p = true -> is_ascii_alnum c = true ->
  ci_match p (ascii_to_lower c) = ci_match p c.
Proof.
  intros Hp Hc. unfold ascii_to_lower.
  destruct (is_upper c) eqn:Eu; [|reflexivity].
  unfold ci_match, is_lower, is_upper in *. b2p.
  repeat match goal with
  | |- context [N.eqb ?a ?b] => destruct (N.eqb_spec a b)
  end; cbn; try reflexivity; lia.
Qed.

Lemma ci_eq_lower alt : forall w,
  letters_only alt -> alnums w -> ci_eq alt (lower_word w) = ci_eq alt w.
Proof.
  induction alt as [|p alt IH]; intros [|c w] Halt Hw; try reflexivity.
  inversion Halt; subst. inversion Hw; subst.
  cbn [lower_word List.map ci_eq]. rewrite ci_match_lower by assumption.
  f_equal. now apply IH.
Qed.

Lemma is_suffix_lower w :
  alnums w -> is_suffix_word (lower_word w) = is_suffix_word w.
Proof.
  intros Hw. unfold is_suffix_word.
  pose proof SUFFIXES_letters as Hs.
  induction Hs as [|alt l [Hl _] _ IH]; [reflexivity|].
  cbn [List.existsb]. now rewrite ci_eq_lower, IH.
Qed.

Lemma filter_lower_words ws :
  good_words ws ->
  List.filter not_suffix (List.map lower_word ws) =
  List.map lower_word (List.filter not_suffix ws).
Proof.
  induction 1 as [|w ws [_ Hw] _ IH]; [reflexivity|].
  cbn [List.map List.filter]. rewrite is_suffix_lower by assumption.
  destruct (is_suffix_word w); cbn [negb List.map]; now rewrite IH.
Qed.

Lemma good_words_filter (f : pystr -> bool) ws :
  good_words ws -> good_words (List.filter f ws).
Proof.
  induction 1 as [|w ws Hw _ IH]; [constructor|].
  cbn [List.filter]. destruct (f w); [constructor|]; assumption.
Qed.

(** Steps 3 and 4. *)
Lemma punctuation_steps_simple y :
  Forall (fun c => name_char c = true) y -> simples (punctuation_steps y).
Proof.
  unfold punctuation_steps, replace_char, remove_char.
  induction 1 as [|c y Hc _ IH]; [constructor|].
  cbn [List.filter List.map].
  destruct (N.eqb_spec c 46) as [->|N46]; [exact IH|]. cbn [negb List.filter].
  destruct (N.eqb_spec c 44) as [->|N44]; [exact IH|]. cbn [negb List.filter].
  destruct (N.eqb_spec c 39) as [->|N39]; [exact IH|]. cbn [negb List.map].
  constructor; [|exact IH].
  destruct (N.eqb_spec c 45) as [->|N45]; [reflexivity|].
  unfold name_char, simple_char in *. b2p. tauto.
Qed.

Lemma punctuation_steps_id u : simples u -> punctuation_steps u = u.
Proof.
  unfold punctuation_steps, replace_char, remove_char.
  induction 1 as [|c u Hc _ IH]; [reflexivity|].
  assert (Hne : c <> 46 /\ c <> 44 /\ c <> 39 /\ c <> 45).
  { unfold simple_char, is_ascii_alnum, is_upper, is_lower, is_digit, SPACE in Hc.
    b2p. lia. }
  destruct Hne as (N46 & N44 & N39 & N45).
  cbn [List.filter List.map].
  apply N.eqb_neq in N46, N44, N39, N45.
  rewrite N46. cbn [negb List.filter]. rewrite N44. cbn [negb List.filter].
  rewrite N39. cbn [negb List.map]. rewrite N45. now rewrite IH.
Qed.

(** The last two steps on letters, digits and spaces: the words, in lower
    case, one space apart. *)
Lemma canonical_tail u :
  simples u ->
  lower (strip (collapse_whitespace u)) =
  join_words (List.map lower_word (words u)).
Proof.
  intros Hu. rewrite strip_collapse_words by assumption.
  rewrite lower_simple_str.
  - apply lower_word_join.
  - apply join_words_simple, words_good; [assumption|constructor].
Qed.

(** Every canonical form is a list of lower-case words one space apart. *)
Lemma canonical_form x :
  exists W, good_words W /\ List.map lower_word W = W /\
            canonicalize_str x = join_words W.
Proof.
  unfold canonicalize_str.
  set (u := keep_alnum_space _).
  assert (Hu : simples u) by apply keep_is_simple.
  exists (List.map lower_word (words u)). split; [|split].
  - apply good_words_lower, words_good; [assumption|constructor].
  - rewrite List.map_map. apply List.map_ext, lower_word_idem.
  - now apply canonical_tail.
Qed.

(** Canonicalising a canonical form drops its suffix words and nothing
    else. *)
Lemma canonicalize_join W :
  good_words W -> List.map lower_word W = W ->
  canonicalize_str (join_words W) =
  join_words (List.filter not_suffix W).
Proof.
  intros Hg Hlow. pose proof (join_words_simple _ Hg) as Hs.
  unfold canonicalize_str.
  rewrite nfkd_ascii, strip_combining_ascii by now apply simples_ascii.
  fold (punctuation_steps (join_words W)).
  rewrite punctuation_steps_id by assumption.
  destruct (words_sub _ Hs None eq_refl) as [Hsub Hwords].
  fold (sub_suffixes (join_words W)) in Hsub, Hwords.
  rewrite keep_simple, canonical_tail by assumption.
  rewrite Hwords, words_join by assumption.
  rewrite <- filter_lower_words by assumption. now rewrite Hlow.
Qed.

Lemma filter_idem {A} (f : A -> bool) l :
  List.filter f (List.filter f l) = List.filter f l.
Proof.
  induction l as [|a l IH]; [reflexivity|]. cbn.
  destruct (f a) eqn:E; cbn; rewrite ?E, IH; reflexivity.
Qed.

Lemma filter_all {A} (f : A -> bool) l :
  List.filter f l = l <-> Forall (fun a => f a = true) l.
Proof.
  induction l as [|a l IH]; [split; [constructor|reflexivity]|]. cbn.
  destruct (f a) eqn:E; split.
  - intros Heq. injection Heq as Heq. constructor; [assumption|now apply IH].
  - intros Hall. inversion Hall; subst. f_equal. now apply IH.
  - intros Heq. exfalso.
    pose proof (List.filter_length_le f l) as Hlen. rewrite Heq in Hlen.
    cbn in Hlen. lia.
  - intros Hall. inversion Hall; congruence.
Qed.

Lemma lower_filter_fixed (f : pystr -> bool) W :
  List.map lower_word W = W ->
  List.map lower_word (List.filter f W) = List.filter f W.
Proof.
  induction W as [|w W IH]; [reflexivity|]. cbn [List.map List.filter].
  intros Heq. injection Heq as Hw HW.
  destruct (f w); cbn [List.map]; [rewrite Hw|]; now rewrite IH.
Qed.

End CanonicalForm.

(** Counterexample to C1 as stated: the underscore is a word character for
    [\b], so "j_r" holds no suffix word; it is removed afterwards, and the
    canonical form "jr" is itself a suffix, which a second pass deletes. *)
Lemma canonicalize_not_idempotent :
  @_canonicalize latin_unicode
    (PyStr (@_canonicalize latin_unicode (PyStr (str "j_r")))) <>
  @_canonicalize latin_unicode (PyStr (str "j_r")).
Proof. vm_compute. discriminate. Qed.

(** The same two passes whatever the character database holds outside
    ASCII. *)
Lemma canonicalize_jr_unstable `{UnicodeData} :
  _canonicalize (PyStr (str "j_r")) = str "jr" /\
  _canonicalize (PyStr (str "jr")) = [].
Proof. split; vm_compute; reflexivity. Qed.

(** C1, amended. [_canonicalize] is idempotent on every string that, once
    decomposed and stripped of combining marks, is made of ASCII letters,
    digits, spaces, periods, commas, apostrophes and hyphens. For an
    arbitrary string, a second pass changes the canonical form exactly
    when one of its words is a generational suffix; a third pass never
    changes anything; and a string equal to its own canonical form is
    returned unchanged. *)
Theorem canonicalize_idempotent_on_names `{UnicodeData} :
  (forall x,
     Forall (fun c => name_char c = true) (strip_combining (nfkd x)) ->
     _canonicalize (PyStr (_canonicalize (PyStr x))) = _canonicalize (PyStr x)) /\
  (forall x,
     _canonicalize (PyStr (_canonicalize (PyStr x))) = _canonicalize (PyStr x) <->
     Forall (fun w => is_suffix_word w = false) (words (_canonicalize (PyStr x)))) /\
  (forall x,
     _canonicalize (PyStr (_canonicalize (PyStr (_canonicalize (PyStr x))))) =
     _canonicalize (PyStr (_canonicalize (PyStr x)))) /\
  (forall x, _canonicalize (PyStr x) = x ->
     _canonicalize (PyStr (_canonicalize (PyStr x))) = x).
Proof.
  cbn [_canonicalize].
  assert (Hiff : forall x,
    canonicalize_str (canonicalize_str x) = canonicalize_str x <->
    Forall (fun w => is_suffix_word w = false) (words (canonicalize_str x))).
  { intros x. destruct (canonical_form x) as (W & Hg & Hlow & ->).
    rewrite canonicalize_join, words_join by assumption. split.
    - intros Heq. apply (f_equal words) in Heq.
      rewrite !words_join in Heq by (try apply good_words_filter; assumption).
      apply filter_all in Heq. eapply List.Forall_impl; [|exact Heq].
      intros w Hw. now apply negb_true_iff.
    - intros Hall. f_equal. apply filter_all.
      eapply List.Forall_impl; [|exact Hall].
      intros w Hw. now apply negb_true_iff. }
  split; [|split; [exact Hiff|split]].
  - intros x Hx. apply Hiff. unfold canonicalize_str.
    fold (punctuation_steps (strip_combining (nfkd x))).
    pose proof (punctuation_steps_simple _ Hx) as Ht.
    destruct (words_sub _ Ht None eq_refl) as [Hsub Hwords].
    fold (sub_suffixes (punctuation_steps (strip_combining (nfkd x)))) in Hsub, Hwords.
    rewrite keep_simple, canonical_tail by assumption.
    assert (Hgw : Forall (fun w : pystr => w <> [] /\
                   Forall (fun c => is_ascii_alnum c = true) w)
              (words (punctuation_steps (strip_combining (nfkd x)))))
      by (apply words_good; [assumption|constructor]).
    rewrite words_join
      by (apply good_words_lower; rewrite Hwords; now apply good_words_filter).
    rewrite Hwords. apply List.Forall_forall. intros w Hw.
    apply List.in_map_iff in Hw as (w' & <- & Hw').
    apply List.filter_In in Hw' as [Hin Hns].
    rewrite is_suffix_lower; [now apply negb_true_iff|].
    rewrite List.Forall_forall in Hgw. now apply Hgw.
  - intros x. destruct (canonical_form x) as (W & Hg & Hlow & ->).
    rewrite canonicalize_join by assumption.
    rewrite canonicalize_join
      by (try apply good_words_filter; try apply lower_filter_fixed; assumption).
    now rewrite filter_idem.
  - intros x Hx. now rewrite !Hx.
Qed.

Lemma canonicalize_idempotent_on_names_witness :
  @_canonicalize latin_unicode
    (PyStr (@_canonicalize latin_unicode (PyStr (str "Tim Hardaway-Jr. ")))) =
  @_canonicalize latin_unicode (PyStr (str "Tim Hardaway-Jr. ")).
Proof.
  destruct (@canonicalize_idempotent_on_names latin_unicode) as (Hidem & _).
  apply Hidem. vm_compute. repeat constructor.
Defined.

(** ** Salary reconciliation *)

Lemma SFleb_refl x : SFis_nan x = false -> SFleb x x = true.
Proof.
  destruct x as [[]|[]| |[] m e]; cbn; try congruence; intros _;
    unfold SFleb, SFcompare; rewrite Z.compare_refl, Pos.compare_cont_refl;
    reflexivity.
Qed.

Lemma SFltb_leb x y : SFltb x y = true -> SFleb x y = true.
Proof. sf_order. Qed.

Lemma SFleb_total x y :
  SFis_nan x = false -> SFis_nan y = false -> SFltb x y = false ->
  SFleb y x = true.
Proof. unfold SFis_nan. sf_order. Qed.

Lemma SFleb_antisym x y : SFleb x y = true -> SFleb y x = true -> SFeqb x y = true.
Proof. sf_order. Qed.

Lemma SFeqb_eq x y :
  SFeqb x y = true -> x <> S754_zero true -> y <> S754_zero true -> x = y.
Proof. sf_order. Qed.

Lemma leb_refl (x : float) : is_nan x = false -> (x <=? x)%float = true.
Proof. rewrite is_nan_spec, FloatAxioms.leb_spec. apply SFleb_refl. Qed.

Lemma ltb_leb (x y : float) : (x <? y)%float = true -> (x <=? y)%float = true.
Proof. rewrite FloatAxioms.ltb_spec, FloatAxioms.leb_spec. apply SFltb_leb. Qed.

Lemma leb_total (x y : float) :
  is_nan x = false -> is_nan y = false -> (x <? y)%float = false ->
  (y <=? x)%float = true.
Proof.
  rewrite !is_nan_spec, FloatAxioms.ltb_spec, FloatAxioms.leb_spec.
  apply SFleb_total.
Qed.

Lemma leb_antisym (x y : float) :
  (x <=? y)%float = true -> (y <=? x)%float = true -> (x =? y)%float = true.
Proof.
  rewrite !FloatAxioms.leb_spec, FloatAxioms.eqb_spec. apply SFleb_antisym.
Qed.

Lemma is_nan_eq (x y : float) : is_nan x = true -> is_nan y = true -> x = y.
Proof.
  rewrite !is_nan_spec. intros Hx Hy. apply Prim2SF_inj.
  destruct (Prim2SF x), (Prim2SF y); cbn in *; congruence.
Qed.

Lemma feq_eq (x y : float) :
  feq x y = true -> is_neg_zero x = false -> is_neg_zero y = false -> x = y.
Proof.
  unfold feq, is_neg_zero. intros Hf Hx Hy.
  apply orb_true_iff in Hf as [Hf|Hf].
  - apply Prim2SF_inj. rewrite FloatAxioms.eqb_spec in Hf.
    apply SFeqb_eq; [exact Hf| |].
    + intros E. rewrite E in Hx. discriminate.
    + intros E. rewrite E in Hy. discriminate.
  - apply andb_true_iff in Hf as [Hnx Hny]. now apply is_nan_eq.
Qed.

Section GroupByMax.
Context {K : Type} `{Countable K}.

Lemma groupby_lookup_from rows : forall (m : gmap K float) k,
  List.fold_left groupby_step rows m !! k =
  List.fold_left (fun cur v => Some (merge_max cur v))
    (group_values k rows) (m !! k).
Proof.
  induction rows as [|[k0 v] rows IH]; intros m k; [reflexivity|].
  cbn [List.fold_left]. rewrite IH. unfold group_values, groupby_step.
  cbn [List.filter fst snd]. destruct (decide (k0 = k)) as [->|Hne].
  - rewrite bool_decide_eq_true_2 by reflexivity. cbn [List.map List.fold_left].
    now rewrite lookup_insert_eq.
  - rewrite bool_decide_eq_false_2 by assumption.
    now rewrite lookup_insert_ne.
Qed.

Lemma groupby_lookup (rows : list (K * float)) k :
  groupby_max rows !! k =
  List.fold_left (fun cur v => Some (merge_max cur v)) (group_values k rows) None.
Proof.
  unfold groupby_max. rewrite groupby_lookup_from. now rewrite lookup_empty.
Qed.

End GroupByMax.

Lemma max_skipna_is_max c x seen :
  is_max_of c seen -> is_max_of (max_skipna c x) (seen ++ [x]).
Proof.
  unfold max_skipna. intros [[Hc Hall]|(Hc & Hin & Hle)]; rewrite Hc.
  - destruct (is_nan x) eqn:Hx.
    + left. split; [assumption|]. intros y Hy.
      apply in_app_or in Hy as [Hy|[<-|[]]]; auto.
    + right. split; [assumption|]. split; [apply in_or_app; right; now left|].
      intros y Hy Hny. apply in_app_or in Hy as [Hy|[<-|[]]].
      * rewrite (Hall y Hy) in Hny. discriminate.
      * now apply leb_refl.
  - destruct (is_nan x) eqn:Hx.
    + right. split; [assumption|]. split; [apply in_or_app; now left|].
      intros y Hy Hny. apply in_app_or in Hy as [Hy|[<-|[]]]; [auto|congruence].
    + destruct (c <? x)%float eqn:Hlt; right.
      * split; [assumption|]. split; [apply in_or_app; right; now left|].
        intros y Hy Hny. apply in_app_or in Hy as [Hy|[<-|[]]].
        -- apply ltb_leb. eapply leb_ltb_trans; [apply Hle; eassumption|exact Hlt].
        -- now apply leb_refl.
      * split; [assumption|]. split; [apply in_or_app; now left|].
        intros y Hy Hny. apply in_app_or in Hy as [Hy|[<-|[]]]; [auto|].
        now apply leb_total.
Qed.

Lemma fold_max_is_max vs : forall seen c,
  is_max_of c seen ->
  exists v, List.fold_left (fun cur v => Some (merge_max cur v)) vs (Some c) = Some v /\
            is_max_of v (seen ++ vs).
Proof.
  induction vs as [|x vs IH]; intros seen c Hc.
  - exists c. now rewrite List.app_nil_r.
  - cbn [List.fold_left merge_max].
    destruct (IH (seen ++ [x]) _ (max_skipna_is_max c x seen Hc)) as (v & Hv & Hmax).
    exists v. split; [exact Hv|]. now rewrite <- List.app_assoc in Hmax.
Qed.

Lemma single_is_max x : is_max_of x [x].
Proof.
  destruct (is_nan x) eqn:Hx; [left|right]; (split; [assumption|]).
  - intros y [<-|[]]. assumption.
  - split; [now left|]. intros y [<-|[]] _. now apply leb_refl.
Qed.

Lemma fold_max_spec vs :
  match List.fold_left (fun cur v => Some (merge_max cur v)) vs None with
  | Some v => vs <> [] /\ is_max_of v vs
  | None => vs = []
  end.
Proof.
  destruct vs as [|x vs]; [reflexivity|]. cbn [List.fold_left merge_max].
  destruct (fold_max_is_max vs [x] x (single_is_max x)) as (v & -> & Hmax).
  split; [discriminate|exact Hmax].
Qed.

Lemma is_max_unique v v' vs vs' :
  (forall x, In x vs <-> In x vs') ->
  is_max_of v vs -> is_max_of v' vs' -> feq v v' = true.
Proof.
  unfold feq. intros Hsame [[Hv Hall]|(Hv & Hin & Hle)] [[Hv' Hall']|(Hv' & Hin' & Hle')].
  - rewrite Hv, Hv'. apply orb_true_r.
  - apply Hsame in Hin'. rewrite (Hall _ Hin') in Hv'. discriminate.
  - apply Hsame in Hin. rewrite (Hall' _ Hin) in Hv. discriminate.
  - apply orb_true_iff. left. apply leb_antisym.
    + apply Hle'; [now apply Hsame|assumption].
    + apply Hle; [now apply Hsame|assumption].
Qed.

Lemma in_group_values {K : Type} `{EqDecision K} (k : K) rows x :
  In x (group_values k rows) <-> In (k, x) rows.
Proof.
  unfold group_values. rewrite List.in_map_iff. split.
  - intros ([k' x'] & <- & Hin). apply List.filter_In in Hin as [Hin Hk].
    apply bool_decide_eq_true in Hk. cbn in *. now subst.
  - intros Hin. exists (k, x). split; [reflexivity|].
    apply List.filter_In. split; [assumption|]. now apply bool_decide_eq_true.
Qed.

Lemma groupby_same_rows {K : Type} `{Countable K} (rows rows' : list (K * float)) :
  (forall r, In r rows <-> In r rows') ->
  table_equiv (groupby_max rows) (groupby_max rows').
Proof.
  intros Hsame k. rewrite !groupby_lookup.
  assert (Hg : forall x, In x (group_values k rows) <-> In x (group_values k rows'))
    by (intros x; rewrite !in_group_values; apply Hsame).
  pose proof (fold_max_spec (group_values k rows)) as H1.
  pose proof (fold_max_spec (group_values k rows')) as H2.
  destruct (List.fold_left _ (group_values k rows) None) as [v|],
           (List.fold_left _ (group_values k rows') None) as [v'|].
  - destruct H1 as [_ H1], H2 as [_ H2]. eapply is_max_unique; eassumption.
  - destruct H1 as [Hne _]. rewrite H2 in Hg.
    destruct (group_values k rows) as [|x ?]; [congruence|].
    now apply (Hg x); left.
  - destruct H2 as [Hne _]. rewrite H1 in Hg.
    destruct (group_values k rows') as [|x ?]; [congruence|].
    now apply (Hg x); left.
  - exact I.
Qed.

Lemma groupby_value_in {K : Type} `{Countable K} (rows : list (K * float)) k v :
  groupby_max rows !! k = Some v ->
  is_nan v = true \/ In (k, v) rows.
Proof.
  rewrite groupby_lookup. intros Hv.
  pose proof (fold_max_spec (group_values k rows)) as Hs. rewrite Hv in Hs.
  destruct Hs as [_ [[Hn _]|(_ & Hin & _)]]; [now left|right].
  now apply in_group_values.
Qed.

Lemma groupby_same_rows_eq {K : Type} `{Countable K} (rows rows' : list (K * float)) :
  (forall r, In r rows <-> In r rows') ->
  (forall r, In r rows -> is_neg_zero r.2 = false) ->
  groupby_max rows = groupby_max rows'.
Proof.
  intros Hsame Hnz. apply map_eq. intros k.
  pose proof (groupby_same_rows rows rows' Hsame k) as He.
  destruct (groupby_max rows !! k) as [v|] eqn:E1,
           (groupby_max rows' !! k) as [v'|] eqn:E2; try contradiction;
    [|reflexivity].
  f_equal. apply groupby_value_in in E1, E2.
  assert (Hnan : forall x, is_nan x = true -> is_neg_zero x = false).
  { intros x. rewrite is_nan_spec. unfold is_neg_zero.
    destruct (Prim2SF x) as [[]| | |]; cbn; congruence. }
  apply feq_eq; [exact He| |].
  - destruct E1 as [E1|E1]; [now apply Hnan|]. apply (Hnz _ E1).
  - destruct E2 as [E2|E2]; [now apply Hnan|]. apply Hsame in E2. apply (Hnz _ E2).
Qed.

Lemma groupby_nodup {K : Type} `{Countable K} (t : list (K * float)) :
  NoDup (t.*1) -> groupby_max t = list_to_map t.
Proof.
  intros Hnd. unfold groupby_max.
  enough (Hgen : forall m : gmap K float,
            (forall k, k ∈ t.*1 -> m !! k = None) ->
            List.fold_left groupby_step t m = list_to_map t ∪ m).
  { rewrite Hgen; [apply map_union_empty|]. intros k _. apply lookup_empty. }
  induction t as [|[k v] t IH]; intros m Hm.
  - cbn. now rewrite map_empty_union.
  - apply NoDup_cons in Hnd as [Hk Hnd]. cbn [List.fold_left].
    unfold groupby_step at 2. cbn [fst snd].
    rewrite (Hm k) by (cbn; left). cbn [merge_max].
    rewrite IH; [|assumption|].
    + rewrite list_to_map_cons. cbn [fst snd].
      rewrite <- insert_union_l. symmetry.
      apply insert_union_r. apply not_elem_of_list_to_map_1. exact Hk.
    + intros k' Hk'. rewrite lookup_insert_ne.
      * apply Hm. cbn. now right.
      * intros ->. contradiction.
Qed.

Lemma groupby_idempotent {K : Type} `{Countable K} (m : gmap K float) :
  groupby_max (map_to_list m) = m.
Proof.
  rewrite groupby_nodup by apply NoDup_fst_map_to_list.
  apply list_to_map_to_list.
Qed.

Lemma groupby_key_in {K : Type} `{Countable K} (rows : list (K * float)) k v :
  groupby_max rows !! k = Some v -> exists x, In (k, x) rows.
Proof.
  rewrite groupby_lookup. intros Hv.
  pose proof (fold_max_spec (group_values k rows)) as Hs. rewrite Hv in Hs.
  destruct Hs as [Hne _]. destruct (group_values k rows) as [|x vs] eqn:E;
    [congruence|].
  exists x. apply in_group_values. rewrite E. now left.
Qed.

Section LoadSalaryFacts.
Context `{UnicodeData}.

Lemma in_salary_keyed_rows csv s e kv :
  In kv (salary_keyed_rows csv s e) <->
  exists r, In r (csv_rows csv) /\
            s <= c_season_end r <= e /\
            key_cell (if has_canonical_name csv then c_canonical_name r
                      else PyStr (_canonicalize (c_player r)))
                     (c_season_end r) (c_salary r) = Some kv.
Proof.
  unfold salary_keyed_rows. rewrite List.in_flat_map. split.
  - intros (r & Hr & Hkv). apply List.filter_In in Hr as [Hin Hrange].
    apply andb_true_iff in Hrange as [H1 H2]. apply Z.leb_le in H1, H2.
    exists r. split; [assumption|]. split; [lia|].
    destruct (key_cell _ _ _) as [kv'|]; [|contradiction].
    destruct Hkv as [->|[]]. reflexivity.
  - intros (r & Hin & Hrange & Hkv). exists r. split.
    + apply List.filter_In. split; [assumption|].
      apply andb_true_iff. split; apply Z.leb_le; lia.
    + rewrite Hkv. now left.
Qed.

Lemma load_salary_data_season csv s e name season v :
  load_salary_data csv s e !! (name, season) = Some v -> s <= season <= e.
Proof.
  intros Hv. apply groupby_key_in in Hv as [x Hx].
  apply in_salary_keyed_rows in Hx as (r & _ & Hrange & Hkv).
  unfold key_cell in Hkv. destruct (if has_canonical_name csv then _ else _);
    try discriminate.
  injection Hkv as <- <- _. exact Hrange.
Qed.

Lemma salary_frame_rows (m : gmap (pystr * Z) float) s e :
  (forall name season v, m !! (name, season) = Some v -> s <= season <= e) ->
  salary_keyed_rows (salary_frame m) s e = map_to_list m.
Proof.
  intros Hrange. unfold salary_keyed_rows, salary_frame.
  cbn [has_canonical_name csv_rows].
  assert (Hall : forall kv, In kv (map_to_list m) -> s <= kv.1.2 <= e).
  { intros [[name season] v] Hin. cbn. apply (Hrange name season v).
    apply elem_of_map_to_list. now apply list_elem_of_In. }
  induction (map_to_list m) as [|[[name season] v] l IH]; [reflexivity|].
  cbn [List.map List.filter c_season_end fst snd].
  pose proof (Hall _ (or_introl eq_refl)) as Hs. cbn in Hs.
  replace ((s <=? season) && (season <=? e)) with true
    by (symmetry; apply andb_true_iff; split; apply Z.leb_le; lia).
  cbn [List.flat_map key_cell c_canonical_name c_season_end c_salary List.app].
  f_equal. apply IH. intros kv Hkv. apply Hall. now right.
Qed.

End LoadSalaryFacts.

(** C6. Taking the maximum salary per (player, season) does not depend on
    the order of the rows, and copies of rows already present change
    nothing: the reconciled tables agree key by key, cell by cell (as
    floats; identically when no salary is a negative zero). Reconciling a
    reconciled table returns it unchanged. The same holds of
    [load_salary_data] and of [fetch_league_salaries] as wholes. *)
Theorem reconciliation_order_and_duplicates `{UnicodeData} :
  (forall rows rows' : list ((pystr * Z) * float),
     Permutation rows rows' ->
     table_equiv (groupby_max rows) (groupby_max rows')) /\
  (forall rows dups : list ((pystr * Z) * float),
     (forall r, In r dups -> In r rows) ->
     table_equiv (groupby_max (rows ++ dups)) (groupby_max rows)) /\
  (forall rows rows' : list ((pystr * Z) * float),
     (forall r, In r rows <-> In r rows') ->
     (forall r, In r rows -> is_neg_zero r.2 = false) ->
     groupby_max rows = groupby_max rows') /\
  (forall rows : list ((pystr * Z) * float),
     groupby_max (map_to_list (groupby_max rows)) = groupby_max rows) /\
  (forall csv csv' s e,
     has_canonical_name csv = has_canonical_name csv' ->
     (forall r, In r (csv_rows csv) <-> In r (csv_rows csv')) ->
     table_equiv (load_salary_data csv s e) (load_salary_data csv' s e)) /\
  (forall csv s e,
     load_salary_data (salary_frame (load_salary_data csv s e)) s e =
     load_salary_data csv s e) /\
  (forall frames frames' : list (list TeamSalaryRow),
     (forall r, In r (List.concat frames) <-> In r (List.concat frames')) ->
     table_equiv (fetch_league_salaries frames) (fetch_league_salaries frames')) /\
  (forall frames frames' : list (list TeamSalaryRow),
     Permutation frames frames' ->
     table_equiv (fetch_league_salaries frames) (fetch_league_salaries frames')).
Proof.
  assert (Hleague : forall frames frames' : list (list TeamSalaryRow),
     (forall r, In r (List.concat frames) <-> In r (List.concat frames')) ->
     table_equiv (fetch_league_salaries frames) (fetch_league_salaries frames')).
  { intros frames frames' Hsame. unfold fetch_league_salaries.
    apply groupby_same_rows. intros kv. rewrite !List.in_map_iff.
    split; intros (r & Hr & Hin); exists r; (split; [assumption|]);
      now apply Hsame. }
  repeat apply conj.
  - intros rows rows' Hp. apply groupby_same_rows. intros r.
    split; apply Permutation_in; [assumption|now symmetry].
  - intros rows dups Hd. apply groupby_same_rows. intros r.
    rewrite List.in_app_iff. split; [intros [Hr|Hr]; auto|auto].
  - apply groupby_same_rows_eq.
  - intros rows. apply groupby_idempotent.
  - intros csv csv' s e Hcol Hsame. unfold load_salary_data.
    apply groupby_same_rows. intros kv. rewrite !in_salary_keyed_rows.
    rewrite Hcol.
    split; intros (r & Hin & Hrest); exists r; (split; [|exact Hrest]);
      now apply Hsame.
  - intros csv s e. unfold load_salary_data at 1.
    rewrite salary_frame_rows.
    + apply groupby_idempotent.
    + intros name season v. apply load_salary_data_season.
  - exact Hleague.
  - intros frames frames' Hp. apply Hleague. intros r.
    rewrite !List.in_concat.
    split; intros (l & Hl & Hr); exists l; (split; [|exact Hr]);
      (eapply Permutation_in; [|exact Hl]); [assumption|now symmetry].
Qed.

Lemma reconciliation_order_and_duplicates_witness :
  groupby_max example_salary_rows = groupby_max (List.rev example_salary_rows) /\
  groupby_max example_salary_rows !! (str "ben simmons", 2018) = Some 6434520%float /\
  groupby_max example_salary_rows !! (str "joel embiid", 2018) = Some 6100266%float.
Proof.
  destruct (@reconciliation_order_and_duplicates latin_unicode)
    as (_ & _ & Heq & _).
  split; [|split; vm_compute; reflexivity].
  apply Heq.
  - intros r. apply List.in_rev.
  - intros r Hr. cbn in Hr.
    repeat (destruct Hr as [<-|Hr]; [vm_compute; reflexivity|]).
    contradiction.
Defined.

(** ** The draft fetch and the draft build *)

(** When every attempt is answered by a 429 or by another status that is
    not [ok], the retry loop gives up with [None] after [fuel] attempts. *)
Lemma request_attempts_exhausted get : forall fuel attempt delay backoff,
  (forall i, (attempt <= i < attempt + fuel)%nat ->
     exists status page, get i = Responded status page /\
       (status = 429 \/ status_ok status = false)) ->
  snd (request_attempts fuel attempt delay backoff get) = Return None.
Proof.
  induction fuel as [|fuel IH]; intros attempt delay backoff Hall; [reflexivity|].
  cbn [request_attempts].
  destruct (Hall attempt ltac:(lia)) as (status & page & -> & Hst).
  assert (Hrest : snd (request_attempts fuel (S attempt)
                         (py_min (delay * backoff) 8.0) backoff get) = Return None).
  { apply IH. intros i Hi. apply Hall. lia. }
  destruct (status =? 429) eqn:E429; [exact Hrest|].
  destruct Hst as [->|Hok]; [discriminate|]. rewrite Hok. exact Hrest.
Qed.

Lemma fetch_after_exhaustion season_end get :
  (forall i, (i < 6)%nat ->
     exists status page, get i = Responded status page /\
       (status = 429 \/ status_ok status = false)) ->
  fetch_draft_class season_end get = Return empty_draft_frame.
Proof.
  intros Hall. unfold fetch_draft_class, _request_with_retry.
  rewrite request_attempts_exhausted; [reflexivity|].
  intros i Hi. apply Hall. lia.
Qed.

Lemma fetch_without_table season_end get page :
  snd (_request_with_retry get) = Return (Some page) ->
  stats_table page = None ->
  fetch_draft_class season_end get = Return empty_draft_frame.
Proof.
  intros Hresp Htab. unfold fetch_draft_class. rewrite Hresp. cbn [bind].
  now rewrite Htab.
Qed.

(** A frame [fetch_draft_class] returns has the five columns, or it is the
    frame without rows and without columns. *)
Lemma fetch_frame_shape season_end get df :
  fetch_draft_class season_end get = Return df ->
  df_columns df = DRAFT_COLUMNS \/ (df_columns df = [] /\ df_rows df = []).
Proof.
  unfold fetch_draft_class.
  destruct (snd (_request_with_retry get)) as [[page|]|e]; cbn [bind];
    try discriminate.
  - destruct (stats_table page) as [table|].
    + destruct (tbody table) as [trs|]; [|discriminate].
      destruct (parse_rows season_end trs) as [rows|e]; cbn [bind];
        [|discriminate].
      intros [= <-]. destruct rows; cbn; auto.
    + intros [= <-]. now left.
  - intros [= <-]. now left.
Qed.

Lemma in_union_columns c a b :
  In c (union_columns a b) <-> In c a \/ In c b.
Proof.
  unfold union_columns. rewrite List.in_app_iff, List.filter_In. split.
  - intros [Ha|[Hb _]]; auto.
  - intros [Ha|Hb]; [now left|].
    destruct (List.existsb (String.eqb c) a) eqn:E.
    + left. apply List.existsb_exists in E as (x & Hx & Heq).
      apply String.eqb_eq in Heq. now subst.
    + right. split; [assumption|reflexivity].
Qed.

Lemma in_fold_union c cols : forall acc,
  In c (List.fold_left union_columns cols acc) <->
  In c acc \/ exists l, In l cols /\ In c l.
Proof.
  induction cols as [|l cols IH]; intros acc; cbn [List.fold_left].
  - split; [now left|]. intros [Hacc|(l & [] & _)]. exact Hacc.
  - rewrite IH, in_union_columns. split.
    + intros [[Ha|Hl]|(l' & Hl' & Hc)]; [now left| |].
      * right. exists l. split; [now left|assumption].
      * right. exists l'. split; [now right|assumption].
    + intros [Ha|(l' & [<-|Hl'] & Hc)]; [now left; left|now left; right|].
      right. now exists l'.
Qed.

Lemma has_column_spec c df : has_column c df = true <-> In c (df_columns df).
Proof.
  unfold has_column. rewrite List.existsb_exists. split.
  - intros (x & Hx & Heq). apply String.eqb_eq in Heq. now subst.
  - intros Hin. exists c. split; [assumption|apply String.eqb_refl].
Qed.

Lemma has_column_concat c frames :
  has_column c (concat_frames frames) = true <->
  exists df, In df frames /\ has_column c df = true.
Proof.
  rewrite has_column_spec. unfold concat_frames. cbn [df_columns].
  rewrite in_fold_union. split.
  - intros [[]|(l & Hl & Hc)]. apply List.in_map_iff in Hl as (df & <- & Hdf).
    exists df. split; [assumption|now apply has_column_spec].
  - intros (df & Hdf & Hc). right. exists (df_columns df).
    split; [now apply List.in_map|now apply has_column_spec].
Qed.

Lemma in_fetch_seasons seasons net df :
  In df (fst (fetch_seasons seasons net)) <->
  exists s, In s seasons /\ fetch_draft_class s (net s) = Return df.
Proof.
  induction seasons as [|s seasons IH]; cbn [fetch_seasons].
  - split; [intros []|intros (s & [] & _)].
  - destruct (fetch_draft_class s (net s)) as [df0|e] eqn:E; cbn [fst].
    + split.
      * intros [<-|Hin]; [exists s; split; [now left|assumption]|].
        apply IH in Hin as (s' & Hs' & Hf). exists s'. split; [now right|assumption].
      * intros (s' & [<-|Hs'] & Hf); [left; congruence|].
        right. apply IH. now exists s'.
    + rewrite IH. split.
      * intros (s' & Hs' & Hf). exists s'. split; [now right|assumption].
      * intros (s' & [<-|Hs'] & Hf); [congruence|]. now exists s'.
Qed.

Lemma in_warned_seasons seasons net s :
  In s (snd (fetch_seasons seasons net)) <->
  In s seasons /\ exists e, fetch_draft_class s (net s) = Raise e.
Proof.
  induction seasons as [|s0 seasons IH]; cbn [fetch_seasons].
  - split; [intros []|intros [[] _]].
  - destruct (fetch_draft_class s0 (net s0)) as [df0|e] eqn:E; cbn [snd].
    + rewrite IH. split.
      * intros [Hs He]. split; [now right|assumption].
      * intros [[<-|Hs] [e He]]; [congruence|]. split; [assumption|now exists e].
    + split.
      * intros [<-|Hin]; [split; [now left|now exists e]|].
        apply IH in Hin as [Hs He]. split; [now right|assumption].
      * intros [[<-|Hs] He]; [now left|]. right. now apply IH.
Qed.

Section BuildDraftFacts.
Context `{UnicodeData}.

Lemma build_draft_data_unfold start_year end_year net :
  build_draft_data start_year end_year net =
  (snd (fetch_seasons (py_range start_year (end_year + 1)) net),
   match fst (fetch_seasons (py_range start_year (end_year + 1)) net) with
   | [] => Raise RuntimeError
   | frames =>
     if has_column "player_name" (concat_frames frames)
     then Return (List.map draft_row (df_rows (concat_frames frames)))
     else Raise KeyError
   end).
Proof.
  unfold build_draft_data.
  destruct (fetch_seasons _ net) as [frames warned]. cbn [fst snd].
  destruct frames; reflexivity.
Qed.

(** The part of C9 the code keeps: a season that raises is warned about
    and skipped; the build raises [RuntimeError] exactly when every season
    raised; and as soon as one returned frame carries the columns, the
    build completes with the rows of every season that returned. *)
Lemma build_draft_data_resilient start_year end_year net :
  let seasons := py_range start_year (end_year + 1) in
  let result := build_draft_data start_year end_year net in
  (forall s, In s (fst result) <->
     In s seasons /\ exists e, fetch_draft_class s (net s) = Raise e) /\
  (snd result = Raise RuntimeError <->
     forall s, In s seasons -> exists e, fetch_draft_class s (net s) = Raise e) /\
  ((exists s df, In s seasons /\ fetch_draft_class s (net s) = Return df /\
                 has_column "player_name" df = true) ->
   exists rows, snd result = Return rows /\
     forall s df r, In s seasons -> fetch_draft_class s (net s) = Return df ->
       In r (df_rows df) -> In (draft_row r) rows) /\
  (snd result = Raise KeyError <->
     (exists s df, In s seasons /\ fetch_draft_class s (net s) = Return df) /\
     (forall s df, In s seasons -> fetch_draft_class s (net s) = Return df ->
        df = frame_of_rows [])).
Proof.
  intros seasons result. subst result. rewrite build_draft_data_unfold.
  fold seasons. cbn [fst snd].
  pose proof (in_fetch_seasons seasons net) as Hfr.
  set (frames := fst (fetch_seasons seasons net)) in *.
  assert (Hempty : frames = [] <->
            forall s, In s seasons -> exists e, fetch_draft_class s (net s) = Raise e).
  { split.
    - intros Hnil s Hs. destruct (fetch_draft_class s (net s)) as [df|e] eqn:E;
        [|now exists e].
      assert (Hin : In df frames) by (apply Hfr; now exists s).
      rewrite Hnil in Hin. contradiction.
    - intros Hall. destruct frames as [|df fs] eqn:Ef; [reflexivity|].
      destruct (proj1 (Hfr df) (or_introl eq_refl)) as (s & Hs & Hf).
      destruct (Hall s Hs) as [e He]. congruence. }
  assert (Hcol : has_column "player_name" (concat_frames frames) = true <->
            exists s df, In s seasons /\ fetch_draft_class s (net s) = Return df /\
                         has_column "player_name" df = true).
  { rewrite has_column_concat. split.
    - intros (df & Hdf & Hc). apply Hfr in Hdf as (s & Hs & Hf).
      exists s, df. auto.
    - intros (s & df & Hs & Hf & Hc). exists df. split; [|assumption].
      apply Hfr. now exists s. }
  split; [|split; [|split]].
  - apply in_warned_seasons.
  - rewrite <- Hempty. destruct frames as [|df fs]; [tauto|].
    split; [|discriminate].
    destruct (has_column _ _); discriminate.
  - intros Hex. apply Hcol in Hex.
    destruct frames as [|df fs] eqn:Ef.
    + apply has_column_concat in Hex as (df & [] & _).
    + rewrite Hex. eexists. split; [reflexivity|].
      intros s df' r Hs Hf Hr. apply List.in_map. cbn [concat_frames df_rows].
      apply List.in_concat. exists (df_rows df'). split; [|assumption].
      apply List.in_map. apply Hfr. now exists s.
  - split.
    + intros Hkey. destruct frames as [|df fs] eqn:Ef; [discriminate|].
      destruct (has_column "player_name" (concat_frames (df :: fs))) eqn:Ec;
        [discriminate|].
      split.
      * destruct (proj1 (Hfr df) (or_introl eq_refl)) as (s & Hs & Hf).
        now exists s, df.
      * intros s df' Hs Hf.
        destruct (fetch_frame_shape _ _ _ Hf) as [Hc|[Hc Hr]].
        -- assert (Hyes : false = true); [|discriminate].
           apply Hcol. exists s, df'. repeat split; try assumption.
           apply has_column_spec. rewrite Hc. cbn. auto.
        -- destruct df' as [cols rows]. cbn in *. now subst.
    + intros [(s & df & Hs & Hf) Hall].
      destruct frames as [|df0 fs] eqn:Ef.
      * assert (Hin : In df []) by (apply Hfr; now exists s). contradiction.
      * destruct (has_column "player_name" (concat_frames (df0 :: fs))) eqn:Ec;
          [|reflexivity].
        destruct (proj1 Hcol eq_refl) as (s' & df' & Hs' & Hf' & Hc').
        rewrite (Hall s' df' Hs' Hf') in Hc'. discriminate.
Qed.

(** C9 at the failing input. The pages of 2019 and 2020 are served with a
    stats table that holds no pick row: each fetch returns the frame
    without rows and without columns, no season raises, and the build
    raises [KeyError] on the [player_name] column. With the frame the two
    other empty returns use, the same build completes. *)
Theorem build_draft_data_empty_tables_raise :
  fetch_draft_class 2019 (example_net 2019) = Return (frame_of_rows []) /\
  fetch_draft_class 2020 (example_net 2020) = Return (frame_of_rows []) /\
  build_draft_data 2019 2020 example_net = ([], Raise KeyError) /\
  has_column "player_name" (concat_frames [frame_of_rows []; frame_of_rows []]) = false /\
  has_column "player_name" (concat_frames [empty_draft_frame; empty_draft_frame]) = true.
Proof. repeat split; vm_compute; reflexivity. Qed.

End BuildDraftFacts.

(* ===================================================================== *)
(** * Part III. Further properties of the code                            *)
(* ===================================================================== *)

(** ** The retry loop of [bbr_draft.py] *)

Lemma request_attempts_outcome get : forall fuel attempt delay backoff,
  match snd (request_attempts fuel attempt delay backoff get) with
  | Return (Some page) =>
      exists i status, (attempt <= i < attempt + fuel)%nat /\
        get i = Responded status page /\
        status_ok status = true /\ status <> 429 /\
        forall j, (attempt <= j < i)%nat -> retried (get j) = true
  | Return None =>
      forall j, (attempt <= j < attempt + fuel)%nat -> retried (get j) = true
  | Raise e =>
      e = RequestException /\
      exists i, (attempt <= i < attempt + fuel)%nat /\
        get i = ConnectionFailed /\
        forall j, (attempt <= j < i)%nat -> retried (get j) = true
  end.
Proof.
  induction fuel as [|fuel IH]; intros attempt delay backoff.
  - cbn. intros j Hj. lia.
  - cbn [request_attempts].
    specialize (IH (S attempt) (py_min (delay * backoff) 8.0) backoff).
    assert (Hstep : forall st pg, get attempt = Responded st pg ->
              retried (get attempt) = true ->
              match snd (request_attempts fuel (S attempt)
                           (py_min (delay * backoff) 8.0) backoff get) with
              | Return (Some page) =>
                  exists i status, (attempt <= i < attempt + S fuel)%nat /\
                    get i = Responded status page /\
                    status_ok status = true /\ status <> 429 /\
                    forall j, (attempt <= j < i)%nat -> retried (get j) = true
              | Return None =>
                  forall j, (attempt <= j < attempt + S fuel)%nat ->
                    retried (get j) = true
              | Raise e =>
                  e = RequestException /\
                  exists i, (attempt <= i < attempt + S fuel)%nat /\
                    get i = ConnectionFailed /\
                    forall j, (attempt <= j < i)%nat -> retried (get j) = true
              end).
    { intros st pg Hget Hretry.
      assert (Hprefix : forall i, (S attempt <= i)%nat ->
                (forall j, (S attempt <= j < i)%nat -> retried (get j) = true) ->
                forall j, (attempt <= j < i)%nat -> retried (get j) = true).
      { intros i Hi Hall j Hj. destruct (Nat.eq_dec j attempt) as [->|Hne];
          [exact Hretry|apply Hall; lia]. }
      destruct (snd (request_attempts fuel (S attempt) _ backoff get))
        as [[page|]|e].
      - destruct IH as (i & status & Hi & Hgi & Hok & Hne & Hall).
        exists i, status. repeat split; try assumption; try lia.
        apply Hprefix; [lia|assumption].
      - intros j Hj. destruct (Nat.eq_dec j attempt) as [->|Hne];
          [exact Hretry|apply IH; lia].
      - destruct IH as (-> & i & Hi & Hgi & Hall). split; [reflexivity|].
        exists i. repeat split; try assumption; try lia.
        apply Hprefix; [lia|assumption]. }
    destruct (get attempt) as [|status page] eqn:Hget.
    + cbn [snd]. split; [reflexivity|]. exists attempt.
      split; [lia|]. split; [exact Hget|]. intros j Hj. lia.
    + destruct (status =? 429) eqn:E429.
      * cbn [snd]. apply (Hstep status page eq_refl). cbn. now rewrite E429.
      * destruct (status_ok status) eqn:Eok.
        -- cbn [snd]. exists attempt, status.
           split; [lia|]. split; [exact Hget|]. split; [exact Eok|].
           split; [intros ->; discriminate|]. intros j Hj. lia.
        -- cbn [snd]. apply (Hstep status page eq_refl). cbn.
           rewrite Eok. apply orb_true_r.
Qed.

Lemma request_attempts_ext get get' : forall fuel attempt delay backoff,
  (forall i, (attempt <= i < attempt + fuel)%nat -> get i = get' i) ->
  request_attempts fuel attempt delay backoff get =
  request_attempts fuel attempt delay backoff get'.
Proof.
  induction fuel as [|fuel IH]; intros attempt delay backoff Hsame; [reflexivity|].
  cbn [request_attempts]. rewrite <- (Hsame attempt) by lia.
  rewrite (IH (S attempt)) by (intros i Hi; apply Hsame; lia).
  reflexivity.
Qed.

Lemma request_with_retry_outcome_aux get :
  match snd (_request_with_retry get) with
  | Raise e => e = RequestException
  | Return _ => True
  end.
Proof.
  unfold _request_with_retry.
  pose proof (request_attempts_outcome get 6 0 1.5 1.5) as Hout.
  destruct (snd (request_attempts 6 0 1.5 1.5 get)) as [r|e]; [exact I|].
  apply Hout.
Qed.

(** X1. [_request_with_retry] returns the page of the first of its six
    requests that is answered with an [ok] status other than 429, every
    answer before it being one it retries; it returns [None] exactly when
    all six answers are retried; it raises exactly what a failed
    connection raises, at the first request that fails; and it never looks
    at a seventh answer. *)
Theorem request_with_retry_outcome (get : nat -> http_outcome) :
  match snd (_request_with_retry get) with
  | Return (Some page) =>
      exists i status, (i < 6)%nat /\ get i = Responded status page /\
        status_ok status = true /\ status <> 429 /\
        forall j, (j < i)%nat -> retried (get j) = true
  | Return None => forall j, (j < 6)%nat -> retried (get j) = true
  | Raise e =>
      e = RequestException /\
      exists i, (i < 6)%nat /\ get i = ConnectionFailed /\
        forall j, (j < i)%nat -> retried (get j) = true
  end /\
  (forall get', (forall i, (i < 6)%nat -> get i = get' i) ->
     _request_with_retry get = _request_with_retry get').
Proof.
  split.
  - unfold _request_with_retry.
    pose proof (request_attempts_outcome get 6 0 1.5 1.5) as Hout.
    destruct (snd (request_attempts 6 0 1.5 1.5 get)) as [[page|]|e].
    + destruct Hout as (i & status & Hi & Hg & Hok & Hne & Hall).
      exists i, status. repeat split; try assumption; try lia.
      intros j Hj. apply Hall. lia.
    + intros j Hj. apply Hout. lia.
    + destruct Hout as (-> & i & Hi & Hg & Hall). split; [reflexivity|].
      exists i. repeat split; try assumption; try lia.
      intros j Hj. apply Hall. lia.
  - intros get' Hsame. apply request_attempts_ext.
    intros i Hi. apply Hsame. lia.
Qed.

Lemma request_with_retry_outcome_witness :
  _request_with_retry (example_net 2016) =
  _request_with_retry (fun i => if (i <? 6)%nat then example_net 2016 i
                                else ConnectionFailed).
Proof.
  destruct (request_with_retry_outcome (example_net 2016)) as [_ Hext].
  apply Hext. intros i Hi. apply Nat.ltb_lt in Hi. now rewrite Hi.
Defined.

Lemma request_attempts_sleeps get : forall fuel attempt delay backoff,
  exists n, (n <= fuel)%nat /\
    fst (request_attempts fuel attempt delay backoff get) =
    List.firstn n (backoff_schedule fuel delay backoff) /\
    (n = fuel \/ exists i, (i = attempt + n - 1)%nat /\ (0 < n)%nat /\
                           retried (get i) = false).
Proof.
  induction fuel as [|fuel IH]; intros attempt delay backoff.
  - exists 0%nat. repeat split; auto.
  - cbn [request_attempts backoff_schedule].
    destruct (IH (S attempt) (py_min (delay * backoff) 8.0) backoff)
      as (n & Hn & Hfst & Hstop).
    assert (Hmore : exists n0, (n0 <= S fuel)%nat /\
      delay :: fst (request_attempts fuel (S attempt)
                      (py_min (delay * backoff) 8.0) backoff get) =
      List.firstn n0 (delay :: backoff_schedule fuel
                        (py_min (delay * backoff) 8.0) backoff) /\
      (n0 = S fuel \/ exists i, (i = attempt + n0 - 1)%nat /\ (0 < n0)%nat /\
                                retried (get i) = false)).
    { exists (S n). split; [lia|]. split; [cbn; now rewrite Hfst|].
      destruct Hstop as [->|(i & Hi & Hpos & Hr)]; [now left|right].
      exists i. repeat split; try assumption; lia. }
    assert (Hstop1 : retried (get attempt) = false -> forall tr,
      tr = [delay] ->
      exists n0, (n0 <= S fuel)%nat /\
      tr = List.firstn n0 (delay :: backoff_schedule fuel
                        (py_min (delay * backoff) 8.0) backoff) /\
      (n0 = S fuel \/ exists i, (i = attempt + n0 - 1)%nat /\ (0 < n0)%nat /\
                                retried (get i) = false)).
    { intros Hr tr ->. exists 1%nat. split; [lia|]. split; [reflexivity|].
      right. exists attempt. repeat split; try lia.
      exact Hr. }
    destruct (get attempt) as [|status page] eqn:Hget.
    + apply Hstop1; reflexivity.
    + destruct (status =? 429) eqn:E429; [exact Hmore|].
      destruct (status_ok status) eqn:Eok; [|exact Hmore].
      apply Hstop1; [|reflexivity]. cbn. now rewrite E429, Eok.
Qed.

(** X2. The delays [_request_with_retry] sleeps are the first [n] of
    1.5, 2.25, 3.375, 5.0625, 7.59375, 8.0 seconds, one before each of its
    [n <= 6] requests: it never sleeps more than 8 seconds at a time, nor
    more than six times. *)
Theorem request_with_retry_sleeps (get : nat -> http_outcome) :
  exists n, (n <= 6)%nat /\
    fst (_request_with_retry get) =
    List.firstn n [1.5; 2.25; 3.375; 5.0625; 7.59375; 8.0]%float /\
    (n = 6%nat \/ ((0 < n)%nat /\ retried (get (n - 1)%nat) = false)).
Proof.
  unfold _request_with_retry.
  destruct (request_attempts_sleeps get 6 0 1.5 1.5) as (n & Hn & Hfst & Hstop).
  exists n. split; [exact Hn|]. split.
  - rewrite Hfst. reflexivity.
  - destruct Hstop as [->|(i & -> & Hpos & Hr)]; [now left|right].
    split; [exact Hpos|exact Hr].
Qed.

(** ** The draft page parser *)

Lemma parse_tr_row season_end tr r :
  parse_tr season_end tr = Return (Some r) ->
  dp_season_end r = season_end /\
  tr_thead tr = false /\
  tr_pick tr = Some (Digits (dp_pick r)) /\
  exists cell href,
    tr_player tr = Some cell /\ player_href cell = Some (Some href) /\
    dp_player_name r = player_text cell /\
    dp_player_slug r = slug_of_href href.
Proof.
  unfold parse_tr. destruct (tr_thead tr); [discriminate|].
  destruct (tr_pick tr) as [[|n|]|]; try discriminate;
    destruct (tr_player tr) as [cell|]; try discriminate;
    destruct (player_href cell) as [[href|]|] eqn:Eh; try discriminate.
  intros [= <-]. cbn. repeat split. exists cell, href. auto.
Qed.

Lemma parse_rows_sound season_end trs : forall rows,
  parse_rows season_end trs = Return rows ->
  (List.length rows <= List.length trs)%nat /\
  forall r, In r rows ->
    exists tr, In tr trs /\ parse_tr season_end tr = Return (Some r).
Proof.
  induction trs as [|tr trs IH]; intros rows; cbn [parse_rows].
  - intros [= <-]. split; [cbn; lia|intros r []].
  - destruct (parse_tr season_end tr) as [row|e] eqn:Etr; cbn [bind];
      [|discriminate].
    destruct (parse_rows season_end trs) as [rows'|e]; cbn [bind];
      [|discriminate].
    destruct (IH rows' eq_refl) as [Hlen Hall].
    intros [= <-]. destruct row as [r0|].
    + split; [cbn; lia|]. intros r [<-|Hr].
      * exists tr. split; [now left|assumption].
      * destruct (Hall r Hr) as (tr' & Hin & Hp). exists tr'. split; [now right|assumption].
    + split; [cbn; lia|]. intros r Hr.
      destruct (Hall r Hr) as (tr' & Hin & Hp). exists tr'. split; [now right|assumption].
Qed.

Lemma fetch_returns_rows season_end get df :
  fetch_draft_class season_end get = Return df ->
  df_rows df = [] \/
  exists page table trs,
    snd (_request_with_retry get) = Return (Some page) /\
    stats_table page = Some table /\ tbody table = Some trs /\
    parse_rows season_end trs = Return (df_rows df).
Proof.
  unfold fetch_draft_class.
  destruct (snd (_request_with_retry get)) as [[page|]|e]; cbn [bind];
    try discriminate.
  - destruct (stats_table page) as [table|] eqn:Et.
    + destruct (tbody table) as [trs|] eqn:Eb; [|discriminate].
      destruct (parse_rows season_end trs) as [rows|e] eqn:Ep; cbn [bind];
        [|discriminate].
      intros [= <-]. right. exists page, table, trs. cbn. auto.
    + intros [= <-]. now left.
  - intros [= <-]. now left.
Qed.

Lemma fetch_draft_class_season season_end get df :
  fetch_draft_class season_end get = Return df ->
  forall r, In r (df_rows df) -> dp_season_end r = season_end.
Proof.
  intros Hf r Hr.
  destruct (fetch_returns_rows _ _ _ Hf) as [Hnil|(page & table & trs & _ & _ & _ & Hrows)].
  - rewrite Hnil in Hr. contradiction.
  - destruct (parse_rows_sound _ _ _ Hrows) as [_ Hall].
    destruct (Hall r Hr) as (tr & _ & Htr).
    now destruct (parse_tr_row _ _ _ Htr).
Qed.

(** X3. Every row of a frame [fetch_draft_class] returns carries the
    season asked for and comes from a [<tr>] of the stats table of the page
    served: one that is no header row, whose pick cell is made of digits
    with that value, and whose player cell has a link, the text of the
    cell being the name and the last path segment of the link, less
    [.html], the slug. There are no more rows than [<tr>]s. *)
Theorem fetch_draft_class_rows (season_end : Z) (get : nat -> http_outcome)
    (df : DraftFrame) :
  fetch_draft_class season_end get = Return df ->
  forall r, In r (df_rows df) ->
    dp_season_end r = season_end /\
    exists page table trs tr cell href,
      snd (_request_with_retry get) = Return (Some page) /\
      stats_table page = Some table /\ tbody table = Some trs /\
      (List.length (df_rows df) <= List.length trs)%nat /\
      In tr trs /\ tr_thead tr = false /\
      tr_pick tr = Some (Digits (dp_pick r)) /\
      tr_player tr = Some cell /\ player_href cell = Some (Some href) /\
      dp_player_name r = player_text cell /\
      dp_player_slug r = slug_of_href href.
Proof.
  intros Hf r Hr.
  destruct (fetch_returns_rows _ _ _ Hf) as [Hnil|(page & table & trs & Hp & Ht & Hb & Hrows)].
  - rewrite Hnil in Hr. contradiction.
  - destruct (parse_rows_sound _ _ _ Hrows) as [Hlen Hall].
    destruct (Hall r Hr) as (tr & Hin & Htr).
    destruct (parse_tr_row _ _ _ Htr) as (Hs & Hth & Hpick & cell & href & Hc & Hh & Hn & Hsl).
    split; [exact Hs|]. exists page, table, trs, tr, cell, href. auto 12.
Qed.

Lemma fetch_draft_class_rows_witness :
  exists df, fetch_draft_class 2016 (example_net 2016) = Return df /\
    forall r, In r (df_rows df) -> dp_season_end r = 2016.
Proof.
  eexists. split; [vm_compute; reflexivity|].
  intros r Hr.
  apply (fetch_draft_class_rows 2016 (example_net 2016) _ eq_refl r Hr).
Defined.

Lemma last_segment_from sep s : forall acc,
  Forall (fun c => c <> sep) s ->
  List.fold_left (fun acc c => if N.eqb c sep then [] else acc ++ [c]) s acc =
  acc ++ s.
Proof.
  induction s as [|c s IH]; intros acc Hs; cbn [List.fold_left].
  - now rewrite List.app_nil_r.
  - inversion Hs; subst. destruct (N.eqb_spec c sep); [contradiction|].
    rewrite IH by assumption. now rewrite <- List.app_assoc.
Qed.

Lemma last_segment_after sep dir s :
  Forall (fun c => c <> sep) s -> last_segment sep (dir ++ sep :: s) = s.
Proof.
  intros Hs. unfold last_segment. rewrite List.fold_left_app.
  cbn [List.fold_left]. rewrite N.eqb_refl. now apply last_segment_from.
Qed.

Lemma remove_substring_skip pat l : forall r,
  remove_substring pat (List.length l) (l ++ r) = remove_substring pat O r.
Proof.
  induction l as [|c l IH]; intros r; [reflexivity|].
  cbn [List.length List.app remove_substring]. apply IH.
Qed.

Lemma remove_html_suffix name :
  Forall (fun c => c <> 46%N) name ->
  remove_substring (str ".html") O (name ++ str ".html") = name.
Proof.
  induction 1 as [|c name Hc _ IH].
  - vm_compute. reflexivity.
  - cbn [List.app remove_substring].
    replace (starts_with (str ".html") (c :: name ++ str ".html")) with false.
    + now rewrite IH.
    + change (str ".html") with [46%N; 104%N; 116%N; 109%N; 108%N].
      cbn [starts_with]. destruct (N.eqb_spec 46 c); [congruence|reflexivity].
Qed.

(** X4. The slug is recovered from the link of a player page: a link that
    ends in [/name.html], where [name] holds no slash and no period, has
    the slug [name], whatever comes before the last slash. *)
Theorem slug_of_href_roundtrip (dir name : pystr) :
  Forall (fun c => c <> 47%N /\ c <> 46%N) name ->
  slug_of_href (dir ++ 47%N :: name ++ str ".html") = name.
Proof.
  intros Hname. unfold slug_of_href.
  rewrite last_segment_after.
  - apply remove_html_suffix. eapply List.Forall_impl; [|exact Hname].
    intros c [_ Hc]. exact Hc.
  - apply Forall_app. split.
    + eapply List.Forall_impl; [|exact Hname]. intros c [Hc _]. exact Hc.
    + repeat constructor; discriminate.
Qed.

Lemma slug_of_href_roundtrip_witness :
  slug_of_href (str "/players/s/simmobe01.html") = str "simmobe01".
Proof.
  apply (slug_of_href_roundtrip (str "/players/s") (str "simmobe01")).
  repeat constructor; discriminate.
Defined.

Lemma parse_rows_raise season_end trs : forall e,
  parse_rows season_end trs = Raise e ->
  exists tr, In tr trs /\ parse_tr season_end tr = Raise e.
Proof.
  induction trs as [|tr trs IH]; intros e; cbn [parse_rows]; [discriminate|].
  destruct (parse_tr season_end tr) as [row|e0] eqn:Etr; cbn [bind].
  - destruct (parse_rows season_end trs) as [rows'|e1]; cbn [bind];
      [discriminate|].
    intros [= <-]. destruct (IH e1 eq_refl) as (tr' & Hin & Hp).
    exists tr'. split; [now right|assumption].
  - intros [= <-]. exists tr. split; [now left|assumption].
Qed.

Lemma parse_tr_raise season_end tr e :
  parse_tr season_end tr = Raise e ->
  tr_thead tr = false /\
  exists cell, tr_player tr = Some cell /\
    ((e = KeyError /\ player_href cell = Some None /\
      (tr_pick tr = Some UnparsedDigits \/ exists n, tr_pick tr = Some (Digits n))) \/
     (e = ValueError /\ tr_pick tr = Some UnparsedDigits /\
      exists href, player_href cell = Some (Some href))).
Proof.
  unfold parse_tr. destruct (tr_thead tr); [discriminate|].
  destruct (tr_pick tr) as [[|n|]|]; try discriminate;
    destruct (tr_player tr) as [cell|]; try discriminate;
    destruct (player_href cell) as [[href|]|] eqn:Eh; try discriminate;
    intros [= <-]; split; try reflexivity; exists cell; split; try reflexivity.
  - left. split; [reflexivity|]. split; [exact Eh|]. right. now exists n.
  - right. split; [reflexivity|]. split; [reflexivity|]. now exists href.
  - left. split; [reflexivity|]. split; [exact Eh|]. now left.
Qed.

(** X5. [fetch_draft_class] raises in three cases only: a request fails to
    connect ([RequestException]), the stats table has no [<tbody>]
    ([AttributeError]), or some row that is no header row has a pick made
    of digits and a player link that lacks its [href] ([KeyError]) or
    digits that [int] refuses ([ValueError]). *)
Theorem fetch_draft_class_raises (season_end : Z) (get : nat -> http_outcome)
    (e : exn) :
  fetch_draft_class season_end get = Raise e ->
  (e = RequestException /\ snd (_request_with_retry get) = Raise RequestException) \/
  exists page table,
    snd (_request_with_retry get) = Return (Some page) /\
    stats_table page = Some table /\
    ((e = AttributeError /\ tbody table = None) \/
     exists trs tr cell,
       tbody table = Some trs /\ In tr trs /\ tr_thead tr = false /\
       tr_player tr = Some cell /\
       ((e = KeyError /\ player_href cell = Some None) \/
        (e = ValueError /\ tr_pick tr = Some UnparsedDigits))).
Proof.
  unfold fetch_draft_class.
  pose proof (request_with_retry_outcome_aux get) as Hreq.
  destruct (snd (_request_with_retry get)) as [[page|]|e0]; cbn [bind];
    try discriminate.
  - destruct (stats_table page) as [table|] eqn:Et; [|discriminate].
    intros Hf. right. exists page, table. split; [reflexivity|].
    split; [exact Et|].
    destruct (tbody table) as [trs|] eqn:Eb.
    + right. destruct (parse_rows season_end trs) as [rows|e1] eqn:Ep;
        cbn [bind] in Hf; [discriminate|]. injection Hf as <-.
      destruct (parse_rows_raise _ _ _ Ep) as (tr & Hin & Htr).
      destruct (parse_tr_raise _ _ _ Htr) as (Hth & cell & Hc & Hcase).
      exists trs, tr, cell.
      split; [reflexivity|]. split; [exact Hin|]. split; [exact Hth|].
      split; [exact Hc|].
      destruct Hcase as [(-> & Hh & _)|(-> & Hp & _)]; [now left|now right].
    + left. injection Hf as <-. now split.
  - intros [= <-]. left. subst e0. now split.
Qed.

Lemma fetch_draft_class_raises_witness :
  (RequestException = RequestException /\
   snd (_request_with_retry (example_net 2018)) = Raise RequestException) \/
  exists page table,
    snd (_request_with_retry (example_net 2018)) = Return (Some page) /\
    stats_table page = Some table /\
    ((RequestException = AttributeError /\ tbody table = None) \/
     exists trs tr cell,
       tbody table = Some trs /\ In tr trs /\ tr_thead tr = false /\
       tr_player tr = Some cell /\
       ((RequestException = KeyError /\ player_href cell = Some None) \/
        (RequestException = ValueError /\ tr_pick tr = Some UnparsedDigits))).
Proof.
  apply (fetch_draft_class_raises 2018 (example_net 2018) RequestException).
  vm_compute. reflexivity.
Defined.

(** ** Empty fetches and the draft build *)

Lemma retried_responded o :
  retried o = true ->
  exists status page, o = Responded status page /\
    (status = 429 \/ status_ok status = false).
Proof.
  destruct o as [|status page]; cbn; [discriminate|]. intros Hr.
  exists status, page. split; [reflexivity|].
  apply orb_true_iff in Hr as [Hr|Hr].
  - left. now apply Z.eqb_eq.
  - right. now apply negb_true_iff.
Qed.

(** X7. [fetch_draft_class] returns the frame with the five columns and no
    row, and does not raise, when its six requests are all answered with a
    429 or another status that is not [ok], and when the page it gets has
    no table with id [stats]. *)
Theorem fetch_draft_class_empty_returns (season_end : Z)
    (get : nat -> http_outcome) :
  ((forall i, (i < 6)%nat -> retried (get i) = true) ->
   fetch_draft_class season_end get = Return empty_draft_frame) /\
  (forall page,
     snd (_request_with_retry get) = Return (Some page) ->
     stats_table page = None ->
     fetch_draft_class season_end get = Return empty_draft_frame) /\
  df_rows empty_draft_frame = [] /\
  df_columns empty_draft_frame = DRAFT_COLUMNS.
Proof.
  split; [|split; [|split; reflexivity]].
  - intros Hall. apply fetch_after_exhaustion.
    intros i Hi. apply retried_responded, Hall, Hi.
  - intros page. apply fetch_without_table.
Qed.

Lemma fetch_draft_class_empty_returns_witness :
  fetch_draft_class 2017 (example_net 2017) = Return empty_draft_frame.
Proof.
  destruct (fetch_draft_class_empty_returns 2017 (example_net 2017)) as [Hex _].
  apply Hex. intros i Hi. reflexivity.
Defined.

Lemma fetch_seasons_flat seasons net :
  fst (fetch_seasons seasons net) =
    List.flat_map (fun s => match fetch_draft_class s (net s) with
                            | Return df => [df]
                            | Raise _ => []
                            end) seasons /\
  snd (fetch_seasons seasons net) =
    List.filter (fun s => match fetch_draft_class s (net s) with
                          | Return _ => false
                          | Raise _ => true
                          end) seasons.
Proof.
  induction seasons as [|s seasons [IH1 IH2]]; [split; reflexivity|].
  cbn [fetch_seasons List.flat_map List.filter].
  destruct (fetch_draft_class s (net s)) as [df|e]; cbn [fst snd List.app];
    rewrite IH1, IH2; split; reflexivity.
Qed.

Lemma py_range_empty a b : b <= a -> py_range a b = [].
Proof.
  intros Hle. unfold py_range.
  replace (Z.to_nat (b - a)) with 0%nat by lia. reflexivity.
Qed.

Lemma py_range_spec a b s : In s (py_range a b) <-> a <= s < b.
Proof.
  unfold py_range. rewrite List.in_map_iff. split.
  - intros (i & <- & Hi). apply List.in_seq in Hi. lia.
  - intros Hs. exists (Z.to_nat (s - a)). split; [lia|].
    apply List.in_seq. lia.
Qed.

Section BuildDraftAccounting.
Context `{UnicodeData}.

Lemma concat_rows_flat (seasons : list Z) (net : Z -> nat -> http_outcome) :
  List.map draft_row
    (df_rows (concat_frames
       (List.flat_map (fun s => match fetch_draft_class s (net s) with
                                | Return df => [df]
                                | Raise _ => []
                                end) seasons))) =
  List.flat_map (fun s => match fetch_draft_class s (net s) with
                          | Return df => List.map draft_row (df_rows df)
                          | Raise _ => []
                          end) seasons.
Proof.
  unfold concat_frames. cbn [df_rows].
  induction seasons as [|s seasons IH]; [reflexivity|].
  cbn [List.flat_map]. rewrite List.map_app, List.concat_app, List.map_app, IH.
  f_equal. destruct (fetch_draft_class s (net s)); cbn;
    [now rewrite List.app_nil_r|reflexivity].
Qed.

(** X8. [build_draft_data] asks for every draft year from the first to the
    last, in increasing order. The seasons it warns about are those whose
    fetch raised; when it completes, its table is, season after season,
    the rows of each frame returned, each with the canonical form of its
    player name. A range whose end is before its start raises
    [RuntimeError]. *)
Theorem build_draft_data_accounting (start_year end_year : Z)
    (net : Z -> nat -> http_outcome) :
  let seasons := py_range start_year (end_year + 1) in
  let result := build_draft_data start_year end_year net in
  (forall s, In s seasons <-> start_year <= s <= end_year) /\
  fst result =
    List.filter (fun s => match fetch_draft_class s (net s) with
                          | Return _ => false
                          | Raise _ => true
                          end) seasons /\
  (forall rows, snd result = Return rows ->
     rows = List.flat_map
              (fun s => match fetch_draft_class s (net s) with
                        | Return df => List.map draft_row (df_rows df)
                        | Raise _ => []
                        end) seasons /\
     forall row, In row rows ->
       start_year <= d_season_end row <= end_year /\
       d_canonical_name row = _canonicalize (PyStr (d_player_name row))) /\
  (end_year < start_year -> result = ([], Raise RuntimeError)).
Proof.
  intros seasons result. subst result. rewrite build_draft_data_unfold.
  fold seasons. cbn [fst snd].
  destruct (fetch_seasons_flat seasons net) as [Hfr Hw].
  assert (Hseasons : forall s, In s seasons <-> start_year <= s <= end_year).
  { intros s. subst seasons. rewrite py_range_spec. lia. }
  split; [exact Hseasons|]. split; [exact Hw|]. split.
  - intros rows Hrows.
    assert (Heq : rows = List.flat_map
              (fun s => match fetch_draft_class s (net s) with
                        | Return df => List.map draft_row (df_rows df)
                        | Raise _ => []
                        end) seasons).
    { destruct (fst (fetch_seasons seasons net)) as [|df fs] eqn:Ef;
        [discriminate|].
      destruct (has_column "player_name" (concat_frames (df :: fs)));
        [|discriminate].
      injection Hrows as <-.
      change (df_rows df ++ List.concat (List.map df_rows fs))
        with (df_rows (concat_frames (df :: fs))).
      rewrite Hfr. apply concat_rows_flat. }
    split; [exact Heq|]. intros row Hrow. rewrite Heq in Hrow.
    apply List.in_flat_map in Hrow as (s & Hs & Hrow).
    destruct (fetch_draft_class s (net s)) as [df|e] eqn:Ef; [|contradiction].
    apply List.in_map_iff in Hrow as (r & <- & Hr).
    split; [|reflexivity]. cbn [draft_row d_season_end].
    destruct (fetch_draft_class_season s (net s) df Ef r Hr).
    now apply Hseasons.
  - intros Hlt. subst seasons. rewrite py_range_empty by lia. reflexivity.
Qed.

End BuildDraftAccounting.

Lemma build_draft_data_accounting_witness :
  @build_draft_data latin_unicode 2020 2016 example_net = ([], Raise RuntimeError).
Proof.
  destruct (@build_draft_data_accounting latin_unicode 2020 2016 example_net)
    as (_ & _ & _ & Hempty).
  apply Hempty. lia.
Defined.

Section BuildDraftRaises.
Context `{UnicodeData}.

(** X6. [build_draft_data] never passes on what a fetch raised. It raises
    two exceptions only: [RuntimeError], when the fetch of every draft year
    of the range raised, and [KeyError], when some fetch returned and each
    fetch that returned gave the frame without rows and without columns.
    In every other case it returns a table. *)
Theorem build_draft_data_raises (start_year end_year : Z)
    (net : Z -> nat -> http_outcome) (e : exn) :
  snd (build_draft_data start_year end_year net) = Raise e ->
  (e = RuntimeError /\
   forall s, start_year <= s <= end_year ->
     exists e', fetch_draft_class s (net s) = Raise e') \/
  (e = KeyError /\
   (exists s, start_year <= s <= end_year /\
      fetch_draft_class s (net s) = Return (frame_of_rows [])) /\
   forall s df, start_year <= s <= end_year ->
     fetch_draft_class s (net s) = Return df -> df = frame_of_rows []).
Proof.
  intros Hraise.
  destruct (build_draft_data_resilient start_year end_year net)
    as (_ & Hrun & _ & Hkey).
  cbv zeta in Hrun, Hkey.
  assert (Hrange : forall s, start_year <= s <= end_year ->
            In s (py_range start_year (end_year + 1))).
  { intros s Hs. apply py_range_spec. lia. }
  assert (Hcases : e = RuntimeError \/ e = KeyError).
  { rewrite build_draft_data_unfold in Hraise. cbn [snd] in Hraise.
    destruct (fst (fetch_seasons _ net)) as [|df fs].
    - left. congruence.
    - destruct (has_column _ _); [discriminate|]. right. congruence. }
  destruct Hcases as [-> | ->]; [left|right]; (split; [reflexivity|]).
  - intros s Hs. apply (proj1 Hrun Hraise). now apply Hrange.
  - destruct (proj1 Hkey Hraise) as [(s & df & Hs & Hf) Hall]. split.
    + exists s. split; [apply py_range_spec in Hs; lia|].
      now rewrite <- (Hall s df Hs Hf).
    + intros s' df' Hs' Hf'. apply (Hall s' df'); [now apply Hrange|exact Hf'].
Qed.

End BuildDraftRaises.

Lemma build_draft_data_raises_witness :
  (KeyError = RuntimeError /\
   forall s, 2019 <= s <= 2020 ->
     exists e', fetch_draft_class s (example_net s) = Raise e') \/
  (KeyError = KeyError /\
   (exists s, 2019 <= s <= 2020 /\
      fetch_draft_class s (example_net s) = Return (frame_of_rows [])) /\
   forall s df, 2019 <= s <= 2020 ->
     fetch_draft_class s (example_net s) = Return df -> df = frame_of_rows []).
Proof.
  apply (@build_draft_data_raises latin_unicode 2019 2020 example_net KeyError).
  vm_compute. reflexivity.
Defined.

(** ** The lookups of the rookie-window join *)

Lemma find_app {A} (f : A -> bool) l1 l2 :
  List.find f (l1 ++ l2) =
  match List.find f l1 with Some a => Some a | None => List.find f l2 end.
Proof.
  induction l1 as [|a l1 IH]; [reflexivity|]. cbn.
  destruct (f a); [reflexivity|exact IH].
Qed.

Lemma to_dict_from {K V : Type} `{Countable K} (items : list (K * V)) :
  forall (m : gmap K V) k,
  List.fold_left (fun d kv => <[kv.1 := kv.2]> d) items m !! k =
  match List.find (fun kv => bool_decide (kv.1 = k)) (List.rev items) with
  | Some kv => Some kv.2
  | None => m !! k
  end.
Proof.
  induction items as [|[k0 v0] items IH]; intros m k; [reflexivity|].
  cbn [List.fold_left List.rev]. rewrite IH, find_app.
  destruct (List.find _ (List.rev items)) as [kv|]; [reflexivity|].
  cbn [List.find fst snd]. destruct (decide (k0 = k)) as [->|Hne].
  - rewrite bool_decide_eq_true_2 by reflexivity. apply lookup_insert_eq.
  - rewrite bool_decide_eq_false_2 by assumption. now apply lookup_insert_ne.
Qed.

Lemma find_key_none {K V : Type} `{EqDecision K} (k : K) (l : list (K * V)) :
  List.find (fun kv => bool_decide (kv.1 = k)) l = None <->
  forall v, ~ In (k, v) l.
Proof.
  split.
  - intros Hnone v Hin.
    apply (List.find_none _ _ Hnone) in Hin. cbn in Hin.
    now rewrite bool_decide_eq_true_2 in Hin.
  - intros Hall. destruct (List.find _ l) as [[k' v']|] eqn:E; [|reflexivity].
    apply List.find_some in E as [Hin Hk]. apply bool_decide_eq_true in Hk.
    cbn in Hk. subst. now apply Hall in Hin.
Qed.

(** X9. A lookup built by [to_dict] holds, under each key, the value of the
    last row that has the key, and nothing under a key no row has: when
    the war table has two rows for one (player_slug, season_end), only
    the later one enters [war_first4]. *)
Theorem to_dict_last_wins {K V : Type} `{Countable K}
    (before after : list (K * V)) (k : K) (v : V) :
  ((forall v', ~ In (k, v') after) ->
   to_dict (before ++ (k, v) :: after) !! k = Some v) /\
  ((forall v', ~ In (k, v') (before ++ after)) ->
   to_dict (before ++ after) !! k = None) /\
  (forall (war : list WarRecord) (w : WarRecord),
     war_lookup (war ++ [w]) !! (w_player_slug w, w_season_end w) =
     Some (w_war w)).
Proof.
  assert (Hlast : forall (K' V' : Type) (E : EqDecision K') (C : Countable K')
            (l1 l2 : list (K' * V')) k' v',
            (forall x, ~ In (k', x) l2) ->
            to_dict (l1 ++ (k', v') :: l2) !! k' = Some v').
  { intros K' V' E C l1 l2 k' v' Hafter. unfold to_dict. rewrite to_dict_from.
    rewrite List.rev_app_distr. cbn [List.rev]. rewrite <- List.app_assoc.
    rewrite find_app.
    replace (List.find (fun kv => bool_decide (kv.1 = k')) (List.rev l2))
      with (@None (K' * V')).
    - cbn [List.app List.find fst snd].
      now rewrite bool_decide_eq_true_2.
    - symmetry. apply find_key_none. intros x Hin.
      apply List.in_rev in Hin. now apply Hafter in Hin. }
  split; [apply Hlast|]. split.
  - intros Hnone. unfold to_dict. rewrite to_dict_from.
    replace (List.find _ (List.rev (before ++ after))) with (@None (K * V));
      [apply lookup_empty|].
    symmetry. apply find_key_none. intros x Hin.
    apply List.in_rev in Hin. now apply Hnone in Hin.
  - intros war w. unfold war_lookup. rewrite List.map_app. cbn [List.map].
    apply Hlast. intros x [].
Qed.

Lemma to_dict_last_wins_witness :
  war_lookup (example_war ++
    [ {| w_player_slug := str "simmobe01"; w_player_name := str "Ben Simmons";
         w_canonical_name := str "ben simmons"; w_season_end := 2018;
         w_war := 1.0 |} ]) !! (str "simmobe01", 2018) = Some 1.0%float.
Proof.
  destruct (@to_dict_last_wins (pystr * Z) float _ _ [] []
              (str "simmobe01", 2018) 1.0%float) as (_ & _ & Hwar).
  apply (Hwar example_war
    {| w_player_slug := str "simmobe01"; w_player_name := str "Ben Simmons";
       w_canonical_name := str "ben simmons"; w_season_end := 2018;
       w_war := 1.0 |}).
Defined.

(** ** From the join to the pick costs *)

Lemma rookie_window_empty Y N : N <= 0 -> rookie_window Y N = [].
Proof.
  intros HN. unfold rookie_window. replace (Z.to_nat N) with 0%nat by lia.
  reflexivity.
Qed.

Lemma pick_outcome_war wl sl N pk :
  war_first4 (pick_outcome wl sl N pk) =
  fsum (List.map (fun s => dict_get wl (d_player_slug pk, s) 0.0%float)
          (rookie_window (d_season_end pk) N)).
Proof.
  unfold pick_outcome. rewrite py_range_window, fold_add_season. reflexivity.
Qed.

(** X10. A pick for which the war table has no row in its rookie window,
    and every pick when the window has no season ([rookie_years <= 0]),
    gets [war_first4 = 0.0]; [prepare_pick_costs] then leaves it out, so it
    never reaches a bucket. *)
Theorem picks_without_war_are_dropped
    (draft : list DraftRow) (war : list WarRecord)
    (salary : list SalaryRecord) (N : Z) (pk : DraftRow) :
  (N <= 0 \/
   forall s, d_season_end pk + 1 <= s <= d_season_end pk + N ->
     war_lookup war !! (d_player_slug pk, s) = None) ->
  let outcome := pick_outcome (war_lookup war) (salary_lookup salary) N pk in
  war_first4 outcome = 0.0%float /\
  forall row, In row (prepare_pick_costs (build_pick_outcomes draft war salary N)) ->
    outcome_of row <> outcome.
Proof.
  intros Hno outcome.
  assert (Hzero : war_first4 outcome = 0.0%float).
  { subst outcome. rewrite pick_outcome_war. apply fsum_zeros.
    apply List.Forall_forall. intros x Hx.
    apply List.in_map_iff in Hx as (s & <- & Hs).
    destruct Hno as [HN|Habs].
    - rewrite rookie_window_empty in Hs by assumption. contradiction.
    - apply dict_get_absent, Habs. now apply in_rookie_window. }
  split; [exact Hzero|]. intros row Hrow Heq.
  apply in_prepare_pick_costs in Hrow as (p & _ & Hpos & ->).
  cbn [outcome_of pick_cost] in Heq. rewrite Heq, Hzero in Hpos. discriminate.
Qed.

Lemma picks_without_war_are_dropped_witness :
  war_first4
    (pick_outcome (war_lookup example_war) (salary_lookup example_salary) 0
       {| d_season_end := 2016; d_pick := 1; d_team := str "PHI";
          d_player_name := str "Ben Simmons";
          d_player_slug := str "simmobe01";
          d_canonical_name := str "ben simmons" |}) = 0.0%float.
Proof.
  apply (picks_without_war_are_dropped example_draft example_war
           example_salary 0).
  left. lia.
Defined.

(** ** The shape of the bucket table *)

Lemma group_of_cons p picks b :
  group_of (p :: picks) b =
  if bool_decide (bucket p = b) then p :: group_of picks b else group_of picks b.
Proof. reflexivity. Qed.

Lemma group_sizes picks :
  list_sum (List.map (fun b => List.length (group_of picks b)) ORDER) =
  List.length picks.
Proof.
  induction picks as [|p picks IH]; [reflexivity|].
  cbn [ORDER List.map list_sum] in *. rewrite !group_of_cons.
  destruct (bucket p);
    repeat match goal with
    | |- context [bool_decide (?a = ?b)] =>
        first [ rewrite (bool_decide_eq_true_2 (a = b)) by reflexivity
              | rewrite (bool_decide_eq_false_2 (a = b)) by discriminate ]
    end; cbn [List.length]; unfold list_sum in *;
    cbn [foldr List.fold_right] in *; lia.
Qed.

Lemma group_of_nonempty picks b :
  group_of picks b <> [] <-> exists p, In p picks /\ bucket p = b.
Proof.
  unfold group_of. split.
  - intros Hne. destruct (List.filter _ picks) as [|p g] eqn:E; [congruence|].
    assert (Hin : In p (List.filter (fun p => bool_decide (bucket p = b)) picks))
      by (rewrite E; now left).
    apply List.filter_In in Hin as [Hin Hb]. apply bool_decide_eq_true in Hb.
    now exists p.
  - intros (p & Hin & Hb) Hnil.
    assert (Hp : In p (List.filter (fun p => bool_decide (bucket p = b)) picks))
      by (apply List.filter_In; split; [assumption|now apply bool_decide_eq_true]).
    rewrite Hnil in Hp. contradiction.
Qed.

Lemma ORDER_complete b : In b ORDER.
Proof. destruct b; cbn; auto 10. Qed.

Lemma ORDER_NoDup : List.NoDup ORDER.
Proof. repeat constructor; cbn; intuition discriminate. Qed.

Lemma NoDup_filter_list {A} (f : A -> bool) l :
  List.NoDup l -> List.NoDup (List.filter f l).
Proof.
  induction 1 as [|a l Ha _ IH]; cbn; [constructor|].
  destruct (f a); [constructor|]; auto.
  intros Hin. apply List.filter_In in Hin as [Hin _]. contradiction.
Qed.

(** X11. The bucket table has one row for each bucket that holds a pick
    and none for the others, in the order 01-05, ..., 46-60: at most six
    rows, no bucket twice, no row from an empty table of picks; and every
    pick is counted in exactly one bucket. *)
Theorem build_bucket_table_buckets `{Pandas}
    (picks : list PickCost) (band : Band) :
  let table := build_bucket_table picks band in
  List.map br_bucket table =
    List.filter (fun b => List.existsb (fun p => bool_decide (bucket p = b)) picks)
      ORDER /\
  (forall b, In b (List.map br_bucket table) <->
     exists p, In p picks /\ bucket p = b) /\
  List.NoDup (List.map br_bucket table) /\
  (List.length table <= 6)%nat /\
  (picks = [] -> table = []) /\
  list_sum (List.map (fun b => List.length (group_of picks b)) ORDER) =
    List.length picks.
Proof.
  intros table.
  assert (Hfilter : forall b,
    negb (bool_decide (group_of picks b = [])) =
    List.existsb (fun p => bool_decide (bucket p = b)) picks).
  { intros b. destruct (List.existsb _ picks) eqn:E.
    - apply List.existsb_exists in E as (p & Hin & Hb).
      apply bool_decide_eq_true in Hb. apply negb_true_iff, bool_decide_eq_false.
      apply group_of_nonempty. now exists p.
    - apply negb_false_iff, bool_decide_eq_true.
      destruct (group_of picks b) as [|p g] eqn:Eg; [reflexivity|].
      assert (Hne : group_of picks b <> []) by (rewrite Eg; discriminate).
      apply group_of_nonempty in Hne as (q & Hin & Hb).
      assert (Hex : List.existsb (fun p => bool_decide (bucket p = b)) picks = true)
        by (apply List.existsb_exists; exists q; split;
            [assumption|now apply bool_decide_eq_true]).
      congruence. }
  assert (Hmap : List.map br_bucket table =
    List.filter (fun b => List.existsb (fun p => bool_decide (bucket p = b)) picks)
      ORDER).
  { subst table. unfold build_bucket_table. rewrite List.map_map. cbn [br_bucket bucket_row].
    rewrite List.map_id. apply List.filter_ext, Hfilter. }
  split; [exact Hmap|]. split; [|split; [|split; [|split]]].
  - intros b. rewrite Hmap, List.filter_In, List.existsb_exists. split.
    + intros [_ (p & Hin & Hb)]. apply bool_decide_eq_true in Hb. now exists p.
    + intros (p & Hin & Hb). split; [apply ORDER_complete|].
      exists p. split; [assumption|now apply bool_decide_eq_true].
  - rewrite Hmap. apply NoDup_filter_list, ORDER_NoDup.
  - rewrite <- (List.length_map br_bucket), Hmap.
    etransitivity; [apply List.filter_length_le|]. cbn. lia.
  - intros ->. reflexivity.
  - apply group_sizes.
Qed.

Lemma build_bucket_table_buckets_witness :
  List.map br_bucket
    (@build_bucket_table textbook_pandas
       (prepare_pick_costs example_outcomes) example_band) = [B01_05; B31_45]
  /\ @build_bucket_table textbook_pandas [] example_band = [].
Proof.
  destruct (@build_bucket_table_buckets textbook_pandas
              (prepare_pick_costs example_outcomes) example_band) as (Hmap & _).
  destruct (@build_bucket_table_buckets textbook_pandas [] example_band)
    as (_ & _ & _ & _ & Hnil & _).
  split; [rewrite Hmap; vm_compute; reflexivity|apply Hnil; reflexivity].
Defined.

(** ** NaN in the zone rule *)

Lemma ltb_nan_l (x y : float) : is_nan x = true -> (x <? y)%float = false.
Proof.
  rewrite is_nan_spec, FloatAxioms.ltb_spec.
  destruct (Prim2SF x); cbn; congruence.
Qed.

Lemma ltb_nan_r (x y : float) : is_nan y = true -> (x <? y)%float = false.
Proof.
  rewrite is_nan_spec, FloatAxioms.ltb_spec.
  destruct (Prim2SF x) as [[]|[]| |[] ? ?], (Prim2SF y); cbn; congruence.
Qed.

Lemma mul_nan_l (x y : float) : is_nan x = true -> is_nan (x * y)%float = true.
Proof.
  rewrite !is_nan_spec, mul_spec.
  destruct (Prim2SF x); cbn; congruence.
Qed.

(** X12. The zone rule answers NEUTRAL whenever a comparison cannot be
    made: for a bucket whose median is NaN under any band, and for every
    median under a band whose quartiles are NaN (the band of an empty
    market). *)
Theorem zone_nan_is_neutral (band : Band) (m : float) :
  (is_nan m = true -> zone band m = NEUTRAL) /\
  (is_nan (q25 band) = true -> is_nan (q75 band) = true ->
   zone band m = NEUTRAL).
Proof.
  split.
  - intros Hm. unfold zone. now rewrite (ltb_nan_l m), (ltb_nan_r _ m).
  - intros H25 H75. unfold zone.
    rewrite (ltb_nan_r m) by now apply mul_nan_l.
    now rewrite (ltb_nan_l _ m) by now apply mul_nan_l.
Qed.

Lemma zone_nan_is_neutral_witness :
  zone example_band nan = NEUTRAL /\
  zone {| q25 := nan; q50 := nan; q75 := nan |} 2000000 = NEUTRAL.
Proof.
  split.
  - exact (proj1 (zone_nan_is_neutral example_band nan) eq_refl).
  - exact (proj2 (zone_nan_is_neutral {| q25 := nan; q50 := nan; q75 := nan |}
                    2000000) eq_refl eq_refl).
Defined.

(** ** What the reconciled salary is *)

(** X13. Under each key the reconciled table holds the largest salary
    reported for it, NaN cells aside: a number that is the salary of one
    of the rows of the key and is at least every other number reported
    for the key, or NaN when every row of the key is NaN; and it holds a
    key exactly when some row has it. The keys of [load_salary_data] lie
    in the season range asked for. *)
Theorem groupby_max_is_maximum `{UnicodeData}
    (rows : list ((pystr * Z) * float)) (k : pystr * Z) :
  (groupby_max rows !! k = None <-> forall x, ~ In (k, x) rows) /\
  (forall v, groupby_max rows !! k = Some v ->
     (is_nan v = true /\ forall x, In (k, x) rows -> is_nan x = true) \/
     (is_nan v = false /\ In (k, v) rows /\
      forall x, In (k, x) rows -> is_nan x = false -> (x <=? v)%float = true)) /\
  (forall csv start_season end_season name season v,
     load_salary_data csv start_season end_season !! (name, season) = Some v ->
     start_season <= season <= end_season).
Proof.
  split; [|split].
  - rewrite groupby_lookup.
    pose proof (fold_max_spec (group_values k rows)) as Hs.
    destruct (List.fold_left _ (group_values k rows) None) as [v|].
    + destruct Hs as [Hne _]. split; [discriminate|]. intros Hall. exfalso.
      destruct (group_values k rows) as [|x vs] eqn:E; [congruence|].
      apply (Hall x). apply in_group_values. rewrite E. now left.
    + split; [|reflexivity]. intros _ x Hin.
      apply in_group_values in Hin. now rewrite Hs in Hin.
  - intros v. rewrite groupby_lookup. intros Hv.
    pose proof (fold_max_spec (group_values k rows)) as Hs. rewrite Hv in Hs.
    destruct Hs as [_ [[Hn Hall]|(Hn & Hin & Hle)]]; [left|right].
    + split; [exact Hn|]. intros x Hx. now apply Hall, in_group_values.
    + split; [exact Hn|]. split; [now apply in_group_values|].
      intros x Hx. now apply Hle, in_group_values.
  - intros csv s e name season v. apply load_salary_data_season.
Qed.

Lemma groupby_max_is_maximum_witness :
  (is_nan 6434520 = true /\
   forall x, In ((str "ben simmons", 2018), x) example_salary_rows ->
     is_nan x = true) \/
  (is_nan 6434520 = false /\
   In ((str "ben simmons", 2018), 6434520%float) example_salary_rows /\
   forall x, In ((str "ben simmons", 2018), x) example_salary_rows ->
     is_nan x = false -> (x <=? 6434520)%float = true).
Proof.
  destruct (@groupby_max_is_maximum latin_unicode example_salary_rows
              (str "ben simmons", 2018)) as (_ & Hmax & _).
  apply Hmax. vm_compute. reflexivity.
Defined.

(** ** The salary market *)

Lemma in_build_salary_market war salary r :
  In r (build_salary_market war salary) <->
  exists w s, In w war /\ In s salary /\
    s_canonical_name s = w_canonical_name w /\
    s_season_end s = w_season_end w /\
    (0 <? w_war w)%float = true /\ r = joined w s.
Proof.
  unfold build_salary_market, merge_inner.
  rewrite List.filter_In, List.in_flat_map. split.
  - intros [(w & Hw & Hr) Hpos].
    apply List.in_map_iff in Hr as (s & <- & Hs).
    apply List.filter_In in Hs as [Hs Hkey].
    apply andb_true_iff in Hkey as [Hname Hseason].
    apply bool_decide_eq_true in Hname. apply Z.eqb_eq in Hseason.
    exists w, s. auto 8.
  - intros (w & s & Hw & Hs & Hname & Hseason & Hpos & ->).
    split; [|exact Hpos]. exists w. split; [exact Hw|].
    apply List.in_map, List.filter_In. split; [exact Hs|].
    unfold same_key. rewrite bool_decide_eq_true_2 by assumption.
    now apply Z.eqb_eq.
Qed.

Lemma filter_unique_key {A} (f : A -> bool) (l : list A) :
  (forall a b, In a l -> In b l -> f a = true -> f b = true -> a = b) ->
  List.NoDup l ->
  List.filter f l = match List.find f l with Some a => [a] | None => [] end.
Proof.
  induction l as [|a l IH]; intros Huniq Hnd; [reflexivity|].
  inversion Hnd as [|? ? Ha Hnd']; subst. cbn [List.filter List.find].
  destruct (f a) eqn:Ea.
  - f_equal. destruct (List.filter f l) as [|b l'] eqn:Ef; [reflexivity|].
    assert (Hb : In b (List.filter f l)) by (rewrite Ef; now left).
    apply List.filter_In in Hb as [Hb Hfb].
    assert (a = b) by (apply Huniq; cbn; auto). subst. contradiction.
  - apply IH; [|assumption]. intros x y Hx Hy. apply Huniq; now right.
Qed.

Lemma salary_records_key (m : gmap (pystr * Z) float) (w : WarRecord) :
  List.filter (same_key w) (salary_records m) =
  match m !! (w_canonical_name w, w_season_end w) with
  | Some sal => [ {| s_canonical_name := w_canonical_name w;
                     s_season_end := w_season_end w;
                     s_salary := sal |} ]
  | None => []
  end.
Proof.
  assert (Hin : forall s, In s (salary_records m) <->
            m !! (s_canonical_name s, s_season_end s) = Some (s_salary s)).
  { intros s. unfold salary_records. rewrite List.in_map_iff. split.
    - intros ([[name season] v] & <- & Hkv). cbn.
      apply elem_of_map_to_list. now apply list_elem_of_In.
    - intros Hs. exists ((s_canonical_name s, s_season_end s), s_salary s).
      split; [now destruct s|].
      apply list_elem_of_In. now apply elem_of_map_to_list. }
  assert (Hkey : forall s, same_key w s = true <->
            s_canonical_name s = w_canonical_name w /\
            s_season_end s = w_season_end w).
  { intros s. unfold same_key.
    rewrite andb_true_iff, bool_decide_eq_true, Z.eqb_eq. tauto. }
  rewrite filter_unique_key.
  - destruct (List.find (same_key w) (salary_records m)) as [s|] eqn:Ef.
    + apply List.find_some in Ef as [Hs Hk].
      apply Hkey in Hk as [Hname Hseason]. apply Hin in Hs.
      rewrite Hname, Hseason in Hs. rewrite Hs.
      destruct s; cbn in *; now subst.
    + destruct (m !! (w_canonical_name w, w_season_end w)) as [sal|] eqn:Em;
        [|reflexivity].
      exfalso.
      pose (s := {| s_canonical_name := w_canonical_name w;
                    s_season_end := w_season_end w; s_salary := sal |}).
      assert (Hs : In s (salary_records m)) by (apply Hin; exact Em).
      apply (List.find_none _ _ Ef) in Hs.
      assert (same_key w s = true) by (apply Hkey; split; reflexivity).
      congruence.
  - intros a b Ha Hb Hka Hkb. apply Hin in Ha, Hb.
    apply Hkey in Hka as [Ha1 Ha2], Hkb as [Hb1 Hb2].
    rewrite Ha1, Ha2 in Ha. rewrite Hb1, Hb2 in Hb.
    destruct a, b; cbn in *; subst. congruence.
  - unfold salary_records. apply List.NoDup_map_NoDup_ForallPairs.
    + intros [k1 v1] [k2 v2] H1 H2 Heq. injection Heq as Hn Hs Hv.
      destruct k1, k2; cbn in *; now subst.
    + apply NoDup_ListNoDup, NoDup_map_to_list.
Qed.

(** X14. A row of the market pairs a war row of positive war with a salary
    row of the same canonical name and season, and every such pair gives a
    row: the match is on the canonical name, not on the player, so two
    players whose names canonicalise alike in a season each get every
    salary reported under that name. With the reconciled salaries of
    [load_salary_data] a war row gives at most one row, the one with the
    salary the table holds under its key, and the market keeps the order
    of the war table. *)
Theorem build_salary_market_rows (war : list WarRecord) :
  (forall salary r, In r (build_salary_market war salary) <->
     exists w s, In w war /\ In s salary /\
       s_canonical_name s = w_canonical_name w /\
       s_season_end s = w_season_end w /\
       (0 <? w_war w)%float = true /\ r = joined w s) /\
  (forall salary w1 w2 s, In w1 war -> In w2 war -> In s salary ->
     w_canonical_name w1 = s_canonical_name s ->
     w_canonical_name w2 = s_canonical_name s ->
     w_season_end w1 = s_season_end s -> w_season_end w2 = s_season_end s ->
     (0 <? w_war w1)%float = true -> (0 <? w_war w2)%float = true ->
     In (joined w1 s) (build_salary_market war salary) /\
     In (joined w2 s) (build_salary_market war salary)) /\
  (forall m : gmap (pystr * Z) float,
     build_salary_market war (salary_records m) =
     List.flat_map
       (fun w => match m !! (w_canonical_name w, w_season_end w) with
                 | Some sal =>
                     if (0 <? w_war w)%float
                     then [ joined w {| s_canonical_name := w_canonical_name w;
                                        s_season_end := w_season_end w;
                                        s_salary := sal |} ]
                     else []
                 | None => []
                 end) war /\
     (List.length (build_salary_market war (salary_records m)) <=
      List.length war)%nat).
Proof.
  split; [|split].
  - intros salary r. apply in_build_salary_market.
  - intros salary w1 w2 s H1 H2 Hs Hn1 Hn2 Hs1 Hs2 Hp1 Hp2.
    split; apply in_build_salary_market.
    + exists w1, s. auto 8.
    + exists w2, s. auto 8.
  - intros m.
    assert (Heq : build_salary_market war (salary_records m) =
      List.flat_map
       (fun w => match m !! (w_canonical_name w, w_season_end w) with
                 | Some sal =>
                     if (0 <? w_war w)%float
                     then [ joined w {| s_canonical_name := w_canonical_name w;
                                        s_season_end := w_season_end w;
                                        s_salary := sal |} ]
                     else []
                 | None => []
                 end) war).
    { unfold build_salary_market, merge_inner.
      induction war as [|w war IH]; [reflexivity|].
      cbn [List.flat_map]. rewrite List.filter_app, IH. f_equal.
      rewrite salary_records_key.
      destruct (m !! (w_canonical_name w, w_season_end w)); reflexivity. }
    split; [exact Heq|]. rewrite Heq. clear Heq.
    induction war as [|w war IH]; [cbn; lia|].
    cbn [List.flat_map]. rewrite List.length_app. cbn [List.length].
    destruct (m !! (w_canonical_name w, w_season_end w));
      [destruct (0 <? w_war w)%float|]; cbn [List.length]; lia.
Qed.

Lemma build_salary_market_rows_witness :
  In (joined
        {| w_player_slug := str "simmobe01"; w_player_name := str "Ben Simmons";
           w_canonical_name := str "ben simmons"; w_season_end := 2018;
           w_war := 8.5 |}
        {| s_canonical_name := str "ben simmons"; s_season_end := 2018;
           s_salary := 6434520 |})
     (build_salary_market
        [ {| w_player_slug := str "simmobe01"; w_player_name := str "Ben Simmons";
             w_canonical_name := str "ben simmons"; w_season_end := 2018;
             w_war := 8.5 |};
          {| w_player_slug := str "simmobe02"; w_player_name := str "Ben Simmons Jr.";
             w_canonical_name := str "ben simmons"; w_season_end := 2018;
             w_war := 0.5 |} ]
        [ {| s_canonical_name := str "ben simmons"; s_season_end := 2018;
             s_salary := 6434520 |} ]) /\
  In (joined
        {| w_player_slug := str "simmobe02"; w_player_name := str "Ben Simmons Jr.";
           w_canonical_name := str "ben simmons"; w_season_end := 2018;
           w_war := 0.5 |}
        {| s_canonical_name := str "ben simmons"; s_season_end := 2018;
           s_salary := 6434520 |})
     (build_salary_market
        [ {| w_player_slug := str "simmobe01"; w_player_name := str "Ben Simmons";
             w_canonical_name := str "ben simmons"; w_season_end := 2018;
             w_war := 8.5 |};
          {| w_player_slug := str "simmobe02"; w_player_name := str "Ben Simmons Jr.";
             w_canonical_name := str "ben simmons"; w_season_end := 2018;
             w_war := 0.5 |} ]
        [ {| s_canonical_name := str "ben simmons"; s_season_end := 2018;
             s_salary := 6434520 |} ]).
Proof.
  destruct (build_salary_market_rows
    [ {| w_player_slug := str "simmobe01"; w_player_name := str "Ben Simmons";
         w_canonical_name := str "ben simmons"; w_season_end := 2018;
         w_war := 8.5 |};
      {| w_player_slug := str "simmobe02"; w_player_name := str "Ben Simmons Jr.";
         w_canonical_name := str "ben simmons"; w_season_end := 2018;
         w_war := 0.5 |} ]) as (_ & Hshare & _).
  apply Hshare; cbn; auto.
Defined.

(** ** The reconciled salaries in the rookie-window join *)

Lemma to_dict_map_to_list {K V : Type} `{Countable K} (m : gmap K V) :
  to_dict (map_to_list m) = m.
Proof.
  apply map_eq. intros k. unfold to_dict. rewrite to_dict_from, lookup_empty.
  destruct (List.find _ (List.rev (map_to_list m))) as [[k' v]|] eqn:Ef.
  - apply List.find_some in Ef as [Hin Hk]. apply bool_decide_eq_true in Hk.
    cbn in Hk. subst k'. apply List.in_rev in Hin. cbn [snd]. symmetry.
    apply elem_of_map_to_list. now apply list_elem_of_In.
  - destruct (m !! k) as [v|] eqn:Em; [|reflexivity]. exfalso.
    apply (proj1 (find_key_none k _) Ef v). apply List.in_rev.
    rewrite List.rev_involutive.
    apply list_elem_of_In. now apply elem_of_map_to_list.
Qed.

Lemma salary_lookup_records (m : gmap (pystr * Z) float) :
  salary_lookup (salary_records m) = m.
Proof.
  unfold salary_lookup, salary_records. rewrite List.map_map. cbn [s_canonical_name s_season_end s_salary].
  rewrite (List.map_ext _ (fun kv => kv)) by (now intros [[name season] v]).
  rewrite List.map_id. apply to_dict_map_to_list.
Qed.

Lemma pick_outcome_cost wl sl N pk :
  cost_first4 (pick_outcome wl sl N pk) =
  fsum (List.map (fun s => dict_get sl (d_canonical_name pk, s) 0.0%float)
          (rookie_window (d_season_end pk) N)).
Proof.
  unfold pick_outcome. rewrite py_range_window, fold_add_season. reflexivity.
Qed.

(** X15. When [build_pick_outcomes] is given the table [load_salary_data]
    returns, its salary lookup is that table: [cost_first4] adds, for each
    season of the rookie window, the largest salary reported under the
    canonical name of the pick, and 0.0 for a season outside the salary
    range; a pick whose whole window lies outside the range costs 0.0. *)
Theorem reconciled_salary_in_join `{UnicodeData} (csv : SalaryCsv)
    (start_season end_season : Z) (wl : gmap (pystr * Z) float) (N : Z)
    (pk : DraftRow) :
  let salary := load_salary_data csv start_season end_season in
  let outcome := pick_outcome wl (salary_lookup (salary_records salary)) N pk in
  salary_lookup (salary_records salary) = salary /\
  cost_first4 outcome =
    fsum (List.map (fun s => dict_get salary (d_canonical_name pk, s) 0.0%float)
            (rookie_window (d_season_end pk) N)) /\
  (forall s, ~ start_season <= s <= end_season ->
     dict_get salary (d_canonical_name pk, s) 0.0%float = 0.0%float) /\
  (d_season_end pk + N < start_season \/ end_season <= d_season_end pk ->
   cost_first4 outcome = 0.0%float).
Proof.
  intros salary outcome.
  assert (Hout : forall s, ~ start_season <= s <= end_season ->
            dict_get salary (d_canonical_name pk, s) 0.0%float = 0.0%float).
  { intros s Hs. apply dict_get_absent.
    destruct (salary !! (d_canonical_name pk, s)) as [v|] eqn:Ev; [|reflexivity].
    exfalso. apply Hs. eapply load_salary_data_season. exact Ev. }
  assert (Hcost : cost_first4 outcome =
    fsum (List.map (fun s => dict_get salary (d_canonical_name pk, s) 0.0%float)
            (rookie_window (d_season_end pk) N))).
  { subst outcome. now rewrite pick_outcome_cost, salary_lookup_records. }
  split; [apply salary_lookup_records|]. split; [exact Hcost|].
  split; [exact Hout|].
  intros Hwin. rewrite Hcost. apply fsum_zeros.
  apply List.Forall_forall. intros x Hx.
  apply List.in_map_iff in Hx as (s & <- & Hs).
  apply in_rookie_window in Hs. apply Hout. lia.
Qed.

Lemma reconciled_salary_in_join_witness :
  cost_first4
    (pick_outcome (war_lookup example_war)
       (salary_lookup (salary_records
          (@load_salary_data latin_unicode
             {| has_canonical_name := true; csv_rows := [] |} 2021 2024)))
       4
       {| d_season_end := 2016; d_pick := 1; d_team := str "PHI";
          d_player_name := str "Ben Simmons";
          d_player_slug := str "simmobe01";
          d_canonical_name := str "ben simmons" |}) = 0.0%float.
Proof.
  destruct (@reconciled_salary_in_join latin_unicode
              {| has_canonical_name := true; csv_rows := [] |} 2021 2024
              (war_lookup example_war) 4
              {| d_season_end := 2016; d_pick := 1; d_team := str "PHI";
                 d_player_name := str "Ben Simmons";
                 d_player_slug := str "simmobe01";
                 d_canonical_name := str "ben simmons" |})
    as (_ & _ & _ & Hzero).
  apply Hzero. left. cbn. lia.
Defined.

(** ** The canonical key, in words *)

Section CanonicalKeys.
Context `{UnicodeData}.
Local Open Scope N_scope.

Local Arguments is_ascii : simpl never.
Local Arguments is_ascii_alnum : simpl never.
Local Arguments is_space : simpl never.
Local Arguments is_word : simpl never.
Local Arguments ci_match : simpl never.
Local Arguments ascii_to_lower : simpl never.
Local Arguments simple_char : simpl never.
Local Arguments name_char : simpl never.
Local Arguments N.eqb : simpl never.

Local Abbreviation alnums := (Forall (fun c => is_ascii_alnum c = true)).
Local Abbreviation simples := (Forall (fun c => simple_char c = true)).
Local Abbreviation good_words :=
  (Forall (fun w : pystr => w <> [] /\ alnums w)).
Local Abbreviation not_suffix := (fun w => negb (is_suffix_word w)).

Lemma canonical_key_of_name x :
  Forall (fun c => name_char c = true) (strip_combining (nfkd x)) ->
  good_words (List.map lower_word (List.filter not_suffix
    (words (punctuation_steps (strip_combining (nfkd x)))))) /\
  canonicalize_str x =
  join_words (List.map lower_word (List.filter not_suffix
    (words (punctuation_steps (strip_combining (nfkd x)))))).
Proof.
  intros Hx.
  pose proof (punctuation_steps_simple _ Hx) as Ht.
  destruct (words_sub _ Ht None eq_refl) as [Hsub Hwords].
  fold (sub_suffixes (punctuation_steps (strip_combining (nfkd x)))) in Hsub, Hwords.
  split.
  - apply good_words_lower, good_words_filter, words_good;
      [assumption|constructor].
  - unfold canonicalize_str.
    fold (punctuation_steps (strip_combining (nfkd x))).
    rewrite keep_simple, canonical_tail by assumption.
    now rewrite Hwords.
Qed.

(** X16. The key of a name, in words. For a string that, once decomposed
    and stripped of combining marks, is made of ASCII letters, digits,
    spaces, periods, commas, apostrophes and hyphens, the key is its words
    (periods, commas and apostrophes deleted, hyphens and spaces
    separating) without those that are a generational suffix up to case,
    in lower case, one space apart. Two such names get the same key
    exactly when these lists of words are the same. *)
Theorem canonical_key_words :
  (forall x,
     Forall (fun c => name_char c = true) (strip_combining (nfkd x)) ->
     _canonicalize (PyStr x) =
     join_words (List.map lower_word
       (List.filter (fun w => negb (is_suffix_word w))
          (words (punctuation_steps (strip_combining (nfkd x))))))) /\
  (forall x y,
     Forall (fun c => name_char c = true) (strip_combining (nfkd x)) ->
     Forall (fun c => name_char c = true) (strip_combining (nfkd y)) ->
     (_canonicalize (PyStr x) = _canonicalize (PyStr y) <->
      List.map lower_word
        (List.filter (fun w => negb (is_suffix_word w))
           (words (punctuation_steps (strip_combining (nfkd x))))) =
      List.map lower_word
        (List.filter (fun w => negb (is_suffix_word w))
           (words (punctuation_steps (strip_combining (nfkd y))))))).
Proof.
  cbn [_canonicalize]. split.
  - intros x Hx. now apply canonical_key_of_name.
  - intros x y Hx Hy.
    destruct (canonical_key_of_name x Hx) as [Hgx ->].
    destruct (canonical_key_of_name y Hy) as [Hgy ->].
    split.
    + intros Heq. apply (f_equal words) in Heq.
      now rewrite !words_join in Heq by assumption.
    + intros ->. reflexivity.
Qed.

Lemma map_fixed {A} (f : A -> A) (l : list A) :
  List.map f l = l -> Forall (fun a => f a = a) l.
Proof.
  induction l as [|a l IH]; [constructor|].
  cbn [List.map]. intros Heq. injection Heq as Ha Hl.
  constructor; [exact Ha|now apply IH].
Qed.

Lemma lower_simple_char c :
  simple_char c = true -> ascii_to_lower c = c ->
  is_lower c || is_digit c || (c =? SPACE) = true.
Proof.
  unfold ascii_to_lower. destruct (is_upper c) eqn:Eu.
  - intros _ Hc. lia.
  - unfold simple_char, is_ascii_alnum. rewrite Eu. cbn [orb]. auto.
Qed.

(** X17. The shape of a key. Whatever the argument, the key
    [_canonicalize] returns is made of the letters a-z, the digits and the
    space, and is its own words one space apart: no space leads or ends it
    and no two spaces are adjacent. Every step of the function but the
    removal of suffixes leaves a key as it is. *)
Theorem canonical_key_shape (v : pyval) :
  let k := _canonicalize v in
  Forall (fun c => is_lower c || is_digit c || (c =? SPACE) = true) k /\
  join_words (words k) = k /\
  strip_combining (nfkd k) = k /\
  punctuation_steps k = k /\
  keep_alnum_space k = k /\
  strip (collapse_whitespace k) = k /\
  lower k = k.
Proof.
  intros k.
  assert (Hform : exists W, good_words W /\ List.map lower_word W = W /\
                            k = join_words W).
  { subst k. destruct v as [s| | |]; cbn [_canonicalize];
      try (exists []; repeat split; constructor).
    apply canonical_form. }
  destruct Hform as (W & Hg & Hlow & Hk).
  assert (Hs : simples k) by (rewrite Hk; now apply join_words_simple).
  assert (Hw : words k = W) by (rewrite Hk; now apply words_join).
  assert (Hl : lower_word k = k)
    by (rewrite Hk at 1; now rewrite lower_word_join, Hlow).
  split; [|split; [|split; [|split; [|split; [|split]]]]].
  - apply map_fixed in Hl. apply List.Forall_forall. intros c Hc.
    apply lower_simple_char.
    + revert c Hc. now apply List.Forall_forall.
    + revert c Hc. now apply List.Forall_forall.
  - now rewrite Hw.
  - now rewrite nfkd_ascii, strip_combining_ascii by now apply simples_ascii.
  - now apply punctuation_steps_id.
  - now apply keep_simple.
  - rewrite strip_collapse_words by assumption. now rewrite Hw.
  - now rewrite lower_simple_str.
Qed.

End CanonicalKeys.

Lemma canonical_key_words_witness :
  @_canonicalize latin_unicode (PyStr (str "Gary Payton II")) =
  @_canonicalize latin_unicode (PyStr (str "gary PAYTON, jr.")).
Proof.
  destruct (@canonical_key_words latin_unicode) as [_ Hsame].
  apply Hsame.
  - vm_compute. repeat constructor.
  - vm_compute. repeat constructor.
  - vm_compute. reflexivity.
Defined.

(** ** Salary cells *)

Section CleanMoneyFacts.
Context `{FloatParser}.

Lemma MONEY_RE_sub_idem s : MONEY_RE_sub (MONEY_RE_sub s) = MONEY_RE_sub s.
Proof.
  unfold MONEY_RE_sub. induction s as [|c s IH]; [reflexivity|].
  cbn [List.filter]. destruct (is_digit c || (c =? 46)%N) eqn:E; [|exact IH].
  cbn [List.filter]. now rewrite E, IH.
Qed.

Lemma digit_not_period c : is_digit c = true -> (c =? 46)%N = false.
Proof.
  unfold is_digit. intros Hc. apply andb_true_iff in Hc as [H1 H2].
  apply N.leb_le in H1. apply N.eqb_neq. lia.
Qed.

Lemma cleaned_digits s :
  List.existsb is_digit (MONEY_RE_sub s) = List.existsb is_digit s.
Proof.
  unfold MONEY_RE_sub. induction s as [|c s IH]; [reflexivity|].
  cbn [List.filter List.existsb].
  destruct (is_digit c) eqn:Ed; cbn [orb List.existsb]; [now rewrite Ed|].
  destruct (c =? 46)%N; cbn [List.existsb]; rewrite ?Ed; exact IH.
Qed.

Lemma cleaned_periods s : periods (MONEY_RE_sub s) = periods s.
Proof.
  unfold periods, MONEY_RE_sub. induction s as [|c s IH]; [reflexivity|].
  cbn [List.filter].
  destruct (is_digit c) eqn:Ed; cbn [orb List.filter].
  - rewrite (digit_not_period c Ed). exact IH.
  - destruct (c =? 46)%N eqn:Ep; cbn [List.filter]; rewrite ?Ep; cbn [List.length];
      now rewrite IH.
Qed.

Lemma cleaned_empty s :
  MONEY_RE_sub s = [] <->
  List.existsb is_digit s = false /\ periods s = 0%nat.
Proof.
  unfold periods, MONEY_RE_sub. induction s as [|c s IH]; [now split|].
  cbn [List.filter List.existsb].
  destruct (is_digit c) eqn:Ed; cbn [orb].
  - split; [discriminate|intros [? _]; discriminate].
  - destruct (c =? 46)%N eqn:Ep; cbn [List.length].
    + split; [discriminate|intros [_ ?]; discriminate].
    + exact IH.
Qed.

Lemma clean_money_str s :
  _clean_money (PyStr s) =
  if List.existsb is_digit s
  then if (periods s <=? 1)%nat
       then FloatValue (float_of_numeral (MONEY_RE_sub s))
       else FloatValueError
  else if (periods s =? 0)%nat then FloatValue 0.0 else FloatValueError.
Proof.
  cbn [_clean_money]. pose proof (cleaned_empty s) as Hempty.
  destruct (MONEY_RE_sub s) as [|c cleaned] eqn:Ec.
  - destruct (proj1 Hempty eq_refl) as [-> ->]. reflexivity.
  - unfold float_of_cleaned, is_numeral.
    rewrite <- Ec, cleaned_digits, cleaned_periods.
    destruct (List.existsb is_digit s) eqn:Ed; cbn [andb]; [reflexivity|].
    destruct (periods s) as [|n] eqn:Ep; [|reflexivity].
    exfalso. assert (Hnil : c :: cleaned = []) by (now apply Hempty).
    discriminate.
Qed.

(** X18. On a text, [_clean_money] (and [_clean_salary], the same text)
    reads the digits and periods and nothing else: two texts with the same
    digits and periods in the same order give the same result, so a sign,
    a currency mark, a separator, a unit such as M or an exponent letter
    changes nothing. A text without digit or period gives 0.0. The call
    raises [ValueError] exactly when the text holds two or more periods,
    or a period and no digit; it raises nothing else on a text. *)
Theorem clean_money_reads_digits :
  (forall s s', MONEY_RE_sub s = MONEY_RE_sub s' ->
     _clean_money (PyStr s) = _clean_money (PyStr s')) /\
  (forall s, _clean_money (PyStr (MONEY_RE_sub s)) = _clean_money (PyStr s)) /\
  (forall s c, is_digit c = false -> c <> 46%N ->
     _clean_money (PyStr (c :: s)) = _clean_money (PyStr s)) /\
  (forall s, List.existsb is_digit s = false -> periods s = 0%nat ->
     _clean_money (PyStr s) = FloatValue 0.0) /\
  (forall s, _clean_money (PyStr s) = FloatValueError <->
     (2 <= periods s)%nat \/
     (periods s = 1%nat /\ List.existsb is_digit s = false)) /\
  (forall s, _clean_money (PyStr s) <> FloatOverflowError) /\
  (forall v, _clean_salary v = _clean_money v).
Proof.
  assert (Hsame : forall s s', MONEY_RE_sub s = MONEY_RE_sub s' ->
            _clean_money (PyStr s) = _clean_money (PyStr s')).
  { intros s s' Heq. cbn [_clean_money]. now rewrite Heq. }
  split; [exact Hsame|]. split; [|split; [|split; [|split; [|split]]]].
  - intros s. apply Hsame, MONEY_RE_sub_idem.
  - intros s c Hd Hp. apply Hsame. unfold MONEY_RE_sub. cbn [List.filter].
    rewrite Hd. apply N.eqb_neq in Hp. now rewrite Hp.
  - intros s Hd Hp. rewrite clean_money_str, Hd, Hp. reflexivity.
  - intros s. rewrite clean_money_str.
    destruct (List.existsb is_digit s).
    + destruct (Nat.leb_spec (periods s) 1).
      * split; [discriminate|]. intros [?|[_ ?]]; [lia|discriminate].
      * split; [intros _; left; lia|reflexivity].
    + destruct (Nat.eqb_spec (periods s) 0) as [Hz|Hnz].
      * split; [discriminate|]. intros [?|[? _]]; lia.
      * split; [|reflexivity]. intros _.
        destruct (periods s) as [|[|n]]; [congruence|now right|left; lia].
  - intros s. rewrite clean_money_str.
    destruct (List.existsb is_digit s);
      [destruct (periods s <=? 1)%nat|destruct (periods s =? 0)%nat];
      discriminate.
  - reflexivity.
Qed.

End CleanMoneyFacts.

Lemma clean_money_reads_digits_witness :
  @_clean_money decimal_float (PyStr (str "-$6,434,520")) =
  @_clean_money decimal_float (PyStr (str "6434520")) /\
  @_clean_money decimal_float (PyStr (str "T.B.D.")) = FloatValueError.
Proof.
  destruct (@clean_money_reads_digits decimal_float)
    as (Hsame & _ & _ & _ & Herr & _).
  split.
  - apply Hsame. vm_compute. reflexivity.
  - apply Herr. left. vm_compute. lia.
Defined.

(** ** The season of a salary row *)

Lemma split_on_digits sep part : forall acc,
  Forall (fun c => c <> sep) part ->
  forall rest, split_on sep acc (part ++ sep :: rest) =
               (acc ++ part) :: split_on sep [] rest.
Proof.
  induction part as [|c part IH]; intros acc Hpart rest.
  - cbn [List.app split_on]. rewrite N.eqb_refl. now rewrite List.app_nil_r.
  - inversion Hpart as [|? ? Hc Hpart']; subst. cbn [List.app split_on].
    apply N.eqb_neq in Hc. rewrite Hc. rewrite IH by assumption.
    now rewrite <- List.app_assoc.
Qed.

Lemma split_on_last sep part : forall acc,
  Forall (fun c => c <> sep) part ->
  split_on sep acc part = [acc ++ part].
Proof.
  induction part as [|c part IH]; intros acc Hpart.
  - cbn. now rewrite List.app_nil_r.
  - inversion Hpart as [|? ? Hc Hpart']; subst. cbn [split_on].
    apply N.eqb_neq in Hc. rewrite Hc. rewrite IH by assumption.
    now rewrite <- List.app_assoc.
Qed.

Lemma digits_no_hyphen s :
  Forall (fun c => is_digit c = true) s -> Forall (fun c => c <> 45%N) s.
Proof.
  intros Hs. eapply List.Forall_impl; [|exact Hs]. intros c Hc ->. discriminate.
Qed.

Lemma digit_value c : is_digit c = true -> 0 <= Z.of_N c - 48 <= 9.
Proof.
  unfold is_digit. intros Hc. apply andb_true_iff in Hc as [H1 H2].
  apply N.leb_le in H1, H2. lia.
Qed.

Section SeasonToEndFacts.
Context `{IntParser}.
Hypothesis int_of_digits : forall s, s <> [] ->
  Forall (fun c => is_digit c = true) s -> int_of_str s = Some (decimal_value s).

Lemma season_to_end_parts start end_ :
  start <> [] ->
  Forall (fun c => is_digit c = true) start ->
  Forall (fun c => is_digit c = true) end_ ->
  season_to_end (start ++ 45%N :: end_) =
  if (List.length end_ =? 4)%nat then py_int end_
  else py_int (List.firstn 2 start ++ end_).
Proof.
  intros Hne Hs He. unfold season_to_end.
  rewrite split_on_digits by now apply digits_no_hyphen.
  rewrite split_on_last by now apply digits_no_hyphen.
  cbn [List.app]. unfold py_int at 1. rewrite int_of_digits by assumption.
  reflexivity.
Qed.

(** X19. [season_to_end] on a season written as four digits, a hyphen and
    two digits (the form of the salary tables, as in 2016-17) returns the
    century of the first year with the two digits of the second: the year
    after the first one, except when the first year ends in 99, where it
    returns the year 99 years before it (1999-00 gives 1900). When the
    second year is written with four digits it is returned as it is. *)
Theorem season_to_end_century (start end_ : pystr) :
  Forall (fun c => is_digit c = true) start ->
  Forall (fun c => is_digit c = true) end_ ->
  List.length start = 4%nat ->
  let Y := decimal_value start in
  (List.length end_ = 2%nat ->
   season_to_end (start ++ 45%N :: end_) =
     Return (100 * (Y / 100) + decimal_value end_) /\
   (decimal_value end_ = (Y + 1) mod 100 ->
    season_to_end (start ++ 45%N :: end_) =
      Return (if Y mod 100 =? 99 then Y - 99 else Y + 1))) /\
  (List.length end_ = 4%nat ->
   season_to_end (start ++ 45%N :: end_) = Return (decimal_value end_)).
Proof.
  intros Hs He Hlen Y.
  assert (Hne : start <> []) by (destruct start; [discriminate|discriminate]).
  split.
  - intros Hlen2.
    assert (Hval : season_to_end (start ++ 45%N :: end_) =
                   Return (100 * (Y / 100) + decimal_value end_)).
    { rewrite season_to_end_parts by assumption. rewrite Hlen2. cbn [Nat.eqb].
      unfold py_int. rewrite int_of_digits.
      - f_equal. subst Y.
        destruct start as [|a [|b [|c [|d [|? ?]]]]]; try discriminate.
        destruct end_ as [|e [|f [|? ?]]]; try discriminate.
        inversion Hs as [|? ? Ha Hs1]; subst.
        inversion Hs1 as [|? ? Hb Hs2]; subst.
        inversion Hs2 as [|? ? Hc Hs3]; subst.
        inversion Hs3 as [|? ? Hd _]; subst.
        apply digit_value in Ha, Hb, Hc, Hd.
        unfold decimal_value. cbn [List.firstn List.app List.fold_left].
        replace ((10 * (10 * (10 * (10 * 0 + (Z.of_N a - 48)) + (Z.of_N b - 48)) +
                   (Z.of_N c - 48)) + (Z.of_N d - 48)) / 100)
          with (10 * (Z.of_N a - 48) + (Z.of_N b - 48)).
        + lia.
        + apply (Z.div_unique _ 100 _ (10 * (Z.of_N c - 48) + (Z.of_N d - 48)));
            lia.
      - destruct start as [|a [|b ?]]; discriminate.
      - apply Forall_app. split; [|assumption].
        destruct start as [|a [|b ?]]; try discriminate.
        inversion Hs as [|? ? Ha Hs1]; subst.
        inversion Hs1 as [|? ? Hb _]; subst.
        cbn [List.firstn]. repeat constructor; assumption. }
    split; [exact Hval|]. intros Hnext. rewrite Hval, Hnext. f_equal.
    pose proof (Z.div_mod Y 100 ltac:(lia)) as Hdm.
    pose proof (Z.mod_pos_bound Y 100 ltac:(lia)) as Hb.
    destruct (Z.eqb_spec (Y mod 100) 99) as [H99|H99].
    + replace ((Y + 1) mod 100) with 0; [lia|].
      apply (Z.mod_unique_pos _ 100 (Y / 100 + 1)); lia.
    + replace ((Y + 1) mod 100) with (Y mod 100 + 1); [lia|].
      apply (Z.mod_unique_pos _ 100 (Y / 100)); lia.
  - intros Hlen4. rewrite season_to_end_parts by assumption.
    rewrite Hlen4. cbn [Nat.eqb]. unfold py_int.
    rewrite int_of_digits; [reflexivity| |assumption].
    destruct end_; discriminate.
Qed.

End SeasonToEndFacts.

Lemma ascii_int_digits s :
  s <> [] -> Forall (fun c => is_digit c = true) s ->
  @int_of_str ascii_int s = Some (decimal_value s).
Proof.
  intros Hne Hs. cbn. destruct s as [|c s]; [congruence|].
  replace (List.forallb is_digit (c :: s)) with true; [reflexivity|].
  symmetry. apply List.forallb_forall. now apply List.Forall_forall.
Qed.

Lemma season_to_end_century_witness :
  @season_to_end ascii_int (str "1999-00") = Return 1900 /\
  @season_to_end ascii_int (str "2016-17") = Return 2017.
Proof.
  split.
  - destruct (@season_to_end_century ascii_int ascii_int_digits
                (str "1999") (str "00")) as [H2 _];
      [repeat constructor|repeat constructor|reflexivity|].
    destruct (H2 eq_refl) as [_ Hnext]. apply Hnext. reflexivity.
  - destruct (@season_to_end_century ascii_int ascii_int_digits
                (str "2016") (str "17")) as [H2 _];
      [repeat constructor|repeat constructor|reflexivity|].
    destruct (H2 eq_refl) as [_ Hnext]. apply Hnext. reflexivity.
Defined.

(** ** The retry loop of [bbr_player_salaries.py] *)

(** X20. [_request_with_retry] of [bbr_player_salaries.py] sleeps, before
    each of its at most six requests, the first delays of 1.0, 1.4, 1.96,
    2.744, 3.8416, 5.37824 seconds (as binary64 products): each is under
    the cap of 8 seconds, which never applies. It returns the page of the
    first request answered with an [ok] status other than 429, [None] when
    all six answers are retried, and raises only what a failed connection
    raises. *)
Theorem player_salaries_request_with_retry (get : nat -> http_outcome) :
  (exists n, (n <= 6)%nat /\
     fst (PlayerSalaries._request_with_retry get) =
     List.firstn n [1.0; 1.4; 1.9599999999999997; 2.7439999999999993;
                    3.8415999999999988; 5.3782399999999981]%float /\
     (n = 6%nat \/ ((0 < n)%nat /\ retried (get (n - 1)%nat) = false))) /\
  Forall (fun d => (d <? 8.0)%float = true)
    (fst (PlayerSalaries._request_with_retry get)) /\
  match snd (PlayerSalaries._request_with_retry get) with
  | Return (Some page) =>
      exists i status, (i < 6)%nat /\ get i = Responded status page /\
        status_ok status = true /\ status <> 429 /\
        forall j, (j < i)%nat -> retried (get j) = true
  | Return None => forall j, (j < 6)%nat -> retried (get j) = true
  | Raise e =>
      e = RequestException /\
      exists i, (i < 6)%nat /\ get i = ConnectionFailed /\
        forall j, (j < i)%nat -> retried (get j) = true
  end.
Proof.
  unfold PlayerSalaries._request_with_retry.
  destruct (request_attempts_sleeps get 6 0 1.0 1.4) as (n & Hn & Hfst & Hstop).
  split; [|split].
  - exists n. split; [exact Hn|]. split.
    + rewrite Hfst. reflexivity.
    + destruct Hstop as [->|(i & -> & Hpos & Hr)]; [now left|right].
      split; [exact Hpos|exact Hr].
  - rewrite Hfst. apply Forall_take. vm_compute. repeat constructor.
  - pose proof (request_attempts_outcome get 6 0 1.0 1.4) as Hout.
    destruct (snd (request_attempts 6 0 1.0 1.4 get)) as [[page|]|e].
    + destruct Hout as (i & status & Hi & Hg & Hok & Hne & Hall).
      exists i, status. repeat split; try assumption; try lia.
      intros j Hj. apply Hall. lia.
    + intros j Hj. apply Hout. lia.
    + destruct Hout as (-> & i & Hi & Hg & Hall). split; [reflexivity|].
      exists i. repeat split; try assumption; try lia.
      intros j Hj. apply Hall. lia.
Qed.

(** ** What the key of a name does not depend on *)

Section CanonicalKeyInvariance.
Context `{UnicodeData}.
Local Open Scope N_scope.

Local Arguments is_ascii : simpl never.
Local Arguments is_ascii_alnum : simpl never.
Local Arguments is_space : simpl never.
Local Arguments is_word : simpl never.
Local Arguments ci_match : simpl never.
Local Arguments ascii_to_lower : simpl never.
Local Arguments simple_char : simpl never.
Local Arguments name_char : simpl never.
Local Arguments N.eqb : simpl never.

Local Abbreviation alnums := (Forall (fun c => is_ascii_alnum c = true)).
Local Abbreviation simples := (Forall (fun c => simple_char c = true)).
Local Abbreviation names := (Forall (fun c => name_char c = true)).
Local Abbreviation good_words :=
  (Forall (fun w : pystr => w <> [] /\ alnums w)).
Local Abbreviation not_suffix := (fun w => negb (is_suffix_word w)).

Lemma name_char_ascii c : name_char c = true -> is_ascii c = true.
Proof.
  unfold name_char, is_ascii_alnum, is_upper, is_lower, is_digit, is_ascii, SPACE.
  intros Hc. b2p. lia.
Qed.

Lemma name_char_space c : name_char c = true -> is_space c = (c =? SPACE).
Proof.
  intros Hc. destruct (N.eqb_spec c SPACE) as [->|Hne]; [reflexivity|].
  destruct (is_space c) eqn:E; [exfalso|reflexivity].
  unfold name_char, is_ascii_alnum, is_upper, is_lower, is_digit, is_space,
    SPACE in *.
  b2p. lia.
Qed.

Lemma names_ascii s : names s -> List.forallb is_ascii s = true.
Proof.
  intros Hs. apply List.forallb_forall. intros c Hc.
  apply name_char_ascii. revert c Hc. now apply List.Forall_forall.
Qed.

Lemma key_of_name s :
  names s ->
  canonicalize_str s =
  join_words (List.map lower_word (List.filter not_suffix
    (words (punctuation_steps s)))).
Proof.
  intros Hs.
  assert (Hid : strip_combining (nfkd s) = s)
    by (now rewrite nfkd_ascii, strip_combining_ascii by now apply names_ascii).
  destruct (canonical_key_of_name s) as [_ Hkey]; [now rewrite Hid|].
  now rewrite Hid in Hkey.
Qed.

Lemma punctuation_steps_cons c s :
  punctuation_steps (c :: s) =
  if (c =? 46) || (c =? 44) || (c =? 39) then punctuation_steps s
  else (if c =? 45 then SPACE else c) :: punctuation_steps s.
Proof.
  unfold punctuation_steps, replace_char, remove_char.
  cbn [List.filter List.map].
  destruct (N.eqb_spec c 46) as [->|N46]; [reflexivity|]. cbn [negb List.filter orb].
  destruct (N.eqb_spec c 44) as [->|N44]; [reflexivity|]. cbn [negb List.filter orb].
  destruct (N.eqb_spec c 39) as [->|N39]; [reflexivity|]. cbn [negb List.map].
  reflexivity.
Qed.

Lemma punctuation_steps_app s t :
  punctuation_steps (s ++ t) = punctuation_steps s ++ punctuation_steps t.
Proof.
  unfold punctuation_steps, replace_char, remove_char.
  now rewrite !List.filter_app, List.map_app.
Qed.

(** Case. *)
Lemma lower_eqb c k :
  is_upper k = false -> is_lower k = false ->
  (ascii_to_lower c =? k) = (c =? k).
Proof.
  intros Hu Hl. unfold ascii_to_lower. destruct (is_upper c) eqn:Ec; [|reflexivity].
  destruct (N.eqb_spec c k) as [->|Hne]; [congruence|].
  apply N.eqb_neq. intros Heq.
  assert (Hk : is_lower k = true).
  { rewrite <- Heq. unfold is_upper, is_lower in *. b2p. lia. }
  congruence.
Qed.

Lemma punctuation_steps_lower s :
  punctuation_steps (lower_word s) = lower_word (punctuation_steps s).
Proof.
  induction s as [|c s IH]; [reflexivity|].
  change (lower_word (c :: s)) with (ascii_to_lower c :: lower_word s).
  rewrite !punctuation_steps_cons, IH.
  rewrite !lower_eqb by reflexivity.
  destruct ((c =? 46) || (c =? 44) || (c =? 39)); [reflexivity|].
  destruct (N.eqb_spec c 45) as [->|N45]; reflexivity.
Qed.

Lemma words_from_lower t : forall acc,
  words_from (lower_word acc) (lower_word t) =
  List.map lower_word (words_from acc t).
Proof.
  induction t as [|c t IH]; intros acc.
  - cbn [lower_word List.map words_from]. destruct acc; reflexivity.
  - change (lower_word (c :: t)) with (ascii_to_lower c :: lower_word t).
    cbn [words_from]. rewrite (lower_eqb c SPACE) by reflexivity.
    destruct (c =? SPACE).
    + destruct acc as [|a acc].
      * apply (IH []).
      * change (lower_word (a :: acc)) with (ascii_to_lower a :: lower_word acc).
        cbn [List.map]. f_equal. apply (IH []).
    + rewrite <- IH. f_equal. unfold lower_word. now rewrite List.map_app.
Qed.

Lemma lower_name_char c : name_char c = true -> name_char (ascii_to_lower c) = true.
Proof.
  unfold ascii_to_lower. destruct (is_upper c) eqn:Ec; [|auto].
  intros _.
  assert (Hl : is_lower (c + 32) = true)
    by (unfold is_upper, is_lower in *; b2p; lia).
  unfold name_char, is_ascii_alnum. rewrite Hl. now rewrite orb_true_r.
Qed.

Lemma key_lower s : names s -> canonicalize_str (lower s) = canonicalize_str s.
Proof.
  intros Hs.
  assert (Hl : lower s = lower_word s)
    by (unfold lower; now rewrite names_ascii).
  rewrite Hl, !key_of_name; [|assumption|].
  - rewrite punctuation_steps_lower. unfold words.
    rewrite (words_from_lower _ []).
    rewrite filter_lower_words
      by (apply words_good; [now apply punctuation_steps_simple|constructor]).
    rewrite List.map_map.
    f_equal. apply List.map_ext, lower_word_idem.
  - unfold lower_word. apply List.Forall_forall. intros c Hc.
    apply List.in_map_iff in Hc as (d & <- & Hd). apply lower_name_char.
    revert d Hd. now apply List.Forall_forall.
Qed.

(** Spacing. *)
Lemma words_collapse s : names s -> forall (b : bool) acc,
  (b = true -> acc = []) ->
  words_from acc (punctuation_steps (collapse_from b s)) =
  words_from acc (punctuation_steps s).
Proof.
  induction 1 as [|c s Hc Hs IH]; intros b acc Hb; [reflexivity|].
  cbn [collapse_from]. rewrite (name_char_space c Hc).
  destruct (N.eqb_spec c SPACE) as [->|Hne].
  - rewrite (punctuation_steps_cons SPACE s).
    change ((SPACE =? 46) || (SPACE =? 44) || (SPACE =? 39)) with false.
    change (SPACE =? 45) with false. cbn iota.
    destruct b.
    + rewrite (Hb eq_refl). rewrite (IH true []) by reflexivity. reflexivity.
    + rewrite (punctuation_steps_cons SPACE).
      change ((SPACE =? 46) || (SPACE =? 44) || (SPACE =? 39)) with false.
      change (SPACE =? 45) with false. cbn iota.
      cbn [words_from]. rewrite N.eqb_refl.
      rewrite (IH true []) by reflexivity. reflexivity.
  - rewrite !(punctuation_steps_cons c).
    destruct ((c =? 46) || (c =? 44) || (c =? 39)).
    + apply IH. discriminate.
    + destruct (c =? 45).
      * cbn [words_from]. rewrite N.eqb_refl.
        rewrite (IH false []) by discriminate. reflexivity.
      * cbn [words_from]. destruct (c =? SPACE); [|apply IH; discriminate].
        rewrite (IH false []) by discriminate. reflexivity.
Qed.

Lemma names_collapse s : names s -> forall b, names (collapse_from b s).
Proof.
  induction 1 as [|c s Hc Hs IH]; intros b; [constructor|].
  cbn [collapse_from]. destruct (is_space c).
  - destruct b; [apply IH|constructor; [reflexivity|apply IH]].
  - constructor; [assumption|apply IH].
Qed.

Lemma names_lstrip t : names t -> names (lstrip t).
Proof.
  induction 1 as [|c t Hc Ht IH]; [constructor|].
  cbn [lstrip]. destruct (is_space c); [exact IH|now constructor].
Qed.

Lemma words_lstrip t :
  names t ->
  words (punctuation_steps (lstrip t)) = words (punctuation_steps t).
Proof.
  induction 1 as [|c t Hc Ht IH]; [reflexivity|].
  cbn [lstrip]. rewrite (name_char_space c Hc).
  destruct (N.eqb_spec c SPACE) as [->|Hne]; [|reflexivity].
  rewrite IH, (punctuation_steps_cons SPACE).
  change ((SPACE =? 46) || (SPACE =? 44) || (SPACE =? 39)) with false.
  change (SPACE =? 45) with false. cbn iota. now rewrite words_space.
Qed.

Lemma words_spaces t :
  names t -> rstrip t = [] -> forall acc,
  words_from acc (punctuation_steps t) = words_from acc [].
Proof.
  induction 1 as [|c t Hc Ht IH]; intros Hr acc; [reflexivity|].
  cbn [rstrip] in Hr. destruct (rstrip t) as [|d r] eqn:Er; [|discriminate].
  rewrite (name_char_space c Hc) in Hr.
  destruct (N.eqb_spec c SPACE) as [->|Hne]; [|discriminate].
  rewrite (punctuation_steps_cons SPACE).
  change ((SPACE =? 46) || (SPACE =? 44) || (SPACE =? 39)) with false.
  change (SPACE =? 45) with false. cbn iota.
  cbn [words_from]. rewrite N.eqb_refl.
  rewrite (IH eq_refl []). destruct acc; reflexivity.
Qed.

Lemma words_rstrip t : names t -> forall acc,
  words_from acc (punctuation_steps (rstrip t)) =
  words_from acc (punctuation_steps t).
Proof.
  induction 1 as [|c t Hc Ht IH]; intros acc; [reflexivity|].
  cbn [rstrip]. destruct (rstrip t) as [|d r] eqn:Er.
  - pose proof (words_spaces t Ht Er) as Hsp.
    rewrite (name_char_space c Hc).
    destruct (N.eqb_spec c SPACE) as [->|Hne].
    + rewrite (punctuation_steps_cons SPACE).
      change ((SPACE =? 46) || (SPACE =? 44) || (SPACE =? 39)) with false.
      change (SPACE =? 45) with false. cbn iota.
      cbn [words_from]. rewrite N.eqb_refl. rewrite (Hsp []).
      destruct acc; reflexivity.
    + rewrite !(punctuation_steps_cons c).
      change (punctuation_steps []) with (@nil N).
      destruct ((c =? 46) || (c =? 44) || (c =? 39)); [now rewrite Hsp|].
      destruct (c =? 45).
      * cbn [words_from]. rewrite N.eqb_refl. rewrite (Hsp []).
        destruct acc; reflexivity.
      * cbn [words_from]. destruct (c =? SPACE).
        -- rewrite (Hsp []). destruct acc; reflexivity.
        -- now rewrite Hsp.
  - rewrite !(punctuation_steps_cons c).
    destruct ((c =? 46) || (c =? 44) || (c =? 39)); [apply IH|].
    destruct (c =? 45).
    + cbn [words_from]. rewrite N.eqb_refl. rewrite (IH []). reflexivity.
    + cbn [words_from]. destruct (c =? SPACE); rewrite IH; reflexivity.
Qed.

Lemma names_rstrip t : names t -> names (rstrip t).
Proof.
  induction 1 as [|c t Hc Ht IH]; [constructor|].
  cbn [rstrip]. destruct (rstrip t) as [|d r].
  - destruct (is_space c); constructor; [assumption|constructor].
  - now constructor.
Qed.

Lemma key_spacing s :
  names s ->
  canonicalize_str (strip (collapse_whitespace s)) = canonicalize_str s.
Proof.
  intros Hs. unfold strip, collapse_whitespace.
  pose proof (names_collapse s Hs false) as Hc.
  pose proof (names_lstrip _ Hc) as Hl.
  rewrite !key_of_name by (try apply names_rstrip; assumption).
  unfold words. rewrite (words_rstrip _ Hl []).
  fold (words (punctuation_steps (lstrip (collapse_from false s)))).
  rewrite (words_lstrip _ Hc). unfold words.
  rewrite (words_collapse s Hs false []) by discriminate. reflexivity.
Qed.

(** A suffix at the end. *)
Lemma words_from_app_word u w : alnums w -> w <> [] -> forall acc,
  words_from acc (u ++ SPACE :: w) = words_from acc u ++ [w].
Proof.
  intros Hw Hne. induction u as [|c u IH]; intros acc.
  - cbn [List.app words_from]. rewrite N.eqb_refl.
    change (words_from [] w) with (words w). rewrite words_word by assumption.
    destruct acc; reflexivity.
  - cbn [List.app words_from]. destruct (c =? SPACE).
    + destruct acc; rewrite IH; reflexivity.
    + apply IH.
Qed.

Lemma suffix_word_nonempty w : is_suffix_word w = true -> w <> [].
Proof.
  unfold is_suffix_word. intros Hw ->.
  vm_compute in Hw. discriminate.
Qed.

Lemma key_suffix s w :
  names s -> alnums w -> is_suffix_word w = true ->
  canonicalize_str (s ++ SPACE :: w) = canonicalize_str s /\
  canonicalize_str (s ++ SPACE :: w ++ [46]) = canonicalize_str s.
Proof.
  intros Hs Hw Hsuf.
  pose proof (suffix_word_nonempty w Hsuf) as Hne.
  assert (Hnw : names w).
  { eapply List.Forall_impl; [|exact Hw]. intros c Hc.
    unfold name_char. now rewrite Hc. }
  assert (Hpw : punctuation_steps w = w)
    by (apply punctuation_steps_id; now apply alnums_simples).
  assert (Hkey : forall t, names t -> punctuation_steps t = w ->
            canonicalize_str (s ++ SPACE :: t) = canonicalize_str s).
  { intros t Ht Hpt.
    rewrite !key_of_name;
      [|assumption|apply Forall_app; split; [assumption|now constructor]].
    rewrite punctuation_steps_app, (punctuation_steps_cons SPACE t), Hpt.
    change ((SPACE =? 46) || (SPACE =? 44) || (SPACE =? 39)) with false.
    change (SPACE =? 45) with false. cbn iota.
    unfold words. rewrite words_from_app_word by assumption.
    rewrite List.filter_app. cbn [List.filter]. rewrite Hsuf. cbn [negb].
    now rewrite List.app_nil_r. }
  split.
  - now apply Hkey.
  - apply Hkey.
    + apply Forall_app. split; [assumption|now constructor].
    + rewrite punctuation_steps_app, Hpw. cbn. now rewrite List.app_nil_r.
Qed.

(** X21. The key of a name of ASCII letters, digits, spaces, periods,
    commas, apostrophes and hyphens does not depend on its case, nor on
    its spacing (the whitespace clean-up the salary scripts apply to the
    player column before the key is taken changes no key), nor on a
    generational suffix written as a last word, with or without a
    period. *)
Theorem canonical_key_invariance (s : pystr) :
  Forall (fun c => name_char c = true) s ->
  _canonicalize (PyStr (lower s)) = _canonicalize (PyStr s) /\
  _canonicalize (PyStr (strip (collapse_whitespace s))) =
    _canonicalize (PyStr s) /\
  (forall w, Forall (fun c => is_ascii_alnum c = true) w ->
     is_suffix_word w = true ->
     _canonicalize (PyStr (s ++ SPACE :: w)) = _canonicalize (PyStr s) /\
     _canonicalize (PyStr (s ++ SPACE :: w ++ [46])) = _canonicalize (PyStr s)).
Proof.
  intros Hs. cbn [_canonicalize]. split; [|split].
  - now apply key_lower.
  - now apply key_spacing.
  - intros w Hw Hsuf. now apply key_suffix.
Qed.

End CanonicalKeyInvariance.

Lemma canonical_key_invariance_witness :
  @_canonicalize latin_unicode (PyStr (str "Gary Payton Jr.")) =
  @_canonicalize latin_unicode (PyStr (str "Gary Payton")).
Proof.
  destruct (@canonical_key_invariance latin_unicode (str "Gary Payton"))
    as (_ & _ & Hsuf).
  - vm_compute. repeat constructor.
  - destruct (Hsuf (str "Jr")) as [_ Hdot].
    + vm_compute. repeat constructor.
    + vm_compute. reflexivity.
    + exact Hdot.
Defined.
